(** * wccg-context: context providers, request and announcement events

  A shallow embedding of the TypeScript sources

    - [src/context-providers.ts]   ([registerContextProvider] and friends),
    - [context-request-event.ts]   ([ContextRequestEvent]),
    - [context-provider-event.ts]  ([ContextProviderEvent]),
    - [mod.ts] / [browser.ts]      (the entry-point guards),

  over a small model of the host they run on: a node tree with shadow
  roots, event listeners, synchronous event dispatch with a capture and a
  bubble pass, and the microtask queue on which [await] resumes.

  The host is a closed world: the only listeners are the ones this package
  installs (the provider's [contextListener] closure and the two handlers of
  the resolution buffer), consumer callbacks are opaque (an invocation is
  recorded in the trace and may throw, nothing more), and slots are left
  out of the node tree. *)

From Stdlib Require Import List String Bool Arith ZArith Lia.
Import ListNotations.
Open Scope string_scope.
Open Scope list_scope.

Set Implicit Arguments.

(* ------------------------------------------------------------------ *)
(** ** JavaScript values, completions and awaited values *)

Module Js.

(** The values a provider hands to a consumer. [Undefined] is the value
    [contextListener] compares against before it calls the callback. *)
Inductive Value : Type :=
| Undefined
| Null
| Boolean (b : bool)
| Number (z : Z)
| Text (s : string)
| Object (ref : nat).

Definition isUndefined (v : Value) : bool :=
  match v with Undefined => true | _ => false end.

(** How a promise settles. *)
Inductive Settlement : Type :=
| Fulfilled (v : Value)
| Rejected (reason : Value).

(** The operand of [await]: a plain value, or a promise named by its
    identity, settled later (or never) by the environment. *)
Inductive Awaitable : Type :=
| Plain (v : Value)
| Promise (p : nat).

(** The outcome of a call: a result, or a thrown value. *)
Inductive Completion (A : Type) : Type :=
| Normal (a : A)
| Throw (e : Value).

Arguments Normal {A} a.
Arguments Throw {A} e.

End Js.

(* ------------------------------------------------------------------ *)
(** ** The node tree *)

Module Dom.

(** A node is named by its place in the forest: the document, the
    parentless root of a detached tree, the [i]-th child of a node, or the
    shadow root attached to a host. *)
Inductive Node : Type :=
| Document
| Detached (k : nat)
| Child (parent : Node) (i : nat)
| ShadowRoot (host : Node).

Definition Node_eq_dec (a b : Node) : {a = b} + {a <> b}.
Proof. decide equality; apply Nat.eq_dec. Defined.

Definition Node_eqb (a b : Node) : bool :=
  if Node_eq_dec a b then true else false.


(** [node.getRootNode()] (no [composed] option): the topmost node reached
    through [parentNode]; it never leaves the node's own tree, so inside a
    shadow tree it is the shadow root. *)
Fixpoint getRootNode (n : Node) : Node :=
  match n with
  | Child p _ => getRootNode p
  | _ => n
  end.

(** [<html>] and [<body>] of the document. *)
Definition documentElement : Node := Child Document 0.
Definition document_body : Node := Child documentElement 1.

(** What [super(type, {bubbles, composed})] stores in the base [Event]. *)
Record Event : Type := {
  type : string;
  bubbles : bool;
  composed : bool
}.

(** The event path of a dispatch at [target], the target first: parents,
    and from a shadow root on to its host only when the event is composed. *)
Fixpoint eventPath (isComposed : bool) (target : Node) : list Node :=
  target ::
  match target with
  | Child p _ => eventPath isComposed p
  | ShadowRoot h => if isComposed then eventPath isComposed h else []
  | _ => []
  end.

(** [under a n]: [a] is [n] or an ancestor of [n], shadow boundaries
    crossed. *)
Definition under (a n : Node) : Prop := In a (eventPath true n).

End Dom.

(* ------------------------------------------------------------------ *)
(** ** Context identifiers, callbacks and the two event classes *)

(** Modelled from the spec: [create-context.ts] (the [Context] and
  [ContextType] types) is not among the sources. A context identifier is
  "an opaque, equality-comparable token (string or symbol-like unique
  value)"; a symbol is told apart by its identity and keeps its
  description for [String(context)]. *)
Inductive Context : Type :=
| CtxString (s : string)
| CtxSymbol (id : nat) (description : string).

(** [a === b] on context identifiers: strings by content, symbols by
  identity, a string never equal to a symbol. *)
Definition strictEquals (a b : Context) : bool :=
match a, b with
| CtxString s, CtxString t => String.eqb s t
| CtxSymbol i d, CtxSymbol j e => Nat.eqb i j && String.eqb d e
| _, _ => false
end.

(** [String(context)], used in the provider's error message. *)
Definition String_of (c : Context) : string :=
match c with
| CtxString s => s
| CtxSymbol _ d => "Symbol(" ++ d ++ ")"
end.

(** [ContextCallback<ValueType>]: the consumer's function. It is opaque to
  this package: all that is known of a call is which function was called
  with which value, and whether the call threw. *)
Record ContextCallback : Type := {
cb_id : nat;
cb_throws : Js.Value -> option Js.Value
}.

Module ContextRequestEvent.

Record t : Type := {
  event : Dom.Event;
  context : Context;
  contextTarget : Dom.Node;
  callback : ContextCallback;
  subscribe : option bool     (* [readonly subscribe?: boolean] *)
}.

(** [constructor(context, contextTarget, callback, subscribe?)]. *)
Definition new (context : Context) (contextTarget : Dom.Node)
    (callback : ContextCallback) (subscribe : option bool) : t :=
  {| event := {| Dom.type := "context-request";
                 Dom.bubbles := true; Dom.composed := true |};
     context := context;
     contextTarget := contextTarget;
     callback := callback;
     (* subscribe ?? false *)
     subscribe := match subscribe with
                  | Some b => Some b
                  | None => Some false
                  end |}.

End ContextRequestEvent.

Module ContextProviderEvent.

Record t : Type := {
  event : Dom.Event;
  context : Context;
  contextTarget : Dom.Node
}.

(** [constructor(context, contextTarget)]. *)
Definition new (context : Context) (contextTarget : Dom.Node) : t :=
  {| event := {| Dom.type := "context-provider";
                 Dom.bubbles := true; Dom.composed := true |};
     context := context;
     contextTarget := contextTarget |}.

End ContextProviderEvent.

Import Dom.

(* ------------------------------------------------------------------ *)
(** ** Providers' values and handlers ([context-providers.ts]) *)

(** [ContextHandler<C>]: called with the request event, it returns a value
    or a promise of one, or throws. *)
Definition ContextHandler : Type :=
  ContextRequestEvent.t -> Js.Completion Js.Awaitable.

(** The second argument of [registerContextProvider], already told apart by
    [typeof handlerOrValue === 'function']. *)
Inductive HandlerOrValue : Type :=
| Static (value : Js.Value)
| Handler (handler : ContextHandler).

Definition isHandler (handlerOrValue : HandlerOrValue) : bool :=
  match handlerOrValue with
  | Handler _ => true
  | Static _ => false
  end.

(* ------------------------------------------------------------------ *)
(** ** The host: listeners, trace, promises and microtasks *)

(** The functions that listen in this world. Each call of
    [registerContextProvider] makes a new [contextListener] closure, named
    by [closure], over the variables it captures; the two handlers of the
    resolution buffer are one function each. *)
Inductive Listener : Type :=
| ContextListener (closure : nat) (context : Context)
    (handlerOrValue : HandlerOrValue) (stopPropagation : bool)
| OnContextRequest
| OnContextProvider.

(** Function identity, as [addEventListener] and [removeEventListener]
    compare callbacks. *)
Definition sameFunction (a b : Listener) : bool :=
  match a, b with
  | ContextListener i _ _ _, ContextListener j _ _ _ => Nat.eqb i j
  | OnContextRequest, OnContextRequest => true
  | OnContextProvider, OnContextProvider => true
  | _, _ => false
  end.

Record AddEventListenerOptions : Type := {
  capture : bool;
  once : bool;
  passive : bool;
  signal : option nat      (* an [AbortSignal], by identity *)
}.

Definition noOptions : AddEventListenerOptions :=
  {| capture := false; once := false; passive := false; signal := None |}.

(** An entry of a node's event listener list. *)
Record Registration : Type := {
  reg_target : Node;
  reg_type : string;
  reg_callback : Listener;
  reg_capture : bool;
  reg_once : bool;
  reg_signal : option nat
}.

Inductive SomeEvent : Type :=
| RequestEvent (e : ContextRequestEvent.t)
| ProviderEvent (e : ContextProviderEvent.t).

(** What the code asks of the host and of the consumer, in the order it
    happens. *)
Inductive HostCall : Type :=
| AddEventListener (target : Node) (type : string) (callback : Listener)
    (options : AddEventListenerOptions)
| RemoveEventListener (target : Node) (type : string) (callback : Listener)
| DispatchEvent (target : Node) (ev : SomeEvent)
| Callback (callback : nat) (value : Js.Value)
| ConsoleError (message : string) (error : Js.Value)
| ReportException (error : Js.Value).

(** The rest of [contextListener] after its [await]: the variables the
    continuation still reads. *)
Record Resumption : Type := {
  res_context : Context;
  res_callback : ContextCallback
}.

(** Modelled from the spec: the resolution buffer ([ContextRoot]) is not
    among the sources. A RequestRecord is "the persisted form of an
    unanswered request signal: { context, originNode, deliver, subscribe }". *)
Record RequestRecord : Type := {
  rec_context : Context;
  rec_originNode : Node;
  rec_deliver : ContextCallback;
  rec_subscribe : bool
}.

Record World : Type := {
  listeners : list Registration;          (* in the order they were added *)
  closures : nat;                         (* the next closure's identity *)
  aborted : list nat;                     (* abort signals that fired *)
  settled : list (nat * Js.Settlement);   (* promises that settled *)
  awaiting : list (nat * Resumption);     (* suspended on a pending promise *)
  microtasks : list (Js.Settlement * Resumption);
  pending : list RequestRecord;           (* the resolution buffer *)
  replaying : bool;                       (* the buffer is replaying *)
  trace : list HostCall
}.

Definition initialWorld : World :=
  {| listeners := []; closures := 0; aborted := []; settled := [];
     awaiting := []; microtasks := []; pending := []; replaying := false;
     trace := [] |}.

Definition withListeners (x : list Registration) (w : World) : World :=
  {| listeners := x; closures := closures w; aborted := aborted w;
     settled := settled w; awaiting := awaiting w; microtasks := microtasks w;
     pending := pending w; replaying := replaying w; trace := trace w |}.

Definition withClosures (x : nat) (w : World) : World :=
  {| listeners := listeners w; closures := x; aborted := aborted w;
     settled := settled w; awaiting := awaiting w; microtasks := microtasks w;
     pending := pending w; replaying := replaying w; trace := trace w |}.

Definition withAborted (x : list nat) (w : World) : World :=
  {| listeners := listeners w; closures := closures w; aborted := x;
     settled := settled w; awaiting := awaiting w; microtasks := microtasks w;
     pending := pending w; replaying := replaying w; trace := trace w |}.

Definition withSettled (x : list (nat * Js.Settlement)) (w : World) : World :=
  {| listeners := listeners w; closures := closures w; aborted := aborted w;
     settled := x; awaiting := awaiting w; microtasks := microtasks w;
     pending := pending w; replaying := replaying w; trace := trace w |}.

Definition withAwaiting (x : list (nat * Resumption)) (w : World) : World :=
  {| listeners := listeners w; closures := closures w; aborted := aborted w;
     settled := settled w; awaiting := x; microtasks := microtasks w;
     pending := pending w; replaying := replaying w; trace := trace w |}.

Definition withMicrotasks (x : list (Js.Settlement * Resumption)) (w : World)
    : World :=
  {| listeners := listeners w; closures := closures w; aborted := aborted w;
     settled := settled w; awaiting := awaiting w; microtasks := x;
     pending := pending w; replaying := replaying w; trace := trace w |}.

Definition withPending (x : list RequestRecord) (w : World) : World :=
  {| listeners := listeners w; closures := closures w; aborted := aborted w;
     settled := settled w; awaiting := awaiting w; microtasks := microtasks w;
     pending := x; replaying := replaying w; trace := trace w |}.

Definition withReplaying (x : bool) (w : World) : World :=
  {| listeners := listeners w; closures := closures w; aborted := aborted w;
     settled := settled w; awaiting := awaiting w; microtasks := microtasks w;
     pending := pending w; replaying := x; trace := trace w |}.

Definition withTrace (x : list HostCall) (w : World) : World :=
  {| listeners := listeners w; closures := closures w; aborted := aborted w;
     settled := settled w; awaiting := awaiting w; microtasks := microtasks w;
     pending := pending w; replaying := replaying w; trace := x |}.

Definition log (c : HostCall) (w : World) : World :=
  withTrace (trace w ++ [c]) w.

(** Two listeners of a node are the same entry when type, callback and
    capture agree. *)
Definition sameRegistration (target : Node) (type : string)
    (callback : Listener) (useCapture : bool) (r : Registration) : bool :=
  Node_eqb (reg_target r) target && String.eqb (reg_type r) type &&
  sameFunction (reg_callback r) callback && Bool.eqb (reg_capture r) useCapture.

Definition isAborted (s : option nat) (w : World) : bool :=
  match s with
  | Some k => existsb (Nat.eqb k) (aborted w)
  | None => false
  end.

(** [target.addEventListener(type, callback, options)]: nothing is added
    when the signal has already fired or the entry is there already. *)
Definition addEventListener (target : Node) (type : string)
    (callback : Listener) (options : AddEventListenerOptions) (w : World)
    : World :=
  let w := log (AddEventListener target type callback options) w in
  if isAborted (signal options) w then w
  else if existsb (sameRegistration target type callback (capture options))
            (listeners w) then w
  else withListeners
         (listeners w ++
          [{| reg_target := target; reg_type := type;
              reg_callback := callback; reg_capture := capture options;
              reg_once := once options; reg_signal := signal options |}]) w.

Definition unregister (target : Node) (type : string) (callback : Listener)
    (useCapture : bool) (w : World) : World :=
  withListeners
    (filter (fun r => negb (sameRegistration target type callback useCapture r))
       (listeners w)) w.

(** [target.removeEventListener(type, callback)], capture flag given. *)
Definition removeEventListener (target : Node) (type : string)
    (callback : Listener) (useCapture : bool) (w : World) : World :=
  unregister target type callback useCapture
    (log (RemoveEventListener target type callback) w).

(** An abort signal fires: the listeners added with it go. *)
Definition abortSignal (k : nat) (w : World) : World :=
  withAborted (k :: aborted w)
    (withListeners
       (filter (fun r => match reg_signal r with
                         | Some j => negb (Nat.eqb j k)
                         | None => true
                         end) (listeners w)) w).

Definition lookupSettled (p : nat) (w : World) : option Js.Settlement :=
  match find (fun x => Nat.eqb (fst x) p) (settled w) with
  | Some x => Some (snd x)
  | None => None
  end.

(** [await a]: the caller is suspended; it resumes in a microtask, at once
    for a plain value or a settled promise, after the settlement
    otherwise. *)
Definition await (a : Js.Awaitable) (k : Resumption) (w : World) : World :=
  match a with
  | Js.Plain v => withMicrotasks (microtasks w ++ [(Js.Fulfilled v, k)]) w
  | Js.Promise p =>
      match lookupSettled p w with
      | Some s => withMicrotasks (microtasks w ++ [(s, k)]) w
      | None => withAwaiting (awaiting w ++ [(p, k)]) w
      end
  end.

(** The environment settles promise [p]; a promise settles once. *)
Definition settlePromise (p : nat) (s : Js.Settlement) (w : World) : World :=
  match lookupSettled p w with
  | Some _ => w
  | None =>
      let ready := filter (fun x => Nat.eqb (fst x) p) (awaiting w) in
      let waiting := filter (fun x => negb (Nat.eqb (fst x) p)) (awaiting w) in
      withSettled ((p, s) :: settled w)
        (withAwaiting waiting
           (withMicrotasks
              (microtasks w ++ map (fun x => (s, snd x)) ready) w))
  end.

(** What a listener call leaves: the event's stop flag, the world, and the
    exception the call let escape to the dispatcher, if any. *)
Record Outcome : Type := {
  stopFlag : bool;
  world : World;
  escaped : option Js.Value
}.

Section Dispatch.

(** The event subclass and what calling a listener with it does. *)
Variable E : Type.
Variable call : Listener -> E -> bool -> World -> Outcome.

Definition listening (type : string) (useCapture : bool) (n : Node)
    (r : Registration) : bool :=
  Node_eqb (reg_target r) n && String.eqb (reg_type r) type &&
  Bool.eqb (reg_capture r) useCapture.

(** The listeners a dispatch at [target] visits, in order: the capturing
    ones from the top of the path down to the target, then the others from
    the target up (the target alone when the event does not bubble). *)
Definition invocationOrder (ls : list Registration) (ev : Dom.Event)
    (target : Node) : list Registration :=
  let path := eventPath (composed ev) target in
  flat_map (fun n => filter (listening (type ev) true n) ls) (rev path) ++
  flat_map (fun n => filter (listening (type ev) false n) ls)
    (if bubbles ev then path else [target]).

Definition isRegistered (r : Registration) (w : World) : bool :=
  existsb (sameRegistration (reg_target r) (reg_type r) (reg_callback r)
             (reg_capture r)) (listeners w).

(** Invoke the listeners in turn: nothing more once the stop flag is set
    ([stopImmediatePropagation] is the only stop this world uses); a listener
    removed meanwhile is skipped; a [once] listener is removed before it is
    called; an exception that escapes a listener is reported, not rethrown. *)
Fixpoint invoke (order : list Registration) (e : E) (stopped : bool)
    (w : World) : bool * World :=
  match order with
  | [] => (stopped, w)
  | r :: rest =>
      if stopped then (stopped, w)
      else if negb (isRegistered r w) then invoke rest e stopped w
      else
        let w1 := if reg_once r
                  then unregister (reg_target r) (reg_type r) (reg_callback r)
                         (reg_capture r) w
                  else w in
        let o := call (reg_callback r) e stopped w1 in
        let w2 := match escaped o with
                  | Some error => log (ReportException error) (world o)
                  | None => world o
                  end in
        invoke rest e (stopFlag o) w2
  end.

(** [target.dispatchEvent(ev)]: the final stop flag and the world. *)
Definition dispatch (target : Node) (ev : Dom.Event) (e : E) (w : World)
    : bool * World :=
  invoke (invocationOrder (listeners w) ev target) e false w.

End Dispatch.

(* ------------------------------------------------------------------ *)
(** ** [registerContextProvider]'s listener ([context-providers.ts]) *)

Definition doubleQuote : string := String (Ascii.ascii_of_nat 34) EmptyString.

(** The [catch] block:
    [console.error(`Context provider error for "${String(context)}":`, error)]. *)
Definition errorMessage (context : Context) : string :=
  "Context provider error for " ++ doubleQuote ++ String_of context ++
  doubleQuote ++ ":".

Definition consoleError (context : Context) (error : Js.Value) (w : World)
    : World :=
  log (ConsoleError (errorMessage context) error) w.

(** The end of the [try] block, once [value] is known:
    [if (value !== undefined) contextEvent.callback(value)], a throwing
    callback landing in the [catch] block like any other error. *)
Definition deliver (context : Context) (callback : ContextCallback)
    (value : Js.Value) (w : World) : World :=
  if Js.isUndefined value then w
  else
    let w := log (Callback (cb_id callback) value) w in
    match cb_throws callback value with
    | Some error => consoleError context error w
    | None => w
    end.

(** [contextListener] resumes after [await]: with the value, or in the
    [catch] block with the rejection. *)
Definition resume (k : Resumption) (s : Js.Settlement) (w : World) : World :=
  match s with
  | Js.Fulfilled value => deliver (res_context k) (res_callback k) value w
  | Js.Rejected error => consoleError (res_context k) error w
  end.

(** The event loop runs the queued microtasks, oldest first. *)
Definition runMicrotasks (w : World) : World :=
  fold_left (fun w t => resume (snd t) (fst t) w) (microtasks w)
    (withMicrotasks [] w).

(** [contextListener], the closure over [context], [handlerOrValue] (with
    [isHandler]) and [stopPropagation], called with the event and its stop
    flag. It is an [async] function and every statement that can throw is
    in its [try] block, so nothing escapes to the dispatcher. *)
Definition contextListener (context : Context)
    (handlerOrValue : HandlerOrValue) (stopPropagation : bool)
    (contextEvent : ContextRequestEvent.t) (stopped : bool) (w : World)
    : Outcome :=
  if negb (strictEquals (ContextRequestEvent.context contextEvent) context)
  then {| stopFlag := stopped; world := w; escaped := None |}
  else
    (* contextEvent.stopImmediatePropagation() *)
    let stopped := if stopPropagation then true else stopped in
    (* isHandler ? await handlerOrValue(contextEvent) : handlerOrValue *)
    match handlerOrValue with
    | Handler handler =>
        match handler contextEvent with
        | Js.Normal awaited =>
            {| stopFlag := stopped;
               world := await awaited
                          {| res_context := context;
                             res_callback :=
                               ContextRequestEvent.callback contextEvent |} w;
               escaped := None |}
        | Js.Throw error =>
            {| stopFlag := stopped; world := consoleError context error w;
               escaped := None |}
        end
    | Static value =>
        {| stopFlag := stopped;
           world := deliver context
                      (ContextRequestEvent.callback contextEvent) value w;
           escaped := None |}
    end.

(* ------------------------------------------------------------------ *)
(** ** The resolution buffer, request side *)

(** Modelled from the spec: the resolution buffer ([ContextRoot]) is not
    among the sources. "On a request signal received at an attached root
    ... it stores a RequestRecord for later replay, without calling deliver
    yet, and without stopping propagation further." A signal the buffer is
    itself re-dispatching is not stored again: the replay decides what
    becomes of its record. *)
Definition onContextRequest (event : ContextRequestEvent.t) (stopped : bool)
    (w : World) : Outcome :=
  {| stopFlag := stopped;
     world :=
       if replaying w then w
       else withPending
              (pending w ++
               [{| rec_context := ContextRequestEvent.context event;
                   rec_originNode := ContextRequestEvent.contextTarget event;
                   rec_deliver := ContextRequestEvent.callback event;
                   rec_subscribe :=
                     match ContextRequestEvent.subscribe event with
                     | Some b => b
                     | None => false
                     end |}]) w;
     escaped := None |}.

(** Calling a listener with a request event. The buffer's announcement
    handler is only ever added for announcements (see [attach]); called with
    a request it is taken to do nothing. *)
Definition callWithRequest (l : Listener) (event : ContextRequestEvent.t)
    (stopped : bool) (w : World) : Outcome :=
  match l with
  | ContextListener _ context handlerOrValue stopPropagation =>
      contextListener context handlerOrValue stopPropagation event stopped w
  | OnContextRequest => onContextRequest event stopped w
  | OnContextProvider => {| stopFlag := stopped; world := w; escaped := None |}
  end.

(** [target.dispatchEvent(event)] for a request event: whether it was
    stopped, and the world. *)
Definition dispatchRequest (target : Node) (event : ContextRequestEvent.t)
    (w : World) : bool * World :=
  dispatch callWithRequest target (ContextRequestEvent.event event) event
    (log (DispatchEvent target (RequestEvent event)) w).

(* ------------------------------------------------------------------ *)
(** ** The resolution buffer, announcement side *)

(** Modelled from the spec: replay of the pending records for context [c]
    at the announcing node, in arrival order. "Re-dispatch a fresh request
    signal (new signal instance, same context/originNode/deliver/subscribe)
    directly at the announcing node"; "if the re-dispatched signal is
    satisfied by the provider (i.e. it is stopped from propagating further
    by that provider), remove the record if subscribe is false; keep it if
    subscribe is true"; otherwise "the record remains buffered". The result
    is the records kept and the world. *)
Fixpoint replay (announcing : Node) (c : Context) (records : list RequestRecord)
    (w : World) : list RequestRecord * World :=
  match records with
  | [] => ([], w)
  | r :: rest =>
      if strictEquals (rec_context r) c then
        let (satisfied, w1) :=
          dispatchRequest announcing
            (ContextRequestEvent.new (rec_context r) (rec_originNode r)
               (rec_deliver r) (Some (rec_subscribe r))) w in
        let (kept, w2) := replay announcing c rest w1 in
        (if satisfied && negb (rec_subscribe r) then kept else r :: kept, w2)
      else
        let (kept, w2) := replay announcing c rest w in
        (r :: kept, w2)
  end.

(** Modelled from the spec: the buffer's handler for an announcement
    signal; the matching records are those pending when it starts. *)
Definition onContextProvider (event : ContextProviderEvent.t) (stopped : bool)
    (w : World) : Outcome :=
  let (kept, w1) :=
    replay (ContextProviderEvent.contextTarget event)
      (ContextProviderEvent.context event) (pending w)
      (withReplaying true w) in
  {| stopFlag := stopped;
     world := withReplaying (replaying w) (withPending kept w1);
     escaped := None |}.

(** Calling a listener with an announcement. A provider's [contextListener]
    and the buffer's request handler are only ever added for requests;
    called with an announcement they are taken to do nothing. *)
Definition callWithProvider (l : Listener) (event : ContextProviderEvent.t)
    (stopped : bool) (w : World) : Outcome :=
  match l with
  | OnContextProvider => onContextProvider event stopped w
  | _ => {| stopFlag := stopped; world := w; escaped := None |}
  end.

Definition dispatchProvider (target : Node) (event : ContextProviderEvent.t)
    (w : World) : bool * World :=
  dispatch callWithProvider target (ContextProviderEvent.event event) event
    (log (DispatchEvent target (ProviderEvent event)) w).

(** [target.dispatchEvent(ev)]. *)
Definition dispatchEvent (target : Node) (ev : SomeEvent) (w : World) : World :=
  match ev with
  | RequestEvent e => snd (dispatchRequest target e w)
  | ProviderEvent e => snd (dispatchProvider target e w)
  end.

(* ------------------------------------------------------------------ *)
(** ** [registerContextProvider] and its companions
       ([context-providers.ts]) *)

(** [ProviderOptions extends AddEventListenerOptions]: [target] and
    [stopPropagation] are optional, the rest is handed to
    [addEventListener] as it is. *)
Record ProviderOptions : Type := {
  target : option Node;
  stopPropagation : option bool;
  addEventListenerOptions : AddEventListenerOptions
}.

(** [options = {}]. *)
Definition defaultOptions : ProviderOptions :=
  {| target := None; stopPropagation := None;
     addEventListenerOptions := noOptions |}.

(** The function [registerContextProvider] returns:
    [() => listenerTarget.removeEventListener('context-request', contextListener)],
    as the two variables it closes over. *)
Record Cleanup : Type := {
  listenerTarget : Node;
  listener : Listener
}.

Definition runCleanup (c : Cleanup) (w : World) : World :=
  removeEventListener (listenerTarget c) "context-request" (listener c) false w.

(** [registerContextProvider(context, handlerOrValue, options)].
    [target.getRootNode() || document?.body] is [target.getRootNode()]: a
    node is never falsy. *)
Definition registerContextProvider (context : Context)
    (handlerOrValue : HandlerOrValue) (options : ProviderOptions) (w : World)
    : Cleanup * World :=
  let target :=
    match target options with Some t => t | None => document_body end in
  let stopPropagation :=
    match stopPropagation options with Some b => b | None => true end in
  let contextListener :=
    ContextListener (closures w) context handlerOrValue stopPropagation in
  let w := withClosures (S (closures w)) w in
  let listenerTarget := getRootNode target in
  let w :=
    addEventListener listenerTarget "context-request" contextListener
      (addEventListenerOptions options) w in
  let w :=
    dispatchEvent target
      (ProviderEvent (ContextProviderEvent.new context target)) w in
  ({| listenerTarget := listenerTarget; listener := contextListener |}, w).

(** The [providers] argument of [registerContextProviders]: a [Map] with
    context keys, as the entries its iteration yields, or a record with
    string keys, as the entries [Object.entries] yields; the loop walks
    them in that order. *)
Inductive Providers : Type :=
| OfMap (entries : list (Context * HandlerOrValue))
| OfRecord (entries : list (string * HandlerOrValue)).

Definition entriesOf (providers : Providers) : list (Context * HandlerOrValue) :=
  match providers with
  | OfMap entries => entries
  | OfRecord entries => map (fun e => (CtxString (fst e), snd e)) entries
  end.

(** [registerContextProviders(providers, options)]: the cleanups, in the
    order the providers were registered. *)
Definition registerContextProviders (providers : Providers)
    (options : ProviderOptions) (w : World) : list Cleanup * World :=
  fold_left
    (fun acc e =>
       let (cleanup, w) :=
         registerContextProvider (fst e) (snd e) options (snd acc) in
       (fst acc ++ [cleanup], w))
    (entriesOf providers) ([], w).

(** [() => cleanups.forEach((cleanup) => cleanup())]. *)
Definition runCleanups (cleanups : list Cleanup) (w : World) : World :=
  fold_left (fun w c => runCleanup c w) cleanups w.

(** [createContextProvider(context)]: [{ context, provide }]. *)
Record ProviderFactory : Type := {
  factory_context : Context;
  provide : HandlerOrValue -> ProviderOptions -> World -> Cleanup * World
}.

Definition createContextProvider (context : Context) : ProviderFactory :=
  {| factory_context := context;
     provide := fun valueOrHandler options =>
                  registerContextProvider context valueOrHandler options |}.

(* ------------------------------------------------------------------ *)
(** ** The resolution buffer's public contract *)

(** Modelled from the spec: [attach(rootNode)] "subscribes to both signal
    kinds on rootNode"; attaching twice adds nothing, since the host keeps
    one entry per type, callback and capture flag. *)
Definition attach (rootNode : Node) (w : World) : World :=
  addEventListener rootNode "context-provider" OnContextProvider noOptions
    (addEventListener rootNode "context-request" OnContextRequest noOptions w).

(** Modelled from the spec: the buffer intercepts at [rootNode] when one
    of its two handlers is registered there. *)
Definition attached (rootNode : Node) (w : World) : bool :=
  existsb (sameRegistration rootNode "context-request" OnContextRequest false)
    (listeners w) ||
  existsb (sameRegistration rootNode "context-provider" OnContextProvider false)
    (listeners w).

(** Modelled from the spec: [detach(rootNode)] "stop intercepting, release
    all RequestRecords whose originNode lies under rootNode, remove both
    listeners. Must be safe to call even if attach was never called for that
    node (no-op, not an error)". *)
Definition detach (rootNode : Node) (w : World) : World :=
  if attached rootNode w then
    let w := removeEventListener rootNode "context-request" OnContextRequest
               false w in
    let w := removeEventListener rootNode "context-provider" OnContextProvider
               false w in
    withPending
      (filter (fun r => negb (existsb (Node_eqb rootNode)
                                (eventPath true (rec_originNode r))))
         (pending w)) w
  else w.

(* ------------------------------------------------------------------ *)
(** ** The entry points ([mod.ts], [browser.ts]) *)

Module Entry.

(** What the guards read of [globalThis]. *)
Record GlobalThis : Type := {
  hasHTMLElement : bool;    (* typeof globalThis.HTMLElement !== 'undefined' *)
  hasEvent : bool           (* typeof globalThis.Event !== 'undefined' *)
}.

Inductive Loading : Type :=
| Loaded
| Failed (message : string).

Record Evaluation : Type := {
  warnings : list string;   (* console.warn *)
  result : Loading
}.

Definition newline : string := String (Ascii.ascii_of_nat 10) EmptyString.

Definition requiresEvent : string :=
  "wccg-context requires Event API (browser/DOM environment)".

(** The statements of an entry point, in order: a warning when
    [HTMLElement] is missing, an error when [Event] is. *)
Definition guard (warning : string) (g : GlobalThis) : Evaluation :=
  {| warnings := if hasHTMLElement g then [] else [warning];
     result := if hasEvent g then Loaded else Failed requiresEvent |}.

(** An entry point as the host evaluates it: the module it re-exports
    ([export * from './src/index.ts'], which is not among the sources and is
    taken as the parameter [index]) first, then its own statements. *)
Definition entry (warning : string) (index : GlobalThis -> Loading)
    (g : GlobalThis) : Evaluation :=
  match index g with
  | Failed message => {| warnings := []; result := Failed message |}
  | Loaded => guard warning g
  end.

(** [mod.ts]. *)
Definition mod_ts : (GlobalThis -> Loading) -> GlobalThis -> Evaluation :=
  entry
    ("⚠️  wccg-context: This package requires DOM APIs (HTMLElement, Event, etc.)"
     ++ newline ++ "   For Deno server environments, consider:"
     ++ newline ++ "   • deno run --location=http://localhost:8000 your-script.ts"
     ++ newline ++ "   • Use deno-dom polyfill for server-side rendering"
     ++ newline ++ "   • This package is designed for browser/DOM environments").

(** The other entry point ([browser.ts], which [deno.json] exports). *)
Definition browser_ts : (GlobalThis -> Loading) -> GlobalThis -> Evaluation :=
  entry
    ("⚠️  wccg-context: This package requires DOM APIs (HTMLElement, Event, etc.)"
     ++ newline ++ "   • This package is designed for browser/DOM environments").

(** What evaluating the two event modules needs of the host:
    [class ... extends Event] is a ReferenceError without [Event]. *)
Definition eventClasses (g : GlobalThis) : Loading :=
  if hasEvent g then Loaded
  else Failed "ReferenceError: Event is not defined".

End Entry.

(* ------------------------------------------------------------------ *)
(** ** Executions *)

(** What the page's scripts and the environment do, one task at a time. *)
Inductive Action : Type :=
| Request (node : Node) (context : Context) (callback : ContextCallback)
    (subscribe : option bool)
    (* node.dispatchEvent(new ContextRequestEvent(context, node, callback, subscribe)) *)
| Announce (node : Node) (context : Context)
    (* node.dispatchEvent(new ContextProviderEvent(context, node)) *)
| Register (context : Context) (handlerOrValue : HandlerOrValue)
    (options : ProviderOptions)
| Unregister (cleanup : Cleanup)
| Attach (rootNode : Node)
| Detach (rootNode : Node)
| Abort (signal : nat)
| Settle (p : nat) (s : Js.Settlement)
| Microtasks.

Definition step (a : Action) (w : World) : World :=
  match a with
  | Request node context callback subscribe =>
      dispatchEvent node
        (RequestEvent (ContextRequestEvent.new context node callback subscribe))
        w
  | Announce node context =>
      dispatchEvent node
        (ProviderEvent (ContextProviderEvent.new context node)) w
  | Register context handlerOrValue options =>
      snd (registerContextProvider context handlerOrValue options w)
  | Unregister cleanup => runCleanup cleanup w
  | Attach rootNode => attach rootNode w
  | Detach rootNode => detach rootNode w
  | Abort signal => abortSignal signal w
  | Settle p s => settlePromise p s w
  | Microtasks => runMicrotasks w
  end.

Definition run (actions : list Action) (w : World) : World :=
  fold_left (fun w a => step a w) actions w.

(** The calls of the consumer callback [callback] recorded in a trace, as
    the values it was called with. *)
Definition deliveries (callback : ContextCallback) (t : list HostCall)
    : list Js.Value :=
  flat_map (fun c => match c with
                     | Callback id v =>
                         if Nat.eqb id (cb_id callback) then [v] else []
                     | _ => []
                     end) t.

(** The announcements dispatched in a trace: target and event. *)
Definition announcements (t : list HostCall)
    : list (Node * ContextProviderEvent.t) :=
  flat_map (fun c => match c with
                     | DispatchEvent n (ProviderEvent e) => [(n, e)]
                     | _ => []
                     end) t.

(* ------------------------------------------------------------------ *)
(** ** Vocabulary of the statements *)

(** What a resumed [contextListener] adds to the trace, given how the
    awaited value settled. *)
Definition effects (k : Resumption) (s : Js.Settlement) : list HostCall :=
  trace (resume k s initialWorld).

(** The environment settles what a handler returned: a promise settles as
    [s]; a plain value needs no settling. *)
Definition settleAs (a : Js.Awaitable) (s : Js.Settlement) (w : World) : World :=
  match a with
  | Js.Plain _ => w
  | Js.Promise p => settlePromise p s w
  end.

(** [a] can still come out as [s] in [w]: a plain value is its own
    fulfilment; a promise is pending, or settled as [s] already. *)
Definition settlesAs (a : Js.Awaitable) (s : Js.Settlement) (w : World) : Prop :=
  match a with
  | Js.Plain v => s = Js.Fulfilled v
  | Js.Promise p =>
      lookupSettled p w = None \/ lookupSettled p w = Some s
  end.

(** [grows P w w']: from [w] to [w'] the trace, the microtask queue and the
    list of suspended listeners were only appended to, the trace with calls
    satisfying [P]; promises, closures and signals are as they were. *)
Definition grows (P : HostCall -> Prop) (w w' : World) : Prop :=
  (exists s, trace w' = trace w ++ s /\ Forall P s) /\
  (exists m, microtasks w' = microtasks w ++ m) /\
  (exists a, awaiting w' = awaiting w ++ a) /\
  settled w' = settled w /\ closures w' = closures w /\
  aborted w' = aborted w.

Definition anyCall (c : HostCall) : Prop := True.

Definition notAnnouncement (c : HostCall) : Prop := announcements [c] = [].

(** The identity of a registration. *)
Definition sameAs (r x : Registration) : bool :=
  sameRegistration (reg_target r) (reg_type r) (reg_callback r)
    (reg_capture r) x.

(** No two entries of a listener list have the same identity. *)
Fixpoint distinct (ls : list Registration) : Prop :=
  match ls with
  | [] => True
  | r :: rest => Forall (fun x => sameAs r x = false) rest /\ distinct rest
  end.

Definition closureOf (l : Listener) : option nat :=
  match l with
  | ContextListener i _ _ _ => Some i
  | _ => None
  end.

(** A world as the host keeps it: one entry per identity, and every closure
    that listens was made before the next one. *)
Definition WellFormed (w : World) : Prop :=
  distinct (listeners w) /\
  Forall (fun r => match closureOf (reg_callback r) with
                   | Some i => i < closures w
                   | None => True
                   end) (listeners w).

(** A listener that lets a request for [c] pass untouched: a provider of
    another context, or one of the buffer's handlers. *)
Definition harmless (c : Context) (l : Listener) : Prop :=
  match l with
  | ContextListener _ c' _ _ => c' <> c
  | _ => True
  end.

(** No provider registered through [registerContextProvider] listens for
    context [c]. *)
Definition noProviderFor (c : Context) (ls : list Registration) : Prop :=
  Forall (fun r => harmless c (reg_callback r)) ls.

(** The registration [registerContextProvider] asks the host for. *)
Definition providerRegistration (closure : nat) (context : Context)
    (handlerOrValue : HandlerOrValue) (options : ProviderOptions)
    : Registration :=
  {| reg_target :=
       getRootNode (match target options with
                    | Some t => t
                    | None => document_body
                    end);
     reg_type := "context-request";
     reg_callback :=
       ContextListener closure context handlerOrValue
         (match stopPropagation options with Some b => b | None => true end);
     reg_capture := capture (addEventListenerOptions options);
     reg_once := once (addEventListenerOptions options);
     reg_signal := signal (addEventListenerOptions options) |}.

(** [rL] is the only listener for context [c] among [ls]: every other entry
    is a provider of another context or one of the buffer's handlers. *)
Definition sole (c : Context) (rL : Registration) (ls : list Registration)
    : Prop :=
  In rL ls /\ distinct ls /\
  Forall (fun r => r = rL \/ harmless c (reg_callback r)) ls.

(** The buffer listens for announcements at [r], as [attach] leaves it. *)
Definition announcedAt (r : Node) (ls : list Registration) : Prop :=
  exists x, In x ls /\ reg_target x = r /\ reg_type x = "context-provider" /\
            reg_callback x = OnContextProvider /\ reg_once x = false /\
            reg_signal x = None.


(** What a provider's value comes to for [event]: fixed for a static value,
    the handler's returned value once it is fulfilled with [v]. *)
Definition resolvesTo (handlerOrValue : HandlerOrValue)
    (event : ContextRequestEvent.t) (v : Js.Value) (w : World) : Prop :=
  match handlerOrValue with
  | Static u => u = v
  | Handler h =>
      match h event with
      | Js.Normal a => settlesAs a (Js.Fulfilled v) w
      | Js.Throw _ => False
      end
  end.

(** The environment fulfils, with [v], what the handler returned for
    [event]. *)
Definition fulfil (handlerOrValue : HandlerOrValue)
    (event : ContextRequestEvent.t) (v : Js.Value) (w : World) : World :=
  match handlerOrValue with
  | Static _ => w
  | Handler h =>
      match h event with
      | Js.Normal a => settleAs a (Js.Fulfilled v) w
      | Js.Throw _ => w
      end
  end.

(** [shrinks ls ls']: [ls'] is [ls] without some of its [once] entries. *)
Definition shrinks (ls ls' : list Registration) : Prop :=
  exists f, ls' = filter f ls /\ forall x, reg_once x = false -> f x = true.

(** What is known of the listeners still to visit: one that is registered
    is an entry of the world's list. *)
Definition current (order : list Registration) (w : World) : Prop :=
  distinct (listeners w) /\
  forall r, In r order -> In r (listeners w) \/ isRegistered r w = false.

(** The listener suspended on [a] will resume with [k]. *)
Definition suspendedOn (a : Js.Awaitable) (k : Resumption) (w : World) : Prop :=
  match a with
  | Js.Plain v => In (Js.Fulfilled v, k) (microtasks w)
  | Js.Promise p =>
      match lookupSettled p w with
      | Some s => In (s, k) (microtasks w)
      | None => In (p, k) (awaiting w)
      end
  end.

(** What the provider [handlerOrValue] of context [c] has done for [ev]
    once its listener was called: a static value other than [undefined] was
    delivered; a handler's returned value is awaited, with the rest of the
    listener as continuation; a handler's exception was logged. *)
Definition answered (c : Context) (handlerOrValue : HandlerOrValue)
    (ev : ContextRequestEvent.t) (w : World) : Prop :=
  match handlerOrValue with
  | Static v =>
      v <> Js.Undefined ->
      In (Callback (cb_id (ContextRequestEvent.callback ev)) v) (trace w)
  | Handler h =>
      match h ev with
      | Js.Normal a =>
          suspendedOn a {| res_context := c;
                           res_callback := ContextRequestEvent.callback ev |} w
      | Js.Throw e => In (ConsoleError (errorMessage c) e) (trace w)
      end
  end.

(** The request signal the buffer re-dispatches for a record. *)
Definition fresh (r : RequestRecord) : ContextRequestEvent.t :=
  ContextRequestEvent.new (rec_context r) (rec_originNode r) (rec_deliver r)
    (Some (rec_subscribe r)).





(** The queues of [w] are those of [w0]: nothing was suspended or queued
    in between. *)
Definition quiet (w0 w : World) : Prop :=
  microtasks w = microtasks w0 /\ awaiting w = awaiting w0.

(** The callback was not called between [w0] and [w]. *)
Definition undelivered (cb : ContextCallback) (w0 w : World) : Prop :=
  deliveries cb (trace w) = deliveries cb (trace w0).

(* ------------------------------------------------------------------ *)
(** ** A page to try things on *)

Definition theme : Context := CtxString "theme".

(** An element of the page's body. *)
Definition consumer : Node := Child document_body 0.

(** A consumer's callback that does not throw. *)
Definition onTheme : ContextCallback :=
  {| cb_id := 1; cb_throws := fun _ => None |}.

Definition dark : Js.Value := Js.Text "dark".

(* ------------------------------------------------------------------ *)
(** ** Vocabulary for the cleanups and the bulk registration *)

(** From [w] to [w'] nothing was called, queued, suspended or settled: at
    most the listener list and the buffer changed. *)
Definition undisturbed (w w' : World) : Prop :=
  trace w' = trace w /\ microtasks w' = microtasks w /\
  awaiting w' = awaiting w /\ settled w' = settled w.

(** No entry of [ls] is the [contextListener] closure [closure]. *)
Definition unheard (closure : nat) (ls : list Registration) : Prop :=
  Forall (fun r => closureOf (reg_callback r) <> Some closure) ls.

(** How far a node is from the top of its event path. *)
Fixpoint depth (n : Node) : nat :=
  match n with
  | Child p _ => S (depth p)
  | ShadowRoot h => S (depth h)
  | _ => 0
  end.

(** What calling the callback with a value other than [undefined] adds to
    the trace: the call and, when the callback throws, the log entry of the
    [catch] block. *)
Definition delivery (context : Context) (callback : ContextCallback)
    (value : Js.Value) : list HostCall :=
  Callback (cb_id callback) value ::
  match cb_throws callback value with
  | Some error => [ConsoleError (errorMessage context) error]
  | None => []
  end.

(* ------------------------------------------------------------------ *)
(** ** Vocabulary for what a dispatch adds *)





(** From [w] to [w'] the trace, the microtask queue and the list of
    suspended listeners were only appended to, and no promise settled. *)
Definition extends (w w' : World) : Prop :=
  (exists s, trace w' = trace w ++ s) /\
  (exists m, microtasks w' = microtasks w ++ m) /\
  (exists a, awaiting w' = awaiting w ++ a) /\
  settled w' = settled w.




(** The request was answered once, by the provider alone: for a static
    value [v] the callback has one call more in [w'] than in [w], with [v];
    for a handler, fulfilling what it returned with [v] and running the
    microtasks gives one call more, with [v], from [w'] than from [w]. *)
Definition answersOnce (handlerOrValue : HandlerOrValue)
    (ev : ContextRequestEvent.t) (v : Js.Value) (w w' : World) : Prop :=
  match handlerOrValue with
  | Static u =>
      u = v ->
      deliveries (ContextRequestEvent.callback ev) (trace w') =
      deliveries (ContextRequestEvent.callback ev) (trace w) ++ [v]
  | Handler h =>
      forall a,
        h ev = Js.Normal a -> settlesAs a (Js.Fulfilled v) w ->
        deliveries (ContextRequestEvent.callback ev)
          (trace (runMicrotasks (settleAs a (Js.Fulfilled v) w'))) =
        deliveries (ContextRequestEvent.callback ev)
          (trace (runMicrotasks (settleAs a (Js.Fulfilled v) w))) ++ [v]
  end.

Unset Implicit Arguments.

(* ------------------------------------------------------------------ *)

Lemma isUndefined_false (v : Js.Value) :
  Js.isUndefined v = false <-> v <> Js.Undefined.
Proof. destruct v; simpl; split; congruence. Qed.

Lemma Node_eqb_eq (a b : Node) : Node_eqb a b = true <-> a = b.
Proof. unfold Node_eqb; destruct (Node_eq_dec a b); split; congruence. Qed.

Lemma Node_eqb_refl (a : Node) : Node_eqb a a = true.
Proof. apply Node_eqb_eq; reflexivity. Qed.

Lemma Node_eqb_sym (a b : Node) : Node_eqb a b = Node_eqb b a.
Proof.
  unfold Node_eqb; destruct (Node_eq_dec a b), (Node_eq_dec b a); congruence.
Qed.

Lemma eventPath_target (c : bool) (n : Node) : In n (eventPath c n).
Proof. destruct n; simpl; auto. Qed.

(** The root of a node's tree is on the path of every event dispatched at
    the node, composed or not. *)
Lemma getRootNode_on_path (c : bool) (n : Node) :
  In (getRootNode n) (eventPath c n).
Proof. induction n as [ | k | p IH i | h IH]; simpl; auto. Qed.

Lemma eventPath_trans (c : bool) (a b n : Node) :
  In a (eventPath c b) -> In b (eventPath c n) -> In a (eventPath c n).
Proof.
  intros Ha; induction n as [ | k | p IH i | h IH]; simpl.
  - intros [<- | []]; exact Ha.
  - intros [<- | []]; exact Ha.
  - intros [<- | Hb]; [exact Ha | right; auto].
  - intros [<- | Hb]; [exact Ha | ].
    destruct c; [right; auto | destruct Hb].
Qed.

Lemma strictEquals_eq (a b : Context) : strictEquals a b = true <-> a = b.
Proof.
  destruct a as [s | i d], b as [t | j e]; simpl; split; intros H;
    try discriminate.
  - apply String.eqb_eq in H; congruence.
  - inversion H; apply String.eqb_refl.
  - apply andb_true_iff in H; destruct H as [H1 H2].
    apply Nat.eqb_eq in H1; apply String.eqb_eq in H2; congruence.
  - inversion H; subst; rewrite Nat.eqb_refl, String.eqb_refl; reflexivity.
Qed.

Lemma strictEquals_refl (a : Context) : strictEquals a a = true.
Proof. apply strictEquals_eq; reflexivity. Qed.

Lemma strictEquals_neq (a b : Context) : strictEquals a b = false <-> a <> b.
Proof.
  split; intros H.
  - intros E; apply strictEquals_eq in E; congruence.
  - destruct (strictEquals a b) eqn:E; [ | reflexivity].
    apply strictEquals_eq in E; contradiction.
Qed.

(* ------------------------------------------------------------------ *)
(** ** The trace only grows *)

Lemma withTrace_same (w : World) : withTrace (trace w) w = w.
Proof. destruct w; reflexivity. Qed.

Lemma resume_effects (k : Resumption) (s : Js.Settlement) (w : World) :
  resume k s w = withTrace (trace w ++ effects k s) w.
Proof.
  unfold effects; destruct s as [v | e]; simpl.
  - unfold deliver; destruct (Js.isUndefined v); simpl.
    + rewrite app_nil_r; symmetry; apply withTrace_same.
    + destruct (cb_throws (res_callback k) v); simpl.
      * unfold consoleError, log, withTrace; simpl.
        rewrite <- app_assoc; reflexivity.
      * reflexivity.
  - reflexivity.
Qed.

Lemma fold_resume (ms : list (Js.Settlement * Resumption)) (w : World) :
  fold_left (fun w t => resume (snd t) (fst t) w) ms w =
  withTrace (trace w ++ flat_map (fun t => effects (snd t) (fst t)) ms) w.
Proof.
  revert w; induction ms as [ | t ms IH]; intros w; simpl.
  - rewrite app_nil_r; symmetry; apply withTrace_same.
  - rewrite IH, resume_effects; unfold withTrace; simpl.
    rewrite <- app_assoc; reflexivity.
Qed.

(** Running the microtasks appends what each resumed listener does, in
    queue order, and empties the queue. *)
Lemma runMicrotasks_trace (w : World) :
  trace (runMicrotasks w) =
  trace w ++ flat_map (fun t => effects (snd t) (fst t)) (microtasks w).
Proof. unfold runMicrotasks; rewrite fold_resume; reflexivity. Qed.

Lemma grows_refl (P : HostCall -> Prop) (w : World) : grows P w w.
Proof.
  unfold grows; repeat split; try reflexivity.
  - exists []; rewrite app_nil_r; split; [reflexivity | constructor].
  - exists []; rewrite app_nil_r; reflexivity.
  - exists []; rewrite app_nil_r; reflexivity.
Qed.

Lemma grows_trans (P : HostCall -> Prop) (w1 w2 w3 : World) :
  grows P w1 w2 -> grows P w2 w3 -> grows P w1 w3.
Proof.
  intros [[s1 [T1 F1]] [[m1 M1] [[a1 A1] [S1 [C1 B1]]]]]
         [[s2 [T2 F2]] [[m2 M2] [[a2 A2] [S2 [C2 B2]]]]].
  unfold grows; repeat split; try congruence.
  - exists (s1 ++ s2); split.
    + rewrite T2, T1, app_assoc; reflexivity.
    + apply Forall_app; split; assumption.
  - exists (m1 ++ m2); rewrite M2, M1, app_assoc; reflexivity.
  - exists (a1 ++ a2); rewrite A2, A1, app_assoc; reflexivity.
Qed.

Lemma grows_log (P : HostCall -> Prop) (c : HostCall) (w : World) :
  P c -> grows P w (log c w).
Proof.
  intros Pc; unfold grows, log; simpl; repeat split; try reflexivity.
  - exists [c]; split; [reflexivity | constructor; [exact Pc | constructor]].
  - exists []; rewrite app_nil_r; reflexivity.
  - exists []; rewrite app_nil_r; reflexivity.
Qed.

Lemma grows_same (P : HostCall -> Prop) (w w' : World) :
  trace w' = trace w -> microtasks w' = microtasks w ->
  awaiting w' = awaiting w -> settled w' = settled w ->
  closures w' = closures w -> aborted w' = aborted w -> grows P w w'.
Proof.
  intros T M A S C B; unfold grows; repeat split; try assumption.
  - exists []; rewrite app_nil_r; split; [exact T | constructor].
  - exists []; rewrite app_nil_r; exact M.
  - exists []; rewrite app_nil_r; exact A.
Qed.

Lemma grows_consoleError (c : Context) (e : Js.Value) (w : World) :
  grows notAnnouncement w (consoleError c e w).
Proof. apply grows_log; reflexivity. Qed.

Lemma grows_deliver (c : Context) (cb : ContextCallback) (v : Js.Value)
    (w : World) :
  grows notAnnouncement w (deliver c cb v w).
Proof.
  unfold deliver; destruct (Js.isUndefined v); [apply grows_refl | ].
  destruct (cb_throws cb v).
  - eapply grows_trans; [ | apply grows_consoleError].
    apply grows_log; reflexivity.
  - apply grows_log; reflexivity.
Qed.

Lemma grows_await (P : HostCall -> Prop) (a : Js.Awaitable) (k : Resumption)
    (w : World) :
  grows P w (await a k w).
Proof.
  unfold await; destruct a as [v | p];
    [ | destruct (lookupSettled p w)];
    unfold grows; simpl; repeat split; try reflexivity;
    try (exists []; rewrite app_nil_r; split; [reflexivity | constructor]);
    try (exists []; rewrite app_nil_r; reflexivity);
    eexists; reflexivity.
Qed.

Lemma grows_unregister (P : HostCall -> Prop) (n : Node) (t : string)
    (l : Listener) (c : bool) (w : World) :
  grows P w (unregister n t l c w).
Proof. apply grows_same; reflexivity. Qed.

Lemma contextListener_escaped (c : Context) (hv : HandlerOrValue) (sp : bool)
    (ev : ContextRequestEvent.t) (st : bool) (w : World) :
  escaped (contextListener c hv sp ev st w) = None.
Proof.
  unfold contextListener.
  destruct (negb _); [reflexivity | ].
  destruct hv as [v | h]; [reflexivity | ].
  destruct (h ev); reflexivity.
Qed.

Lemma grows_contextListener (c : Context) (hv : HandlerOrValue) (sp : bool)
    (ev : ContextRequestEvent.t) (st : bool) (w : World) :
  grows notAnnouncement w (world (contextListener c hv sp ev st w)).
Proof.
  unfold contextListener.
  destruct (negb _); [apply grows_refl | ].
  destruct hv as [v | h]; simpl; [apply grows_deliver | ].
  destruct (h ev); simpl; [apply grows_await | apply grows_consoleError].
Qed.

Lemma callWithRequest_escaped (l : Listener) (ev : ContextRequestEvent.t)
    (st : bool) (w : World) :
  escaped (callWithRequest l ev st w) = None.
Proof. destruct l; simpl; auto using contextListener_escaped. Qed.

Lemma grows_callWithRequest (l : Listener) (ev : ContextRequestEvent.t)
    (st : bool) (w : World) :
  grows notAnnouncement w (world (callWithRequest l ev st w)).
Proof.
  destruct l; simpl.
  - apply grows_contextListener.
  - destruct (replaying w); [apply grows_refl | apply grows_same; reflexivity].
  - apply grows_refl.
Qed.

Section InvokeGrows.

Variable E : Type.
Variable call : Listener -> E -> bool -> World -> Outcome.
Variable P : HostCall -> Prop.
Hypothesis call_escaped : forall l e st w, escaped (call l e st w) = None.
Hypothesis call_grows : forall l e st w, grows P w (world (call l e st w)).

Lemma grows_invoke (order : list Registration) (e : E) (st : bool) (w : World) :
  grows P w (snd (invoke call order e st w)).
Proof.
  revert st w; induction order as [ | r rest IH]; intros st w; simpl.
  - apply grows_refl.
  - destruct st; [apply grows_refl | ].
    destruct (negb (isRegistered r w)); [apply IH | ].
    rewrite call_escaped.
    eapply grows_trans; [ | apply IH].
    eapply grows_trans; [ | apply call_grows].
    destruct (reg_once r); [apply grows_unregister | apply grows_refl].
Qed.

End InvokeGrows.

Lemma grows_dispatchRequest (n : Node) (ev : ContextRequestEvent.t) (w : World) :
  grows notAnnouncement w (snd (dispatchRequest n ev w)).
Proof.
  unfold dispatchRequest, dispatch.
  eapply grows_trans;
    [ | apply grows_invoke;
        [apply callWithRequest_escaped | apply grows_callWithRequest]].
  apply grows_log; reflexivity.
Qed.

Lemma grows_replay (n : Node) (c : Context) (rs : list RequestRecord)
    (w : World) :
  grows notAnnouncement w (snd (replay n c rs w)).
Proof.
  revert w; induction rs as [ | r rs IH]; intros w; simpl.
  - apply grows_refl.
  - destruct (strictEquals (rec_context r) c).
    + destruct (dispatchRequest n _ w) as [sat w1] eqn:D.
      specialize (IH w1).
      destruct (replay n c rs w1) as [kept w2]; simpl in *.
      eapply grows_trans; [ | exact IH].
      replace w1 with (snd (dispatchRequest n
        (ContextRequestEvent.new (rec_context r) (rec_originNode r)
           (rec_deliver r) (Some (rec_subscribe r))) w)) by (rewrite D; reflexivity).
      apply grows_dispatchRequest.
    + specialize (IH w).
      destruct (replay n c rs w) as [kept w2]; simpl in *; exact IH.
Qed.

Lemma grows_onContextProvider (ev : ContextProviderEvent.t) (st : bool)
    (w : World) :
  grows notAnnouncement w (world (onContextProvider ev st w)).
Proof.
  unfold onContextProvider.
  pose proof (grows_replay (ContextProviderEvent.contextTarget ev)
                (ContextProviderEvent.context ev) (pending w)
                (withReplaying true w)) as G.
  destruct (replay _ _ _ _) as [kept w1]; simpl in *.
  eapply grows_trans; [ | eapply grows_trans; [exact G | ]];
    apply grows_same; reflexivity.
Qed.

Lemma callWithProvider_escaped (l : Listener) (ev : ContextProviderEvent.t)
    (st : bool) (w : World) :
  escaped (callWithProvider l ev st w) = None.
Proof.
  destruct l; simpl; try reflexivity.
  unfold onContextProvider; destruct (replay _ _ _ _); reflexivity.
Qed.

Lemma grows_callWithProvider (l : Listener) (ev : ContextProviderEvent.t)
    (st : bool) (w : World) :
  grows notAnnouncement w (world (callWithProvider l ev st w)).
Proof.
  destruct l; simpl; try apply grows_refl; apply grows_onContextProvider.
Qed.

(* ------------------------------------------------------------------ *)
(** ** Awaiting and settling *)

Lemma lookupSettled_withMicrotasks (p : nat) x (w : World) :
  lookupSettled p (withMicrotasks x w) = lookupSettled p w.
Proof. reflexivity. Qed.

Lemma lookupSettled_withAwaiting (p : nat) x (w : World) :
  lookupSettled p (withAwaiting x w) = lookupSettled p w.
Proof. reflexivity. Qed.

(** A listener suspended on [a] resumes last: whatever the queue does
    without it, it does first, and then the listener's own effects follow. *)
Lemma await_then_settle (a : Js.Awaitable) (s : Js.Settlement)
    (k : Resumption) (w : World) :
  settlesAs a s w ->
  trace (runMicrotasks (settleAs a s (await a k w))) =
  trace (runMicrotasks (settleAs a s w)) ++ effects k s.
Proof.
  destruct a as [v | p]; simpl.
  - intros ->; rewrite !runMicrotasks_trace; simpl.
    rewrite flat_map_app; simpl; rewrite app_nil_r, app_assoc; reflexivity.
  - intros [N | S].
    + unfold await; rewrite N.
      unfold settlePromise; rewrite lookupSettled_withAwaiting, N; simpl.
      rewrite !runMicrotasks_trace; simpl.
      rewrite filter_app, map_app, app_assoc, flat_map_app; simpl.
      rewrite Nat.eqb_refl; simpl.
      rewrite app_nil_r, app_assoc; reflexivity.
    + unfold await; rewrite S.
      unfold settlePromise; rewrite lookupSettled_withMicrotasks, S; simpl.
      rewrite !runMicrotasks_trace; simpl.
      rewrite flat_map_app; simpl; rewrite app_nil_r, app_assoc; reflexivity.
Qed.

Lemma effects_undefined (k : Resumption) :
  effects k (Js.Fulfilled Js.Undefined) = [].
Proof. reflexivity. Qed.

Lemma effects_fulfilled (k : Resumption) (v : Js.Value) :
  v <> Js.Undefined ->
  exists rest,
    effects k (Js.Fulfilled v) = Callback (cb_id (res_callback k)) v :: rest.
Proof.
  intros Hv; apply isUndefined_false in Hv.
  unfold effects; simpl; unfold deliver; rewrite Hv.
  destruct (cb_throws (res_callback k) v); simpl; eexists; reflexivity.
Qed.

(* ------------------------------------------------------------------ *)
(** ** Listener lists *)

Lemma sameFunction_sym (a b : Listener) : sameFunction a b = sameFunction b a.
Proof. destruct a, b; simpl; auto using Nat.eqb_sym. Qed.

Lemma sameFunction_refl (a : Listener) : sameFunction a a = true.
Proof. destruct a; simpl; auto using Nat.eqb_refl. Qed.

Lemma sameAs_sym (r x : Registration) : sameAs r x = sameAs x r.
Proof.
  unfold sameAs, sameRegistration.
  rewrite (Node_eqb_sym (reg_target x)), (String.eqb_sym (reg_type x)),
    (sameFunction_sym (reg_callback x)).
  destruct (reg_capture x), (reg_capture r); reflexivity.
Qed.

Lemma sameAs_refl (r : Registration) : sameAs r r = true.
Proof.
  unfold sameAs, sameRegistration.
  rewrite Node_eqb_refl, String.eqb_refl, sameFunction_refl.
  destruct (reg_capture r); reflexivity.
Qed.

Lemma distinct_filter (f : Registration -> bool) (ls : list Registration) :
  distinct ls -> distinct (filter f ls).
Proof.
  induction ls as [ | r ls IH]; simpl; [auto | ].
  intros [F D]; destruct (f r); simpl; [split | ]; auto.
  apply Forall_forall; intros x Hx; apply filter_In in Hx.
  rewrite Forall_forall in F; apply F; tauto.
Qed.

Lemma distinct_In (ls : list Registration) (a b : Registration) :
  distinct ls -> In a ls -> In b ls -> a = b \/ sameAs a b = false.
Proof.
  induction ls as [ | r ls IH]; simpl; [tauto | ].
  intros [F D] [-> | Ha] [-> | Hb]; auto.
  - right; rewrite Forall_forall in F; auto.
  - right; rewrite sameAs_sym; rewrite Forall_forall in F; auto.
Qed.

Lemma isRegistered_In (r : Registration) (w : World) :
  In r (listeners w) -> isRegistered r w = true.
Proof.
  intros H; unfold isRegistered; apply existsb_exists.
  exists r; split; [exact H | apply sameAs_refl].
Qed.

Lemma sole_filter (c : Context) (rL : Registration) (f : Registration -> bool)
    (ls : list Registration) :
  f rL = true -> sole c rL ls -> sole c rL (filter f ls).
Proof.
  intros HL [I [D F]]; repeat split.
  - apply filter_In; auto.
  - apply distinct_filter; exact D.
  - apply Forall_forall; intros x Hx; apply filter_In in Hx.
    rewrite Forall_forall in F; apply F; tauto.
Qed.

(** Which listeners a dispatch visits. *)
Lemma in_invocationOrder (ls : list Registration) (ev : Dom.Event)
    (t : Node) (r : Registration) :
  In r (invocationOrder ls ev t) <->
  In r ls /\ reg_type r = type ev /\
  In (reg_target r)
     (if reg_capture r || bubbles ev then eventPath (composed ev) t else [t]).
Proof.
  unfold invocationOrder; rewrite in_app_iff, !in_flat_map.
  split.
  - intros [[n [Hn Hr]] | [n [Hn Hr]]];
      apply filter_In in Hr; destruct Hr as [Hr L];
      unfold listening in L;
      apply andb_true_iff in L; destruct L as [L C];
      apply andb_true_iff in L; destruct L as [N T];
      apply Node_eqb_eq in N; apply String.eqb_eq in T;
      apply Bool.eqb_prop in C; subst n; rewrite C; simpl;
      repeat split; auto.
    + apply in_rev; exact Hn.
  - intros [Hr [T Hn]].
    assert (L : forall b, reg_capture r = b ->
                listening (type ev) b (reg_target r) r = true).
    { intros b <-; unfold listening.
      rewrite Node_eqb_refl, T, String.eqb_refl.
      destruct (reg_capture r); reflexivity. }
    destruct (reg_capture r) eqn:C; simpl in Hn.
    + left; exists (reg_target r); split;
        [apply -> in_rev; exact Hn | apply filter_In; auto].
    + right; exists (reg_target r); split; [exact Hn | ].
      apply filter_In; auto.
Qed.

Lemma shrinks_refl (ls : list Registration) : shrinks ls ls.
Proof.
  exists (fun _ => true); split; [ | reflexivity].
  induction ls; simpl; congruence.
Qed.

Lemma filter_filter {A : Type} (f g : A -> bool) (l : list A) :
  filter g (filter f l) = filter (fun x => f x && g x) l.
Proof.
  induction l as [ | a l IH]; simpl; [reflexivity | ].
  destruct (f a); simpl; [destruct (g a) | ]; simpl; congruence.
Qed.

Lemma shrinks_trans (l1 l2 l3 : list Registration) :
  shrinks l1 l2 -> shrinks l2 l3 -> shrinks l1 l3.
Proof.
  intros [f [E1 K1]] [g [E2 K2]]; exists (fun x => f x && g x); split.
  - rewrite E2, E1; apply filter_filter.
  - intros x Hx; rewrite K1, K2; auto.
Qed.

Lemma shrinks_In (ls ls' : list Registration) (x : Registration) :
  shrinks ls ls' -> In x ls' -> In x ls.
Proof. intros [f [-> _]] H; apply filter_In in H; tauto. Qed.

Lemma shrinks_distinct (ls ls' : list Registration) :
  shrinks ls ls' -> distinct ls -> distinct ls'.
Proof. intros [f [-> _]]; apply distinct_filter. Qed.

Lemma shrinks_sole (c : Context) (rL : Registration)
    (ls ls' : list Registration) :
  shrinks ls ls' -> reg_once rL = false -> sole c rL ls -> sole c rL ls'.
Proof. intros [f [-> K]] O; apply sole_filter; auto. Qed.

Lemma isRegistered_filter (f : Registration -> bool) (r : Registration)
    (w : World) :
  distinct (listeners w) -> In r (listeners w) -> f r = false ->
  isRegistered r (withListeners (filter f (listeners w)) w) = false.
Proof.
  intros D I F; unfold isRegistered; simpl.
  destruct (existsb _ _) eqn:E; [ | reflexivity].
  apply existsb_exists in E; destruct E as [y [Hy S]].
  apply filter_In in Hy; destruct Hy as [Hy Fy].
  destruct (distinct_In _ _ _ D I Hy) as [-> | N];
    [ | unfold sameAs in N]; congruence.
Qed.

Lemma current_shrinks (order : list Registration) (w w' : World) :
  shrinks (listeners w) (listeners w') -> current order w -> current order w'.
Proof.
  intros S [D C]; split; [eapply shrinks_distinct; eauto | ].
  intros r Hr; destruct (C r Hr) as [I | N].
  - destruct S as [f [E K]].
    destruct (f r) eqn:F.
    + left; rewrite E; apply filter_In; auto.
    + right.
      pose proof (isRegistered_filter f r w D I F) as R.
      unfold isRegistered in *; simpl in R; rewrite E; exact R.
  - right; unfold isRegistered in *.
    destruct (existsb _ (listeners w')) eqn:E; [ | reflexivity].
    apply existsb_exists in E; destruct E as [y [Hy Sy]].
    rewrite <- N; symmetry; apply existsb_exists; exists y; split; auto.
    eapply shrinks_In; eauto.
Qed.

Lemma current_tail (r : Registration) (order : list Registration) (w : World) :
  current (r :: order) w -> current order w.
Proof. intros [D C]; split; [exact D | intros x Hx; apply C; right; exact Hx]. Qed.

Lemma current_dispatch (ls : list Registration) (ev : Dom.Event) (t : Node)
    (w : World) :
  distinct (listeners w) -> current (invocationOrder (listeners w) ev t) w.
Proof.
  intros D; split; [exact D | ].
  intros r Hr; left; apply in_invocationOrder in Hr; tauto.
Qed.

(** Removing a [once] listener that is an entry of the list removes that
    entry and nothing else. *)
Lemma unregister_shrinks (r : Registration) (w : World) :
  distinct (listeners w) -> In r (listeners w) -> reg_once r = true ->
  shrinks (listeners w)
    (listeners (unregister (reg_target r) (reg_type r) (reg_callback r)
                  (reg_capture r) w)).
Proof.
  intros D I O; simpl.
  exists (fun x => negb (sameAs r x) || negb (reg_once x)); split.
  - apply filter_ext_in; intros x Hx.
    fold (sameAs r x).
    destruct (distinct_In _ _ _ D I Hx) as [<- | N].
    + rewrite sameAs_refl, O; reflexivity.
    + rewrite N; reflexivity.
  - intros x Hx; rewrite Hx; destruct (sameAs r x); reflexivity.
Qed.

Lemma once_shrinks (r : Registration) (w : World) :
  distinct (listeners w) -> In r (listeners w) ->
  shrinks (listeners w)
    (listeners (if reg_once r
                then unregister (reg_target r) (reg_type r) (reg_callback r)
                       (reg_capture r) w
                else w)).
Proof.
  intros D I; destruct (reg_once r) eqn:O;
    [apply unregister_shrinks; auto | apply shrinks_refl].
Qed.

Section InvokeShrinks.

Variable E : Type.
Variable call : Listener -> E -> bool -> World -> Outcome.
Hypothesis call_shrinks : forall l e st w,
  distinct (listeners w) ->
  shrinks (listeners w) (listeners (world (call l e st w))).
Hypothesis call_escaped : forall l e st w, escaped (call l e st w) = None.

Lemma invoke_shrinks (order : list Registration) (e : E) (st : bool)
    (w : World) :
  current order w ->
  shrinks (listeners w) (listeners (snd (invoke call order e st w))).
Proof.
  revert st w; induction order as [ | r rest IH]; intros st w C; simpl.
  - apply shrinks_refl.
  - destruct st; [apply shrinks_refl | ].
    destruct (isRegistered r w) eqn:R; simpl.
    + destruct C as [D C0].
      destruct (C0 r (or_introl eq_refl)) as [I | N]; [ | congruence].
      rewrite call_escaped.
      pose proof (once_shrinks r w D I) as S1.
      set (w1 := if reg_once r then _ else w) in *.
      assert (D1 : distinct (listeners w1)) by (eapply shrinks_distinct; eauto).
      pose proof (call_shrinks (reg_callback r) e false w1 D1) as S2.
      eapply shrinks_trans; [eapply shrinks_trans; [exact S1 | exact S2] | ].
      apply IH.
      eapply current_shrinks; [eapply shrinks_trans; [exact S1 | exact S2] | ].
      split; [exact D | intros x Hx; apply C0; right; exact Hx].
    + apply IH; eapply current_tail; eauto.
Qed.

Lemma dispatch_shrinks (n : Node) (ev : Dom.Event) (e : E) (w : World) :
  distinct (listeners w) ->
  shrinks (listeners w) (listeners (snd (dispatch call n ev e w))).
Proof.
  intros D; unfold dispatch; apply invoke_shrinks.
  apply (current_dispatch (listeners w)); exact D.
Qed.

End InvokeShrinks.

Lemma callWithRequest_listeners (l : Listener) (ev : ContextRequestEvent.t)
    (st : bool) (w : World) :
  listeners (world (callWithRequest l ev st w)) = listeners w.
Proof.
  destruct l as [i c hv sp | | ]; simpl; try reflexivity.
  - unfold contextListener; destruct (negb _); [reflexivity | ].
    destruct hv as [v | h]; simpl.
    + unfold deliver; destruct (Js.isUndefined v); [reflexivity | ].
      destruct (cb_throws _ _); reflexivity.
    + destruct (h ev) as [[v | p] | e]; simpl; try reflexivity.
      destruct (lookupSettled p w); reflexivity.
  - destruct (replaying w); reflexivity.
Qed.

Lemma dispatchRequest_shrinks (n : Node) (ev : ContextRequestEvent.t)
    (w : World) :
  distinct (listeners w) ->
  shrinks (listeners w) (listeners (snd (dispatchRequest n ev w))).
Proof.
  intros D; unfold dispatchRequest.
  apply (dispatch_shrinks _ callWithRequest) with
    (w := log (DispatchEvent n (RequestEvent ev)) w).
  - intros l e st w0 _; rewrite callWithRequest_listeners; apply shrinks_refl.
  - apply callWithRequest_escaped.
  - exact D.
Qed.

Lemma replay_shrinks (n : Node) (c : Context) (rs : list RequestRecord)
    (w : World) :
  distinct (listeners w) ->
  shrinks (listeners w) (listeners (snd (replay n c rs w))).
Proof.
  revert w; induction rs as [ | r rs IH]; intros w D; simpl.
  - apply shrinks_refl.
  - destruct (strictEquals (rec_context r) c).
    + pose proof (dispatchRequest_shrinks n
        (ContextRequestEvent.new (rec_context r) (rec_originNode r)
           (rec_deliver r) (Some (rec_subscribe r))) w D) as S.
      destruct (dispatchRequest n _ w) as [sat w1]; simpl in S.
      assert (D1 : distinct (listeners w1)) by (eapply shrinks_distinct; eauto).
      specialize (IH w1 D1).
      destruct (replay n c rs w1) as [kept w2]; simpl in *.
      eapply shrinks_trans; eauto.
    + specialize (IH w D).
      destruct (replay n c rs w) as [kept w2]; simpl in *; exact IH.
Qed.

Lemma callWithProvider_shrinks (l : Listener) (ev : ContextProviderEvent.t)
    (st : bool) (w : World) :
  distinct (listeners w) ->
  shrinks (listeners w) (listeners (world (callWithProvider l ev st w))).
Proof.
  intros D; destruct l; simpl; try apply shrinks_refl.
  unfold onContextProvider.
  pose proof (replay_shrinks (ContextProviderEvent.contextTarget ev)
                (ContextProviderEvent.context ev) (pending w)
                (withReplaying true w) D) as S.
  destruct (replay _ _ _ _) as [kept w1]; simpl in *; exact S.
Qed.

Lemma dispatchProvider_shrinks (n : Node) (ev : ContextProviderEvent.t)
    (w : World) :
  distinct (listeners w) ->
  shrinks (listeners w) (listeners (snd (dispatchProvider n ev w))).
Proof.
  intros D; unfold dispatchProvider.
  apply (dispatch_shrinks _ callWithProvider) with
    (w := log (DispatchEvent n (ProviderEvent ev)) w).
  - intros l e st w0; apply callWithProvider_shrinks.
  - apply callWithProvider_escaped.
  - exact D.
Qed.

Lemma grows_In_trace (P : HostCall -> Prop) (w w' : World) (c : HostCall) :
  grows P w w' -> In c (trace w) -> In c (trace w').
Proof.
  intros [[s [T _]] _] H; rewrite T; apply in_or_app; left; exact H.
Qed.

Lemma grows_lookupSettled (P : HostCall -> Prop) (w w' : World) (p : nat) :
  grows P w w' -> lookupSettled p w' = lookupSettled p w.
Proof.
  intros [_ [_ [_ [S _]]]]; unfold lookupSettled; rewrite S; reflexivity.
Qed.

Lemma grows_suspendedOn (P : HostCall -> Prop) (w w' : World)
    (a : Js.Awaitable) (k : Resumption) :
  grows P w w' -> suspendedOn a k w -> suspendedOn a k w'.
Proof.
  intros G; pose proof G as [_ [[m M] [[x A] _]]].
  destruct a as [v | p]; simpl.
  - rewrite M; intros H; apply in_or_app; left; exact H.
  - rewrite (grows_lookupSettled _ _ _ p G).
    destruct (lookupSettled p w).
    + rewrite M; intros H; apply in_or_app; left; exact H.
    + rewrite A; intros H; apply in_or_app; left; exact H.
Qed.

Lemma grows_answered (P : HostCall -> Prop) (w w' : World) (c : Context)
    (hv : HandlerOrValue) (ev : ContextRequestEvent.t) :
  grows P w w' -> answered c hv ev w -> answered c hv ev w'.
Proof.
  intros G; unfold answered; destruct hv as [v | h].
  - intros H N; eapply grows_In_trace; eauto.
  - destruct (h ev); [eapply grows_suspendedOn | eapply grows_In_trace];
      exact G.
Qed.

Lemma suspendedOn_await (a : Js.Awaitable) (k : Resumption) (w : World) :
  suspendedOn a k (await a k w).
Proof.
  destruct a as [v | p]; simpl.
  - apply in_or_app; right; left; reflexivity.
  - destruct (lookupSettled p w) eqn:L; simpl;
      unfold lookupSettled in *; simpl; rewrite L;
      apply in_or_app; right; left; reflexivity.
Qed.

(** A matching request, seen by the provider's listener. *)
Lemma contextListener_answers (c : Context) (hv : HandlerOrValue) (sp : bool)
    (ev : ContextRequestEvent.t) (st : bool) (w : World) :
  ContextRequestEvent.context ev = c ->
  stopFlag (contextListener c hv sp ev st w) = (if sp then true else st) /\
  answered c hv ev (world (contextListener c hv sp ev st w)).
Proof.
  intros <-; unfold contextListener, answered.
  rewrite strictEquals_refl; simpl.
  destruct hv as [v | h]; simpl.
  - split; [reflexivity | intros N].
    apply isUndefined_false in N; unfold deliver; rewrite N.
    destruct (cb_throws _ _); simpl; repeat rewrite in_app_iff; simpl; auto.
  - destruct (h ev) as [a | e]; simpl; split; try reflexivity.
    + apply suspendedOn_await.
    + apply in_or_app; right; left; reflexivity.
Qed.

(** A request for [c], seen by a listener that is not for [c]. *)
Lemma harmless_call (c : Context) (l : Listener) (ev : ContextRequestEvent.t)
    (st : bool) (w : World) :
  harmless c l -> ContextRequestEvent.context ev = c ->
  stopFlag (callWithRequest l ev st w) = st /\
  trace (world (callWithRequest l ev st w)) = trace w /\
  microtasks (world (callWithRequest l ev st w)) = microtasks w /\
  awaiting (world (callWithRequest l ev st w)) = awaiting w /\
  replaying (world (callWithRequest l ev st w)) = replaying w.
Proof.
  intros H E; destruct l as [i c' hv sp | | ]; simpl in *.
  - unfold contextListener.
    assert (N : strictEquals (ContextRequestEvent.context ev) c' = false)
      by (apply strictEquals_neq; congruence).
    rewrite N; simpl; auto.
  - destruct (replaying w) eqn:R; simpl; repeat split; auto.
  - repeat split; auto.
Qed.

Section OneProvider.

Variable c : Context.
Variable rL : Registration.
Variable closure : nat.
Variable hv : HandlerOrValue.
Variable sp : bool.
Hypothesis rL_callback : reg_callback rL = ContextListener closure c hv sp.

Variable ev : ContextRequestEvent.t.
Hypothesis ev_context : ContextRequestEvent.context ev = c.

Definition others (r : Registration) : Prop :=
  r = rL \/ harmless c (reg_callback r).

Lemma invoke_unstopped (order : list Registration) (w : World) :
  sp = false -> Forall others order ->
  fst (invoke callWithRequest order ev false w) = false.
Proof.
  intros Hsp; revert w; induction order as [ | r rest IH]; intros w F; simpl.
  - reflexivity.
  - apply Forall_cons_iff in F; destruct F as [Hr Hrest].
    destruct (negb (isRegistered r w)); [apply IH; exact Hrest | ].
    rewrite callWithRequest_escaped.
    set (w1 := if reg_once r then _ else w).
    assert (S : stopFlag (callWithRequest (reg_callback r) ev false w1) = false).
    { destruct Hr as [-> | H].
      - rewrite rL_callback; simpl.
        rewrite (proj1 (@contextListener_answers c hv sp ev false w1 ev_context)).
        rewrite Hsp; reflexivity.
      - apply (@harmless_call c _ ev false w1 H ev_context). }
    rewrite S; apply IH; exact Hrest.
Qed.

(** In a dispatch that still has the provider's listener to visit, the
    listener is reached with the event not stopped, and answers. *)
Lemma invoke_answers (order : list Registration) (w : World) :
  Forall others order -> current order w -> In rL (listeners w) ->
  In rL order ->
  fst (invoke callWithRequest order ev false w) = sp /\
  answered c hv ev (snd (invoke callWithRequest order ev false w)).
Proof.
  revert w; induction order as [ | r rest IH]; intros w F C I O;
    [destruct O | ].
  apply Forall_cons_iff in F; destruct F as [Hr Hrest].
  simpl.
  destruct (isRegistered r w) eqn:R; simpl.
  - destruct C as [D C0].
    destruct (C0 r (or_introl eq_refl)) as [Ir | N]; [ | congruence].
    rewrite callWithRequest_escaped.
    set (w1 := if reg_once r then _ else w).
    destruct (distinct_In _ _ _ D Ir I) as [-> | S].
    + (* the provider's listener *)
      rewrite rL_callback; simpl.
      destruct (@contextListener_answers c hv sp ev false w1 ev_context) as [Fl A].
      rewrite Fl; split.
      * assert (Hsp : sp = true \/ sp = false) by (destruct sp; auto).
        destruct Hsp as [Hsp | Hsp]; rewrite Hsp.
        -- destruct rest; reflexivity.
        -- apply invoke_unstopped; auto.
      * eapply grows_answered; [ | exact A].
        apply grows_invoke with (P := notAnnouncement);
          [apply callWithRequest_escaped | apply grows_callWithRequest].
    + (* another listener *)
      assert (Ne : r <> rL)
        by (intros ->; rewrite sameAs_refl in S; discriminate).
      destruct Hr as [-> | H]; [congruence | ].
      destruct O as [-> | O]; [congruence | ].
      destruct (@harmless_call c _ ev false w1 H ev_context) as [Fl _].
      rewrite Fl.
      assert (S1 : shrinks (listeners w) (listeners w1))
        by (apply once_shrinks; assumption).
      assert (I1 : In rL (listeners w1)).
      { unfold w1; destruct (reg_once r); [ | exact I].
        simpl; apply filter_In; split; [exact I | ].
        fold (sameAs r rL); rewrite S; reflexivity. }
      apply IH; auto.
      * eapply current_shrinks;
          [ | split; [exact D | intros x Hx; apply C0; right; exact Hx]].
        rewrite callWithRequest_listeners; exact S1.
      * rewrite callWithRequest_listeners; exact I1.
  - assert (Ne : r <> rL).
    { intros ->; rewrite (isRegistered_In _ _ I) in R; discriminate. }
    destruct O as [-> | O]; [congruence | ].
    apply IH; auto; eapply current_tail; eauto.
Qed.

(** A request for [c] dispatched anywhere below the node the provider
    listens on, in a world where it is the only listener for [c], is
    answered: the stop flag comes out as the provider's [stopPropagation]. *)
Lemma dispatchRequest_answers (n : Node) (w : World) :
  sole c rL (listeners w) ->
  reg_type rL = "context-request" ->
  In (reg_target rL) (eventPath true n) ->
  ContextRequestEvent.event ev =
    {| type := "context-request"; bubbles := true; composed := true |} ->
  fst (dispatchRequest n ev w) = sp /\
  answered c hv ev (snd (dispatchRequest n ev w)).
Proof.
  intros S T U Ev; unfold dispatchRequest, dispatch.
  set (w0 := log (DispatchEvent n (RequestEvent ev)) w).
  assert (Hin : forall r, In r (invocationOrder (listeners w0)
                                  (ContextRequestEvent.event ev) n) ->
                In r (listeners w))
    by (intros r Hr; apply in_invocationOrder in Hr; tauto).
  destruct S as [I [D F]].
  apply invoke_answers.
  - apply Forall_forall; intros r Hr.
    rewrite Forall_forall in F; apply F; auto.
  - apply (current_dispatch (listeners w0)); exact D.
  - exact I.
  - apply in_invocationOrder; rewrite Ev; simpl.
    rewrite orb_true_r; auto.
Qed.

End OneProvider.

Lemma answered_same (c : Context) (hv : HandlerOrValue)
    (ev : ContextRequestEvent.t) (w w' : World) :
  trace w' = trace w -> microtasks w' = microtasks w ->
  awaiting w' = awaiting w -> settled w' = settled w ->
  closures w' = closures w -> aborted w' = aborted w ->
  answered c hv ev w -> answered c hv ev w'.
Proof.
  intros; eapply grows_answered; [ | eassumption].
  apply (grows_same anyCall); assumption.
Qed.


Section LateProvider.

Variable c : Context.
Variable rL : Registration.
Variable closure : nat.
Variable hv : HandlerOrValue.
Variable sp : bool.
Hypothesis rL_callback : reg_callback rL = ContextListener closure c hv sp.
Hypothesis rL_type : reg_type rL = "context-request".
Hypothesis rL_once : reg_once rL = false.

Variable announcing : Node.
Hypothesis rL_above : In (reg_target rL) (eventPath true announcing).

Variable rec : RequestRecord.
Hypothesis rec_matches : rec_context rec = c.

(** Replaying the pending records at the announcing node reaches the
    provider's listener for each matching record. *)
Lemma replay_answers (rs : list RequestRecord) (w : World) :
  sole c rL (listeners w) -> In rec rs ->
  answered c hv (fresh rec) (snd (replay announcing c rs w)).
Proof.
  revert w; induction rs as [ | r0 rs IH]; intros w S I; [destruct I | ].
  simpl.
  destruct I as [-> | I].
  - assert (E : strictEquals (rec_context rec) c = true)
      by (apply strictEquals_eq; exact rec_matches).
    rewrite E.
    destruct (@dispatchRequest_answers c rL closure hv sp rL_callback
                (fresh rec) rec_matches announcing w S rL_type rL_above
                eq_refl) as [_ A].
    fold (fresh rec).
    destruct (dispatchRequest announcing (fresh rec) w) as [sat w1].
    pose proof (grows_replay announcing c rs w1) as G.
    destruct (replay announcing c rs w1) as [kept w2]; simpl in *.
    eapply grows_answered; eauto.
  - destruct (strictEquals (rec_context r0) c).
    + pose proof (dispatchRequest_shrinks announcing (fresh r0) w
                    (proj1 (proj2 S))) as Sh.
      fold (fresh r0).
      destruct (dispatchRequest announcing (fresh r0) w) as [sat w1].
      simpl in Sh.
      specialize (IH w1 (shrinks_sole _ _ _ _ Sh rL_once S) I).
      destruct (replay announcing c rs w1) as [kept w2]; simpl in *.
      exact IH.
    + specialize (IH w S I).
      destruct (replay announcing c rs w) as [kept w2]; simpl in *.
      exact IH.
Qed.

Variable evp : ContextProviderEvent.t.
Hypothesis evp_context : ContextProviderEvent.context evp = c.
Hypothesis evp_target : ContextProviderEvent.contextTarget evp = announcing.

Lemma onContextProvider_answers (st : bool) (w : World) :
  sole c rL (listeners w) -> In rec (pending w) ->
  answered c hv (fresh rec) (world (onContextProvider evp st w)).
Proof.
  intros S I; unfold onContextProvider.
  rewrite evp_context, evp_target.
  pose proof (replay_answers (pending w) (withReplaying true w) S I) as A.
  destruct (replay announcing c (pending w) (withReplaying true w))
    as [kept w1]; simpl in *.
  eapply answered_same; [ .. | exact A]; reflexivity.
Qed.

Lemma callWithProvider_flag (l : Listener) (e : ContextProviderEvent.t)
    (st : bool) (w : World) :
  stopFlag (callWithProvider l e st w) = st.
Proof.
  destruct l; simpl; try reflexivity.
  unfold onContextProvider; destruct (replay _ _ _ _); reflexivity.
Qed.

(** An announcement that still has a registered buffer handler to visit
    gets the pending record replayed. *)
Lemma invoke_provider_answers (order : list Registration) (w : World) :
  current order w -> sole c rL (listeners w) -> In rec (pending w) ->
  (exists x, In x order /\ In x (listeners w) /\
             reg_callback x = OnContextProvider) ->
  answered c hv (fresh rec) (snd (invoke callWithProvider order evp false w)).
Proof.
  revert w; induction order as [ | r rest IH]; intros w C S I [x [Xo [Xl Xc]]];
    [destruct Xo | ].
  simpl.
  destruct (isRegistered r w) eqn:R; simpl.
  - destruct C as [D C0].
    destruct (C0 r (or_introl eq_refl)) as [Ir | N]; [ | congruence].
    rewrite callWithProvider_escaped, callWithProvider_flag.
    pose proof (once_shrinks r w D Ir) as S1.
    set (w1 := if reg_once r then _ else w) in *.
    assert (P1 : pending w1 = pending w)
      by (unfold w1; destruct (reg_once r); reflexivity).
    pose proof (shrinks_sole _ _ _ _ S1 rL_once S) as Sole1.
    destruct (reg_callback r) eqn:Cb.
    + (* a provider's listener, called with an announcement *)
      destruct Xo as [-> | Xo]; [congruence | ].
      simpl; apply IH; auto.
      * eapply current_shrinks; [exact S1 | ].
        split; [exact D | intros y Hy; apply C0; right; exact Hy].
      * rewrite P1; exact I.
      * exists x; repeat split; auto.
        unfold w1; destruct (reg_once r); [ | exact Xl].
        simpl; apply filter_In; split; [exact Xl | ].
        unfold sameRegistration; rewrite Xc; simpl.
        rewrite andb_false_r; reflexivity.
    + destruct Xo as [-> | Xo]; [congruence | ].
      simpl; apply IH; auto.
      * eapply current_shrinks; [exact S1 | ].
        split; [exact D | intros y Hy; apply C0; right; exact Hy].
      * rewrite P1; exact I.
      * exists x; repeat split; auto.
        unfold w1; destruct (reg_once r); [ | exact Xl].
        simpl; apply filter_In; split; [exact Xl | ].
        unfold sameRegistration; rewrite Xc; simpl.
        rewrite andb_false_r; reflexivity.
    + (* the buffer's handler *)
      simpl.
      eapply grows_answered;
        [apply grows_invoke with (P := notAnnouncement);
           [apply callWithProvider_escaped | apply grows_callWithProvider] | ].
      apply onContextProvider_answers; [exact Sole1 | rewrite P1; exact I].
  - assert (Ne : r <> x).
    { intros ->; rewrite (isRegistered_In _ _ Xl) in R; discriminate. }
    destruct Xo as [-> | Xo]; [congruence | ].
    apply IH; auto; [eapply current_tail; eauto | ].
    exists x; auto.
Qed.

Lemma dispatchProvider_answers (r t : Node) (w : World) :
  sole c rL (listeners w) -> In rec (pending w) ->
  announcedAt r (listeners w) -> In r (eventPath true t) ->
  ContextProviderEvent.event evp =
    {| type := "context-provider"; bubbles := true; composed := true |} ->
  answered c hv (fresh rec) (snd (dispatchProvider t evp w)).
Proof.
  intros S I [x [Xl [Xt [Xty [Xc _]]]]] U Ev.
  unfold dispatchProvider, dispatch.
  set (w0 := log (DispatchEvent t (ProviderEvent evp)) w).
  apply invoke_provider_answers; auto.
  - apply (current_dispatch (listeners w0)); exact (proj1 (proj2 S)).
  - exists x; repeat split; auto.
    apply in_invocationOrder; rewrite Ev, Xt; simpl.
    rewrite orb_true_r; auto.
Qed.

End LateProvider.

(* ------------------------------------------------------------------ *)
(** ** From an awaited value to the delivery *)

Lemma grows_runMicrotasks (w : World) (c : HostCall) :
  In c (trace w) -> In c (trace (runMicrotasks w)).
Proof.
  intros H; rewrite runMicrotasks_trace; apply in_or_app; left; exact H.
Qed.

Lemma queued_delivers (k : Resumption) (v : Js.Value) (w : World) :
  v <> Js.Undefined -> In (Js.Fulfilled v, k) (microtasks w) ->
  In (Callback (cb_id (res_callback k)) v) (trace (runMicrotasks w)).
Proof.
  intros N H; rewrite runMicrotasks_trace; apply in_or_app; right.
  apply in_flat_map; exists (Js.Fulfilled v, k); split; [exact H | ].
  destruct (effects_fulfilled k v N) as [rest E]; simpl; rewrite E; left.
  reflexivity.
Qed.

(** Once the awaited value is fulfilled with [v] and the microtasks have
    run, the suspended listener has called the callback with [v]. *)
Lemma suspended_delivers (a : Js.Awaitable) (k : Resumption) (v : Js.Value)
    (w : World) :
  v <> Js.Undefined -> suspendedOn a k w -> settlesAs a (Js.Fulfilled v) w ->
  In (Callback (cb_id (res_callback k)) v)
     (trace (runMicrotasks (settleAs a (Js.Fulfilled v) w))).
Proof.
  intros N; destruct a as [u | p]; simpl.
  - intros H E; inversion E; subst u; apply queued_delivers; assumption.
  - intros H [L | L]; rewrite L in H; unfold settlePromise; rewrite L.
    + apply queued_delivers; [exact N | ]; simpl.
      apply in_or_app; right.
      apply in_map_iff; exists (p, k); split; [reflexivity | ].
      apply filter_In; split; [exact H | apply Nat.eqb_refl].
    + apply queued_delivers; assumption.
Qed.

Lemma answered_delivers (c : Context) (hv : HandlerOrValue)
    (ev : ContextRequestEvent.t) (v : Js.Value) (w : World) :
  v <> Js.Undefined -> answered c hv ev w -> resolvesTo hv ev v w ->
  In (Callback (cb_id (ContextRequestEvent.callback ev)) v)
     (trace (runMicrotasks (fulfil hv ev v w))).
Proof.
  intros N; unfold answered, resolvesTo, fulfil; destruct hv as [u | h].
  - intros A <-; apply grows_runMicrotasks; auto.
  - destruct (h ev) as [a | e]; [ | intros _ []].
    intros S R.
    apply (suspended_delivers a
             {| res_context := c;
                res_callback := ContextRequestEvent.callback ev |} v w);
      assumption.
Qed.

(* ------------------------------------------------------------------ *)
(** ** Registering a provider *)

Lemma distinct_snoc (ls : list Registration) (r : Registration) :
  distinct ls -> Forall (fun x => sameAs x r = false) ls ->
  distinct (ls ++ [r]).
Proof.
  induction ls as [ | a ls IH]; simpl; intros D F.
  - split; [constructor | exact I].
  - destruct D as [Fa D]; apply Forall_cons_iff in F; destruct F as [Ar F].
    split; [ | apply IH; assumption].
    apply Forall_app; split; [exact Fa | constructor; [exact Ar | constructor]].
Qed.

Lemma fresh_closure (w : World) (x : Registration) (n : Node) (t : string)
    (c : Context) (hv : HandlerOrValue) (sp cap : bool) :
  WellFormed w -> In x (listeners w) ->
  sameRegistration n t (ContextListener (closures w) c hv sp) cap x = false.
Proof.
  intros [_ F] I; rewrite Forall_forall in F; specialize (F x I).
  unfold sameRegistration.
  destruct (reg_callback x) as [i c' hv' sp' | | ]; simpl in *;
    try (rewrite andb_false_r; reflexivity).
  assert (E : Nat.eqb i (closures w) = false) by (apply Nat.eqb_neq; lia).
  rewrite E, andb_false_r; reflexivity.
Qed.

(** With no aborted signal, registering adds the provider's listener at
    the end of the list, where it is the only one for its context if there
    was none before. *)
Lemma register_listeners (c : Context) (hv : HandlerOrValue)
    (options : ProviderOptions) (w : World) :
  WellFormed w ->
  isAborted (signal (addEventListenerOptions options)) w = false ->
  let t := match target options with Some t => t | None => document_body end in
  let sp := match stopPropagation options with Some b => b | None => true end in
  let rL := providerRegistration (closures w) c hv options in
  let w1 := addEventListener (getRootNode t) "context-request"
              (ContextListener (closures w) c hv sp)
              (addEventListenerOptions options)
              (withClosures (S (closures w)) w) in
  listeners w1 = listeners w ++ [rL] /\
  distinct (listeners w1) /\
  (noProviderFor c (listeners w) -> sole c rL (listeners w1)).
Proof.
  intros WF A t sp rL w1.
  assert (N : forall x, In x (listeners w) -> sameAs rL x = false).
  { intros x Hx; unfold sameAs, rL, providerRegistration; simpl.
    apply fresh_closure; assumption. }
  assert (L : listeners w1 = listeners w ++ [rL]).
  { unfold w1, addEventListener; simpl.
    unfold isAborted in *; simpl; rewrite A.
    destruct (existsb _ (listeners w)) eqn:E; [ | reflexivity].
    apply existsb_exists in E; destruct E as [x [Hx Sx]].
    rewrite fresh_closure in Sx; [discriminate | exact WF | exact Hx]. }
  assert (D : distinct (listeners w1)).
  { rewrite L; apply distinct_snoc; [exact (proj1 WF) | ].
    apply Forall_forall; intros x Hx; rewrite sameAs_sym; auto. }
  repeat split; auto.
  - rewrite L; apply in_or_app; right; left; reflexivity.
  - rewrite L; apply Forall_app; split.
    + eapply Forall_impl; [ | exact H]; intros x Hx; right; exact Hx.
    + constructor; [left; reflexivity | constructor].
Qed.

Lemma announcedAt_app (r : Node) (ls more : list Registration) :
  announcedAt r ls -> announcedAt r (ls ++ more).
Proof.
  intros [x [I R]]; exists x; split; [apply in_or_app; left; exact I | exact R].
Qed.

(** A provider that registers while a matching record is pending, below a
    node where the buffer listens for announcements, gets the record's
    request and answers it before [registerContextProvider] returns. *)
Lemma register_answers (c : Context) (hv : HandlerOrValue)
    (options : ProviderOptions) (r : Node) (rec : RequestRecord) (w : World) :
  WellFormed w -> noProviderFor c (listeners w) ->
  announcedAt r (listeners w) ->
  In r (eventPath true
          (match target options with Some t => t | None => document_body end)) ->
  In rec (pending w) -> rec_context rec = c ->
  once (addEventListenerOptions options) = false ->
  isAborted (signal (addEventListenerOptions options)) w = false ->
  answered c hv (fresh rec) (snd (registerContextProvider c hv options w)).
Proof.
  intros WF NP An U I M O A.
  destruct (register_listeners c hv options w WF A) as [L [D S]].
  unfold registerContextProvider; simpl.
  set (t := match target options with Some t => t | None => document_body end)
    in *.
  set (sp := match stopPropagation options with Some b => b | None => true end)
    in *.
  set (w1 := addEventListener _ _ _ _ _) in *.
  apply (@dispatchProvider_answers c
           (providerRegistration (closures w) c hv options) (closures w) hv sp
           eq_refl eq_refl O t (getRootNode_on_path true t) rec M
           (ContextProviderEvent.new c t) eq_refl eq_refl r t w1); auto.
  - unfold w1, addEventListener; simpl.
    unfold isAborted in *; simpl; rewrite A.
    destruct (existsb _ _); exact I.
  - rewrite L; apply announcedAt_app; exact An.
Qed.

(* ------------------------------------------------------------------ *)
(** ** A request with no provider is buffered *)

Section InvokePreserves.

Variable E : Type.
Variable call : Listener -> E -> bool -> World -> Outcome.
Variable Q : World -> Prop.
Hypothesis call_escaped : forall l e st w, escaped (call l e st w) = None.
Hypothesis call_preserves : forall l e st w, Q w -> Q (world (call l e st w)).
Hypothesis unregister_preserves :
  forall n t l c w, Q w -> Q (unregister n t l c w).

Lemma invoke_preserves (order : list Registration) (e : E) (st : bool)
    (w : World) :
  Q w -> Q (snd (invoke call order e st w)).
Proof.
  revert st w; induction order as [ | r rest IH]; intros st w H; simpl.
  - exact H.
  - destruct st; [exact H | ].
    destruct (negb (isRegistered r w)); [apply IH; exact H | ].
    rewrite call_escaped; apply IH, call_preserves.
    destruct (reg_once r); [apply unregister_preserves | ]; exact H.
Qed.

End InvokePreserves.



Section Buffering.

Variable c : Context.
Variable ev : ContextRequestEvent.t.
Hypothesis ev_context : ContextRequestEvent.context ev = c.



End Buffering.

(* ------------------------------------------------------------------ *)
(** ** The waiting request survives benign steps *)

Lemma filter_all {A : Type} (l : list A) : filter (fun _ => true) l = l.
Proof. induction l; simpl; congruence. Qed.

(** Well-formed worlds stay so when listeners are removed or added. *)
Lemma wellFormed_filter (f : Registration -> bool) (w w' : World) :
  WellFormed w -> listeners w' = filter f (listeners w) ->
  closures w' = closures w -> WellFormed w'.
Proof.
  intros [D Fr] L Cl; split.
  - rewrite L; apply distinct_filter; exact D.
  - rewrite L, Cl; apply Forall_forall; intros y Hy.
    apply filter_In in Hy; rewrite Forall_forall in Fr; apply Fr; tauto.
Qed.

Lemma wellFormed_shrinks (w w' : World) :
  WellFormed w -> shrinks (listeners w) (listeners w') ->
  closures w' = closures w -> WellFormed w'.
Proof. intros WF [f [L _]] Cl; eapply wellFormed_filter; eauto. Qed.

Lemma wellFormed_addEventListener (n : Node) (t : string) (l : Listener)
    (o : AddEventListenerOptions) (w : World) :
  (forall i, closureOf l = Some i -> i < closures w) ->
  WellFormed w -> WellFormed (addEventListener n t l o w).
Proof.
  intros Fc [D Fr]; unfold addEventListener.
  destruct (isAborted _ _); [split; assumption | ].
  destruct (existsb _ _) eqn:E; [split; assumption | ].
  split; simpl.
  - apply distinct_snoc; [exact D | ].
    apply Forall_forall; intros x Hx.
    destruct (sameAs x _) eqn:S; [ | reflexivity].
    rewrite sameAs_sym in S; unfold sameAs in S; simpl in S.
    assert (existsb (sameRegistration n t l (capture o)) (listeners w) = true)
      by (apply existsb_exists; exists x; auto).
    simpl in E; congruence.
  - apply Forall_app; split; [exact Fr | ].
    constructor; [ | constructor]; simpl.
    destruct (closureOf l) eqn:Cl; auto.
Qed.

Lemma wellFormed_withClosures (w : World) :
  WellFormed w -> WellFormed (withClosures (S (closures w)) w).
Proof.
  intros [D Fr]; split; [exact D | simpl].
  eapply Forall_impl; [ | exact Fr]; intros x Hx; simpl in Hx.
  destruct (closureOf (reg_callback x)); auto.
Qed.

Section Waiting.

Variable c : Context.
Variable r : Node.
Variable rec : RequestRecord.
Hypothesis rec_subscribes : rec_subscribe rec = true.













End Waiting.

(* ------------------------------------------------------------------ *)
(** ** Worlds an execution reaches *)

Lemma callWithRequest_replaying (l : Listener) (ev : ContextRequestEvent.t)
    (st : bool) (w : World) :
  replaying (world (callWithRequest l ev st w)) = replaying w.
Proof.
  destruct l as [i c hv sp | | ]; simpl; auto.
  - unfold contextListener; destruct (negb _); [reflexivity | ].
    destruct hv as [v | h]; simpl.
    + unfold deliver; destruct (Js.isUndefined v); [reflexivity | ].
      destruct (cb_throws _ _); reflexivity.
    + destruct (h ev) as [[v | p] | e]; simpl; try reflexivity.
      destruct (lookupSettled p w); reflexivity.
  - destruct (replaying w) eqn:R; simpl; auto.
Qed.

Lemma callWithProvider_replaying (l : Listener) (e : ContextProviderEvent.t)
    (st : bool) (w : World) :
  replaying (world (callWithProvider l e st w)) = replaying w.
Proof.
  destruct l; simpl; auto.
  unfold onContextProvider; destruct (replay _ _ _ _); reflexivity.
Qed.

Lemma dispatchRequest_replaying (n : Node) (ev : ContextRequestEvent.t)
    (w : World) :
  replaying (snd (dispatchRequest n ev w)) = replaying w.
Proof.
  unfold dispatchRequest, dispatch.
  apply invoke_preserves with (Q := fun w' => replaying w' = replaying w).
  - apply callWithRequest_escaped.
  - intros l e st w' H; rewrite callWithRequest_replaying; exact H.
  - intros; assumption.
  - reflexivity.
Qed.

Lemma dispatchProvider_replaying (n : Node) (e : ContextProviderEvent.t)
    (w : World) :
  replaying (snd (dispatchProvider n e w)) = replaying w.
Proof.
  unfold dispatchProvider, dispatch.
  apply invoke_preserves with (Q := fun w' => replaying w' = replaying w).
  - apply callWithProvider_escaped.
  - intros l e' st w' H; rewrite callWithProvider_replaying; exact H.
  - intros; assumption.
  - reflexivity.
Qed.

Lemma wellFormed_dispatchRequest (n : Node) (ev : ContextRequestEvent.t)
    (w : World) :
  WellFormed w -> WellFormed (snd (dispatchRequest n ev w)).
Proof.
  intros WF; eapply wellFormed_shrinks; [exact WF | | ].
  - apply dispatchRequest_shrinks; exact (proj1 WF).
  - apply (grows_dispatchRequest n ev w).
Qed.

Lemma closures_dispatchProvider (n : Node) (e : ContextProviderEvent.t)
    (w : World) :
  closures (snd (dispatchProvider n e w)) = closures w.
Proof.
  unfold dispatchProvider, dispatch.
  apply (grows_invoke _ callWithProvider notAnnouncement
           callWithProvider_escaped grows_callWithProvider
           _ e false (log (DispatchEvent n (ProviderEvent e)) w)).
Qed.

Lemma wellFormed_dispatchProvider (n : Node) (e : ContextProviderEvent.t)
    (w : World) :
  WellFormed w -> WellFormed (snd (dispatchProvider n e w)).
Proof.
  intros WF; eapply wellFormed_shrinks; [exact WF | | ].
  - apply dispatchProvider_shrinks; exact (proj1 WF).
  - apply closures_dispatchProvider.
Qed.

(** Every step keeps the world well formed and the buffer at rest. *)
Lemma step_reachable (a : Action) (w : World) :
  WellFormed w -> replaying w = false ->
  WellFormed (step a w) /\ replaying (step a w) = false.
Proof.
  intros WF Rp; destruct a; simpl.
  - split; [apply wellFormed_dispatchRequest; exact WF | ].
    rewrite dispatchRequest_replaying; exact Rp.
  - split; [apply wellFormed_dispatchProvider; exact WF | ].
    rewrite dispatchProvider_replaying; exact Rp.
  - unfold registerContextProvider; simpl; split.
    + apply wellFormed_dispatchProvider, wellFormed_addEventListener;
        [ | apply wellFormed_withClosures; exact WF].
      simpl; intros i Hi; inversion Hi; lia.
    + rewrite dispatchProvider_replaying; unfold addEventListener.
      destruct (isAborted _ _); [exact Rp | ].
      destruct (existsb _ _); exact Rp.
  - split; [ | exact Rp].
    eapply wellFormed_filter; [exact WF | reflexivity | reflexivity].
  - unfold attach; split.
    + repeat apply wellFormed_addEventListener; try exact WF;
        simpl; discriminate.
    + unfold addEventListener.
      repeat (destruct (isAborted _ _) || destruct (existsb _ _)
              || simpl); exact Rp.
  - unfold detach; destruct (attached rootNode w); [ | split; assumption].
    split; [ | exact Rp].
    set (w1 := removeEventListener rootNode "context-request"
                 OnContextRequest false w).
    assert (WF1 : WellFormed w1)
      by (eapply wellFormed_filter; [exact WF | reflexivity | reflexivity]).
    set (w2 := removeEventListener rootNode "context-provider"
                 OnContextProvider false w1).
    assert (WF2 : WellFormed w2)
      by (eapply wellFormed_filter; [exact WF1 | reflexivity | reflexivity]).
    apply (wellFormed_filter (fun _ => true) w2);
      [exact WF2 | symmetry; apply filter_all | reflexivity].
  - split; [ | exact Rp].
    eapply wellFormed_filter; [exact WF | reflexivity | reflexivity].
  - unfold settlePromise; destruct (lookupSettled p w);
      split; assumption.
  - unfold runMicrotasks; rewrite fold_resume; split; assumption.
Qed.

(** The worlds executions reach from the empty page are well formed, with
    the buffer at rest. *)
Lemma run_reachable (actions : list Action) (w : World) :
  WellFormed w -> replaying w = false ->
  WellFormed (run actions w) /\ replaying (run actions w) = false.
Proof.
  revert w; induction actions as [ | a actions IH]; intros w WF Rp; simpl.
  - split; assumption.
  - destruct (step_reachable a w WF Rp) as [WF1 Rp1]; apply IH; assumption.
Qed.

(* ------------------------------------------------------------------ *)
(** ** What a dispatch leaves alone *)

Section InvokePreservesOn.

Variable E : Type.
Variable call : Listener -> E -> bool -> World -> Outcome.
Variable Q : World -> Prop.
Hypothesis call_escaped : forall l e st w, escaped (call l e st w) = None.
Hypothesis unregister_preserves :
  forall n t l c w, Q w -> Q (unregister n t l c w).

(** As [invoke_preserves], asking only the listeners that are visited to
    preserve [Q]. *)
Lemma invoke_preserves_on (order : list Registration) (e : E) (st : bool)
    (w : World) :
  Forall (fun r => forall st w, Q w -> Q (world (call (reg_callback r) e st w)))
    order ->
  Q w -> Q (snd (invoke call order e st w)).
Proof.
  revert st w; induction order as [ | r rest IH]; intros st w F H; simpl.
  - exact H.
  - apply Forall_cons_iff in F; destruct F as [Hr F].
    destruct st; [exact H | ].
    destruct (negb (isRegistered r w)); [apply IH; assumption | ].
    rewrite call_escaped; apply IH; [exact F | ].
    apply Hr.
    destruct (reg_once r); [apply unregister_preserves | ]; exact H.
Qed.

End InvokePreservesOn.

Lemma deliveries_app (cb : ContextCallback) (a b : list HostCall) :
  deliveries cb (a ++ b) = deliveries cb a ++ deliveries cb b.
Proof. apply flat_map_app. Qed.

Lemma deliveries_In (cb : ContextCallback) (v : Js.Value) (t : list HostCall) :
  In (Callback (cb_id cb) v) t -> In v (deliveries cb t).
Proof.
  intros H; apply in_flat_map; exists (Callback (cb_id cb) v).
  split; [exact H | ]; rewrite Nat.eqb_refl; left; reflexivity.
Qed.

Lemma announcements_none (t : list HostCall) :
  Forall notAnnouncement t -> announcements t = [].
Proof.
  induction 1 as [ | c t Hc _ IH]; [reflexivity | ].
  unfold notAnnouncement, announcements in Hc; simpl in Hc.
  rewrite app_nil_r in Hc.
  unfold announcements in *; simpl; rewrite Hc, IH; reflexivity.
Qed.

Lemma static_quiet (c : Context) (v : Js.Value) (sp : bool)
    (ev : ContextRequestEvent.t) (st : bool) (w : World) :
  microtasks (world (contextListener c (Static v) sp ev st w)) = microtasks w /\
  awaiting (world (contextListener c (Static v) sp ev st w)) = awaiting w.
Proof.
  unfold contextListener; destruct (negb _); [auto | ]; simpl.
  unfold deliver; destruct (Js.isUndefined v); [auto | ].
  destruct (cb_throws _ _); auto.
Qed.

Lemma handler_undelivered (c : Context) (h : ContextHandler) (sp : bool)
    (ev : ContextRequestEvent.t) (st : bool) (w : World)
    (cb : ContextCallback) :
  deliveries cb (trace (world (contextListener c (Handler h) sp ev st w))) =
  deliveries cb (trace w).
Proof.
  unfold contextListener; destruct (negb _); [auto | ]; simpl.
  destruct (h ev) as [[v | p] | e]; simpl; auto.
  - destruct (lookupSettled p w); reflexivity.
  - rewrite deliveries_app; simpl; apply app_nil_r.
Qed.

Section OneProviderMore.

Variable c : Context.
Variable rL : Registration.
Variable closure : nat.
Variable hv : HandlerOrValue.
Variable sp : bool.
Hypothesis rL_callback : reg_callback rL = ContextListener closure c hv sp.
Variable ev : ContextRequestEvent.t.
Hypothesis ev_context : ContextRequestEvent.context ev = c.

Lemma dispatchRequest_static_quiet (v : Js.Value) (n : Node) (w : World) :
  hv = Static v -> sole c rL (listeners w) ->
  quiet w (snd (dispatchRequest n ev w)).
Proof.
  intros Hv [_ [_ F]]; unfold dispatchRequest, dispatch.
  apply invoke_preserves_on with (Q := quiet w).
  - apply callWithRequest_escaped.
  - intros; assumption.
  - apply Forall_forall; intros r Hr st w' [M A].
    apply in_invocationOrder in Hr; destruct Hr as [Hr _].
    rewrite Forall_forall in F; destruct (F r Hr) as [-> | H].
    + rewrite rL_callback, Hv; simpl.
      destruct (static_quiet c v sp ev st w') as [M' A'].
      split; congruence.
    + destruct (@harmless_call c _ ev st w' H ev_context)
        as [_ [_ [M' [A' _]]]].
      split; congruence.
  - split; reflexivity.
Qed.

Lemma dispatchRequest_handler_undelivered (h : ContextHandler) (n : Node)
    (w : World) (cb : ContextCallback) :
  hv = Handler h -> sole c rL (listeners w) ->
  undelivered cb w (snd (dispatchRequest n ev w)).
Proof.
  intros Hv [_ [_ F]]; unfold dispatchRequest, dispatch.
  apply invoke_preserves_on with (Q := undelivered cb w).
  - apply callWithRequest_escaped.
  - intros; assumption.
  - apply Forall_forall; intros r Hr st w' U.
    apply in_invocationOrder in Hr; destruct Hr as [Hr _].
    rewrite Forall_forall in F; destruct (F r Hr) as [-> | H].
    + rewrite rL_callback, Hv; simpl; unfold undelivered.
      rewrite handler_undelivered; exact U.
    + destruct (@harmless_call c _ ev st w' H ev_context) as [_ [T _]].
      unfold undelivered; rewrite T; exact U.
  - unfold undelivered; simpl; rewrite deliveries_app; simpl.
    apply app_nil_r.
Qed.

End OneProviderMore.

(* ------------------------------------------------------------------ *)
(** ** The claims *)

(** C7. Every ContextRequestEvent and every ContextProviderEvent is
    constructed with bubbles = true and composed = true; so a dispatch of
    either visits the listeners of its type on every node above the target,
    shadow boundaries crossed: from a shadow root the path goes on to the
    host. *)
Theorem events_bubble_and_are_composed :
  (forall c t cb s,
     ContextRequestEvent.event (ContextRequestEvent.new c t cb s) =
     {| type := "context-request"; bubbles := true; composed := true |}) /\
  (forall c t,
     ContextProviderEvent.event (ContextProviderEvent.new c t) =
     {| type := "context-provider"; bubbles := true; composed := true |}) /\
  (forall (e : Dom.Event) ls target r,
     bubbles e = true -> composed e = true ->
     In r ls -> reg_type r = type e -> under (reg_target r) target ->
     In r (invocationOrder ls e target)) /\
  (forall host n, under (ShadowRoot host) n -> under host n).
Proof.
  repeat split.
  - intros e ls target r B C I T U.
    apply in_invocationOrder; rewrite B, C, orb_true_r; auto.
  - intros host n U; unfold under in *.
    apply (eventPath_trans true host (ShadowRoot host) n); [ | exact U].
    simpl; right; apply eventPath_target.
Qed.

(** C9. A ContextRequestEvent constructed without a subscribe argument (or
    with undefined) has subscribe = false; the field is never undefined. *)
Theorem subscribe_defaults_to_false :
  (forall c t cb,
     ContextRequestEvent.subscribe (ContextRequestEvent.new c t cb None) =
     Some false) /\
  (forall c t cb s,
     ContextRequestEvent.subscribe (ContextRequestEvent.new c t cb s) <> None).
Proof.
  split; [reflexivity | ].
  intros c t cb [b | ]; discriminate.
Qed.

(** C6. A request whose context is not strictly equal to the registered
    one leaves the listener of [registerContextProvider] without effect:
    the stop flag and the world are as they were, the callback is not
    called. Strict equality does not coerce: a string and a symbol of the
    same spelling are different contexts. *)
Theorem other_contexts_left_untouched :
  forall c hv options w0 ev st w,
    ContextRequestEvent.context ev <> c ->
    callWithRequest (listener (fst (registerContextProvider c hv options w0)))
      ev st w =
    {| stopFlag := st; world := w; escaped := None |} /\
    (forall s i, strictEquals (CtxString s) (CtxSymbol i s) = false /\
                 strictEquals (CtxSymbol i s) (CtxString s) = false) /\
    (forall a b, strictEquals a b = true <-> a = b).
Proof.
  intros c hv options w0 ev st w N; repeat split.
  - simpl; unfold contextListener.
    apply strictEquals_neq in N; rewrite N; reflexivity.
  - apply strictEquals_eq.
  - apply strictEquals_eq.
Qed.

(** A symbol-keyed provider asked with the string of the same spelling. *)
Lemma other_contexts_left_untouched_witness :
  callWithRequest
    (listener (fst (registerContextProvider (CtxSymbol 0 "theme")
                      (Static dark) defaultOptions initialWorld)))
    (ContextRequestEvent.new theme consumer onTheme None) false initialWorld =
  {| stopFlag := false; world := initialWorld; escaped := None |}.
Proof.
  apply (@other_contexts_left_untouched (CtxSymbol 0 "theme") (Static dark)
           defaultOptions initialWorld
           (ContextRequestEvent.new theme consumer onTheme None) false
           initialWorld).
  discriminate.
Defined.

(** C2, as the code has it. When the provider's value for a matching
    request comes to [undefined], the callback is not called, neither in
    the listener nor when it resumes; but the event is stopped all the same
    unless the provider was registered with [stopPropagation: false]. *)
Theorem no_answer_no_delivery :
  forall c hv options w0 ev st w,
    ContextRequestEvent.context ev = c ->
    resolvesTo hv ev Js.Undefined w ->
    let o :=
      callWithRequest
        (listener (fst (registerContextProvider c hv options w0))) ev st w in
    stopFlag o = match stopPropagation options with
                 | Some false => st
                 | _ => true
                 end /\
    escaped o = None /\
    trace (world o) = trace w /\
    trace (runMicrotasks (fulfil hv ev Js.Undefined (world o))) =
    trace (runMicrotasks (fulfil hv ev Js.Undefined w)).
Proof.
  intros c hv options w0 ev st w E R; simpl.
  unfold contextListener.
  rewrite E, strictEquals_refl; simpl.
  assert (F : (if match stopPropagation options with
                  | Some b => b
                  | None => true
                  end then true else st) =
              match stopPropagation options with
              | Some false => st
              | _ => true
              end)
    by (destruct (stopPropagation options) as [[ | ] | ]; reflexivity).
  unfold resolvesTo, fulfil in *.
  destruct hv as [v | h].
  - subst v; simpl; auto.
  - destruct (h ev) as [a | e]; [ | destruct R]; simpl.
    repeat split; auto.
    + destruct a as [v | p]; simpl; [reflexivity | ].
      destruct (lookupSettled p w); reflexivity.
    + rewrite await_then_settle by exact R.
      rewrite effects_undefined; apply app_nil_r.
Qed.

Lemma no_answer_no_delivery_witness :
  stopFlag
    (callWithRequest
       (listener (fst (registerContextProvider theme
                         (Handler (fun _ => Js.Normal (Js.Promise 0)))
                         defaultOptions initialWorld)))
       (ContextRequestEvent.new theme consumer onTheme None) false
       initialWorld) = true.
Proof.
  apply (@no_answer_no_delivery theme
           (Handler (fun _ => Js.Normal (Js.Promise 0))) defaultOptions
           initialWorld (ContextRequestEvent.new theme consumer onTheme None)
           false initialWorld eq_refl).
  left; reflexivity.
Defined.

(** C2 as stated fails: a provider inside a shadow tree whose handler
    resolves to [undefined] stops the request (default options), and the
    provider of the same context on the document, which has a value, never
    sees it. *)
Lemma no_answer_still_stops :
  let silent : ContextHandler := fun _ => Js.Normal (Js.Plain Js.Undefined) in
  let inner := Child (ShadowRoot (Child document_body 0)) 0 in
  let w :=
    run [Register theme (Static dark) defaultOptions;
         Register theme (Handler silent)
           {| target := Some inner; stopPropagation := None;
              addEventListenerOptions := noOptions |}]
      initialWorld in
  let ev := ContextRequestEvent.new theme inner onTheme None in
  fst (dispatchRequest inner ev w) = true /\
  deliveries onTheme (trace (runMicrotasks (snd (dispatchRequest inner ev w))))
  = [].
Proof. vm_compute; split; reflexivity. Qed.

(** C3. When the handler of a matching request throws, or the promise it
    returned rejects, the listener logs the error with [console.error] and
    lets nothing escape to the dispatcher; the callback is not called: the
    throw leaves nothing suspended, and the rejected listener adds the log
    entry to the trace and nothing else. *)
Theorem handler_errors_are_logged :
  forall c h options w0 ev st w e,
    ContextRequestEvent.context ev = c ->
    let o :=
      callWithRequest
        (listener (fst (registerContextProvider c (Handler h) options w0)))
        ev st w in
    (h ev = Js.Throw e ->
       escaped o = None /\
       trace (world o) = trace w ++ [ConsoleError (errorMessage c) e] /\
       microtasks (world o) = microtasks w /\
       awaiting (world o) = awaiting w) /\
    (forall a, h ev = Js.Normal a -> settlesAs a (Js.Rejected e) w ->
       escaped o = None /\
       trace (world o) = trace w /\
       trace (runMicrotasks (settleAs a (Js.Rejected e) (world o))) =
       trace (runMicrotasks (settleAs a (Js.Rejected e) w)) ++
       [ConsoleError (errorMessage c) e]).
Proof.
  intros c h options w0 ev st w e E; simpl.
  unfold contextListener; rewrite E, strictEquals_refl; simpl.
  split.
  - intros ->; simpl; auto.
  - intros a -> R; simpl; repeat split.
    + destruct a as [v | p]; simpl; [reflexivity | ].
      destruct (lookupSettled p w); reflexivity.
    + rewrite await_then_settle by exact R; reflexivity.
Qed.

Lemma handler_errors_are_logged_witness :
  trace
    (world
       (callWithRequest
          (listener (fst (registerContextProvider theme
                            (Handler (fun _ => Js.Throw (Js.Text "boom")))
                            defaultOptions initialWorld)))
          (ContextRequestEvent.new theme consumer onTheme None) false
          initialWorld)) =
  [ConsoleError (errorMessage theme) (Js.Text "boom")].
Proof.
  apply (proj1 (@handler_errors_are_logged theme
                  (fun _ => Js.Throw (Js.Text "boom")) defaultOptions
                  initialWorld
                  (ContextRequestEvent.new theme consumer onTheme None) false
                  initialWorld (Js.Text "boom") eq_refl) eq_refl).
Defined.

(** C4, as the code has it. Whatever the re-exported modules do, an entry
    point fails to load on a host without [globalThis.Event]. On a host with
    [Event], where they load, the entry point loads too, [HTMLElement] or
    not: a missing [HTMLElement] only makes it warn. *)
Theorem entry_fails_without_Event :
  forall index g,
    (Entry.hasEvent g = false ->
       (exists m, Entry.result (Entry.mod_ts index g) = Entry.Failed m) /\
       (exists m, Entry.result (Entry.browser_ts index g) = Entry.Failed m)) /\
    (Entry.hasEvent g = true -> index g = Entry.Loaded ->
       Entry.result (Entry.mod_ts index g) = Entry.Loaded /\
       Entry.result (Entry.browser_ts index g) = Entry.Loaded /\
       (Entry.warnings (Entry.mod_ts index g) = [] <->
          Entry.hasHTMLElement g = true) /\
       (Entry.warnings (Entry.browser_ts index g) = [] <->
          Entry.hasHTMLElement g = true)).
Proof.
  intros index [html event]; unfold Entry.mod_ts, Entry.browser_ts, Entry.entry.
  simpl; split.
  - intros ->; destruct (index _) as [ | m]; simpl; split; eexists; reflexivity.
  - intros -> ->; unfold Entry.guard; simpl.
    destruct html; simpl; repeat split; try reflexivity; try discriminate;
      intros; discriminate.
Qed.

(** C4 as stated fails: a host with [Event] and without [HTMLElement] (a
    server-side runtime) lacks the DOM APIs, the event modules load on it,
    and both entry points load with a warning. *)
Lemma entry_loads_without_HTMLElement :
  let g := {| Entry.hasHTMLElement := false; Entry.hasEvent := true |} in
  Entry.result (Entry.mod_ts Entry.eventClasses g) = Entry.Loaded /\
  Entry.result (Entry.browser_ts Entry.eventClasses g) = Entry.Loaded /\
  Entry.warnings (Entry.mod_ts Entry.eventClasses g) <> [] /\
  Entry.warnings (Entry.browser_ts Entry.eventClasses g) <> [].
Proof. simpl; repeat split; discriminate. Qed.

(** The trace of a registration: the [addEventListener] call on the
    target's root, the dispatch of the announcement at the target, and then
    calls that are no announcements. *)
Lemma register_trace (c : Context) (hv : HandlerOrValue)
    (options : ProviderOptions) (w : World) :
  let t := match target options with Some t => t | None => document_body end in
  let reg := registerContextProvider c hv options w in
  exists rest,
    trace (snd reg) =
    trace w ++
    AddEventListener (getRootNode t) "context-request" (listener (fst reg))
      (addEventListenerOptions options) ::
    DispatchEvent t (ProviderEvent (ContextProviderEvent.new c t)) :: rest /\
    Forall notAnnouncement rest.
Proof.
  intros t reg.
  unfold reg, registerContextProvider; simpl; fold t.
  set (sp := match stopPropagation options with
             | Some b => b
             | None => true
             end).
  set (w1 := addEventListener _ _ _ _ _).
  assert (T1 : trace w1 =
               trace w ++
               [AddEventListener (getRootNode t) "context-request"
                  (ContextListener (closures w) c hv sp)
                  (addEventListenerOptions options)]).
  { unfold w1, addEventListener.
    destruct (isAborted _ _); [reflexivity | ].
    destruct (existsb _ _); reflexivity. }
  unfold dispatchProvider, dispatch.
  set (ev := ContextProviderEvent.new c t).
  set (w2 := log (DispatchEvent t (ProviderEvent ev)) w1).
  destruct (grows_invoke _ callWithProvider notAnnouncement
              callWithProvider_escaped grows_callWithProvider
              (invocationOrder (listeners w2)
                 (ContextProviderEvent.event ev) t) ev false w2)
    as [[rest [T F]] _].
  exists rest; split; [ | exact F].
  rewrite T; unfold w2; simpl; rewrite T1.
  rewrite <- !app_assoc; reflexivity.
Qed.

(** After a registration that adds its listener for good, the provider is
    the only listener for its context if there was none before. *)
Lemma registered_sole (c : Context) (hv : HandlerOrValue)
    (options : ProviderOptions) (w : World) :
  WellFormed w -> noProviderFor c (listeners w) ->
  once (addEventListenerOptions options) = false ->
  isAborted (signal (addEventListenerOptions options)) w = false ->
  sole c (providerRegistration (closures w) c hv options)
    (listeners (snd (registerContextProvider c hv options w))).
Proof.
  intros WF NP O A.
  destruct (register_listeners c hv options w WF A) as [_ [D S]].
  unfold registerContextProvider; simpl.
  eapply shrinks_sole; [ | exact O | apply S; exact NP].
  apply dispatchProvider_shrinks; exact D.
Qed.



Lemma wellFormed_initialWorld : WellFormed initialWorld.
Proof. split; [exact I | constructor]. Qed.

(* ------------------------------------------------------------------ *)
(** * Further properties of [context-providers.ts]

    What follows covers the parts of the file the claims above leave out:
    the cleanup functions, the options handed on to [addEventListener],
    [registerContextProviders] and [createContextProvider], and what a
    request does when no provider, one provider or two providers of its
    context listen. *)

(* ------------------------------------------------------------------ *)
(** ** Requests that meet no provider of their context *)

Lemma undisturbed_refl (w : World) : undisturbed w w.
Proof. repeat split. Qed.

Lemma undisturbed_trans (w1 w2 w3 : World) :
  undisturbed w1 w2 -> undisturbed w2 w3 -> undisturbed w1 w3.
Proof.
  intros [A [B [C D]]] [A' [B' [C' D']]]; repeat split; congruence.
Qed.

Lemma undisturbed_sym (w w' : World) : undisturbed w w' -> undisturbed w' w.
Proof. intros [A [B [C D]]]; repeat split; congruence. Qed.

Lemma undisturbed_once (r : Registration) (w : World) :
  undisturbed w
    (if reg_once r
     then unregister (reg_target r) (reg_type r) (reg_callback r)
            (reg_capture r) w
     else w).
Proof. destruct (reg_once r); repeat split. Qed.

Lemma harmless_undisturbed (c : Context) (l : Listener)
    (ev : ContextRequestEvent.t) (st : bool) (w : World) :
  harmless c l -> ContextRequestEvent.context ev = c ->
  stopFlag (callWithRequest l ev st w) = st /\
  undisturbed w (world (callWithRequest l ev st w)).
Proof.
  intros H E; destruct l as [i c' hv sp | | ]; simpl in *.
  - unfold contextListener.
    assert (N : strictEquals (ContextRequestEvent.context ev) c' = false)
      by (apply strictEquals_neq; congruence).
    rewrite N; simpl; repeat split.
  - destruct (replaying w); repeat split.
  - repeat split.
Qed.

Section Passing.

Variable c : Context.
Variable ev : ContextRequestEvent.t.
Hypothesis ev_context : ContextRequestEvent.context ev = c.

(** Listeners that are no providers of [c] leave the stop flag and the
    queues as they find them. *)
Lemma invoke_passes (order : list Registration) (st : bool) (w : World) :
  Forall (fun r => harmless c (reg_callback r)) order ->
  fst (invoke callWithRequest order ev st w) = st /\
  undisturbed w (snd (invoke callWithRequest order ev st w)).
Proof.
  revert w; induction order as [ | r rest IH]; intros w F; simpl.
  - split; [reflexivity | apply undisturbed_refl].
  - apply Forall_cons_iff in F; destruct F as [Hr Hrest].
    destruct st; [split; [reflexivity | apply undisturbed_refl] | ].
    destruct (negb (isRegistered r w)); [apply IH; exact Hrest | ].
    rewrite callWithRequest_escaped.
    set (w1 := if reg_once r then _ else w).
    destruct (harmless_undisturbed c (reg_callback r) ev false w1 Hr ev_context)
      as [Fl U].
    rewrite Fl.
    destruct (IH (world (callWithRequest (reg_callback r) ev false w1)) Hrest)
      as [Fl' U'].
    split; [exact Fl' | ].
    eapply undisturbed_trans; [ | exact U'].
    eapply undisturbed_trans; [apply undisturbed_once | exact U].
Qed.

End Passing.

Lemma noProviderFor_order (c : Context) (ls : list Registration)
    (ev : Dom.Event) (t : Node) :
  noProviderFor c ls ->
  Forall (fun r => harmless c (reg_callback r)) (invocationOrder ls ev t).
Proof.
  intros NP; apply Forall_forall; intros r I.
  apply in_invocationOrder in I; destruct I as [I _].
  unfold noProviderFor in NP; rewrite Forall_forall in NP; apply NP; exact I.
Qed.

(** A request that no registered provider answers: the dispatch returns
    with the event not stopped and has called nothing. *)
Lemma dispatchRequest_passes (n : Node) (ev : ContextRequestEvent.t)
    (w : World) :
  noProviderFor (ContextRequestEvent.context ev) (listeners w) ->
  fst (dispatchRequest n ev w) = false /\
  undisturbed (log (DispatchEvent n (RequestEvent ev)) w)
    (snd (dispatchRequest n ev w)).
Proof.
  intros NP; unfold dispatchRequest, dispatch.
  apply (invoke_passes (ContextRequestEvent.context ev) ev eq_refl).
  apply noProviderFor_order; exact NP.
Qed.

(** X1. A request for a context that no registered provider has is left
    alone by every listener it meets, however many providers of other
    contexts there are: the dispatch returns with the event not stopped,
    nothing but the dispatch itself is added to the trace, and no listener is
    left suspended or queued. *)
Theorem unprovided_request_passes :
  forall w n ev,
    noProviderFor (ContextRequestEvent.context ev) (listeners w) ->
    fst (dispatchRequest n ev w) = false /\
    trace (snd (dispatchRequest n ev w)) =
    trace w ++ [DispatchEvent n (RequestEvent ev)] /\
    microtasks (snd (dispatchRequest n ev w)) = microtasks w /\
    awaiting (snd (dispatchRequest n ev w)) = awaiting w.
Proof.
  intros w n ev NP.
  destruct (dispatchRequest_passes n ev w NP) as [Fl [T [M [A _]]]].
  repeat split; assumption.
Qed.

(** Two providers of other contexts are registered; a request for the
    theme passes them. *)
Lemma unprovided_request_passes_witness :
  let w :=
    run [Register (CtxString "locale") (Static (Js.Text "fr")) defaultOptions;
         Register (CtxSymbol 0 "theme") (Static dark) defaultOptions]
      initialWorld in
  let ev := ContextRequestEvent.new theme consumer onTheme None in
  fst (dispatchRequest consumer ev w) = false /\
  trace (snd (dispatchRequest consumer ev w)) =
  trace w ++ [DispatchEvent consumer (RequestEvent ev)].
Proof.
  intros w ev.
  destruct (unprovided_request_passes w consumer ev) as [F [T _]].
  - repeat constructor; discriminate.
  - split; [exact F | exact T].
Defined.

(* ------------------------------------------------------------------ *)
(** ** The order in which a dispatch visits the listeners *)

Lemma eventPath_depth (c : bool) (n x : Node) :
  In x (eventPath c n) -> depth x <= depth n.
Proof.
  induction n as [ | k | p IH i | h IH]; simpl.
  - intros [<- | []]; simpl; lia.
  - intros [<- | []]; simpl; lia.
  - intros [<- | H]; simpl; [lia | ]. apply IH in H; lia.
  - intros [<- | H]; simpl; [lia | ].
    destruct c; [apply IH in H; lia | destruct H].
Qed.

Lemma NoDup_eventPath (c : bool) (n : Node) : NoDup (eventPath c n).
Proof.
  induction n as [ | k | p IH i | h IH]; simpl.
  - constructor; [intros [] | constructor].
  - constructor; [intros [] | constructor].
  - constructor; [ | exact IH].
    intros H; apply eventPath_depth in H; simpl in H; lia.
  - destruct c.
    + constructor; [ | exact IH].
      intros H; apply eventPath_depth in H; simpl in H; lia.
    + constructor; [intros [] | constructor].
Qed.

Lemma distinct_NoDup (ls : list Registration) : distinct ls -> NoDup ls.
Proof.
  induction ls as [ | r rest IH]; simpl; [constructor | ].
  intros [F D]; constructor; [ | apply IH; exact D].
  intros I; rewrite Forall_forall in F; specialize (F r I).
  rewrite sameAs_refl in F; discriminate.
Qed.

Lemma listening_inv (t : string) (cap : bool) (n : Node) (r : Registration) :
  listening t cap n r = true ->
  reg_target r = n /\ reg_type r = t /\ reg_capture r = cap.
Proof.
  unfold listening; intros H.
  apply andb_prop in H; destruct H as [H C].
  apply andb_prop in H; destruct H as [N T].
  apply Node_eqb_eq in N; apply String.eqb_eq in T; apply Bool.eqb_prop in C.
  auto.
Qed.

Lemma in_chunks (ls : list Registration) (t : string) (cap : bool)
    (path : list Node) (r : Registration) :
  In r (flat_map (fun n => filter (listening t cap n) ls) path) ->
  In (reg_target r) path /\ reg_capture r = cap /\ In r ls.
Proof.
  intros I; apply in_flat_map in I; destruct I as [n [P I]].
  apply filter_In in I; destruct I as [I L].
  apply listening_inv in L; destruct L as [<- [_ C]]; auto.
Qed.

Lemma NoDup_chunks (ls : list Registration) (t : string) (cap : bool)
    (path : list Node) :
  NoDup ls -> NoDup path ->
  NoDup (flat_map (fun n => filter (listening t cap n) ls) path).
Proof.
  intros L; induction path as [ | a rest IH]; simpl; intros P;
    [constructor | ].
  inversion P as [ | ? ? Na Nrest]; subst.
  apply NoDup_app.
  - apply NoDup_filter; exact L.
  - apply IH; exact Nrest.
  - intros x I J.
    apply filter_In in I; destruct I as [_ I].
    apply listening_inv in I; destruct I as [T _].
    apply in_chunks in J; destruct J as [J _].
    apply Na; rewrite <- T; exact J.
Qed.

Lemma NoDup_invocationOrder (ls : list Registration) (ev : Dom.Event)
    (t : Node) :
  NoDup ls -> NoDup (invocationOrder ls ev t).
Proof.
  intros L; unfold invocationOrder.
  apply NoDup_app.
  - apply NoDup_chunks; [exact L | ].
    apply NoDup_rev, NoDup_eventPath.
  - apply NoDup_chunks; [exact L | ].
    destruct (bubbles ev); [apply NoDup_eventPath | ].
    constructor; [intros [] | constructor].
  - intros x I J.
    apply in_chunks in I; apply in_chunks in J.
    destruct I as [_ [I _]], J as [_ [J _]]; congruence.
Qed.

(* ------------------------------------------------------------------ *)
(** ** What exactly a request to its only provider adds to the trace *)

Lemma deliver_trace (c : Context) (cb : ContextCallback) (v : Js.Value)
    (w : World) :
  v <> Js.Undefined -> trace (deliver c cb v w) = trace w ++ delivery c cb v.
Proof.
  intros N; apply isUndefined_false in N.
  unfold deliver, delivery; rewrite N.
  destruct (cb_throws cb v); simpl; [ | reflexivity].
  rewrite <- app_assoc; reflexivity.
Qed.

Lemma effects_delivery (k : Resumption) (v : Js.Value) :
  v <> Js.Undefined ->
  effects k (Js.Fulfilled v) = delivery (res_context k) (res_callback k) v.
Proof.
  intros N; unfold effects; simpl.
  rewrite (deliver_trace _ _ _ _ N); reflexivity.
Qed.

Lemma deliveries_delivery (c : Context) (cb : ContextCallback) (v : Js.Value) :
  deliveries cb (delivery c cb v) = [v].
Proof.
  unfold delivery, deliveries; simpl; rewrite Nat.eqb_refl.
  destruct (cb_throws cb v); reflexivity.
Qed.

Section Exactly.

Variable c : Context.
Variable rL : Registration.
Variable closure : nat.
Variable hv : HandlerOrValue.
Variable sp : bool.
Hypothesis rL_callback : reg_callback rL = ContextListener closure c hv sp.
Variable ev : ContextRequestEvent.t.
Hypothesis ev_context : ContextRequestEvent.context ev = c.

(** The provider's listener is called once, in a world whose trace and
    queues are those of the start, and nothing is called after it. *)
Lemma invoke_sole_exact (order : list Registration) (w : World) :
  Forall (others c rL) order -> NoDup order -> current order w ->
  In rL (listeners w) -> In rL order ->
  exists w1,
    undisturbed w w1 /\
    undisturbed (world (contextListener c hv sp ev false w1))
      (snd (invoke callWithRequest order ev false w)).
Proof.
  revert w; induction order as [ | r rest IH]; intros w F N C I O;
    [destruct O | ].
  apply Forall_cons_iff in F; destruct F as [Hr Hrest].
  apply NoDup_cons_iff in N; destruct N as [Nr Nrest].
  simpl.
  destruct (isRegistered r w) eqn:R; simpl.
  - destruct C as [D C0].
    destruct (C0 r (or_introl eq_refl)) as [Ir | Nx]; [ | congruence].
    rewrite callWithRequest_escaped.
    set (w1 := if reg_once r then _ else w).
    assert (U1 : undisturbed w w1) by apply undisturbed_once.
    destruct (distinct_In _ _ _ D Ir I) as [E | S].
    + (* the provider's listener *)
      exists w1; split; [exact U1 | ].
      rewrite E, rL_callback; simpl.
      apply (invoke_passes c ev ev_context rest).
      apply Forall_forall; intros x Hx.
      rewrite Forall_forall in Hrest.
      destruct (Hrest x Hx) as [Ex | H]; [ | exact H].
      exfalso; apply Nr; rewrite E, <- Ex; exact Hx.
    + (* another listener *)
      assert (Ne : r <> rL)
        by (intros Er; rewrite Er, sameAs_refl in S; discriminate).
      destruct Hr as [Er | H]; [congruence | ].
      destruct O as [Er | O]; [congruence | ].
      destruct (harmless_undisturbed c _ ev false w1 H ev_context) as [Fl U].
      rewrite Fl.
      assert (S1 : shrinks (listeners w) (listeners w1))
        by (apply once_shrinks; assumption).
      assert (I1 : In rL (listeners w1)).
      { unfold w1; destruct (reg_once r); [ | exact I].
        simpl; apply filter_In; split; [exact I | ].
        fold (sameAs r rL); rewrite S; reflexivity. }
      destruct (IH (world (callWithRequest (reg_callback r) ev false w1)))
        as [w2 [U2 U3]]; auto.
      * eapply current_shrinks;
          [ | split; [exact D | intros x Hx; apply C0; right; exact Hx]].
        rewrite callWithRequest_listeners; exact S1.
      * rewrite callWithRequest_listeners; exact I1.
      * exists w2; split; [ | exact U3].
        eapply undisturbed_trans; [exact U1 | ].
        eapply undisturbed_trans; [exact U | exact U2].
  - assert (Ne : r <> rL).
    { intros Er; rewrite Er, (isRegistered_In _ _ I) in R; discriminate. }
    destruct O as [Er | O]; [congruence | ].
    apply IH; auto; eapply current_tail; eauto.
Qed.

Lemma dispatchRequest_sole_exact (n : Node) (w : World) :
  sole c rL (listeners w) ->
  reg_type rL = "context-request" ->
  In (reg_target rL) (eventPath true n) ->
  ContextRequestEvent.event ev =
    {| type := "context-request"; bubbles := true; composed := true |} ->
  exists w1,
    undisturbed (log (DispatchEvent n (RequestEvent ev)) w) w1 /\
    undisturbed (world (contextListener c hv sp ev false w1))
      (snd (dispatchRequest n ev w)).
Proof.
  intros [I [D F]] Ty U Ev.
  unfold dispatchRequest, dispatch.
  set (w0 := log (DispatchEvent n (RequestEvent ev)) w).
  apply invoke_sole_exact.
  - apply Forall_forall; intros x Hx.
    apply in_invocationOrder in Hx; destruct Hx as [Hx _].
    rewrite Forall_forall in F; apply (F x Hx).
  - apply NoDup_invocationOrder, distinct_NoDup; exact D.
  - apply current_dispatch; [exact (listeners w0) | exact D].
  - exact I.
  - apply in_invocationOrder; split; [exact I | ].
    rewrite Ev; simpl; split; [exact Ty | ].
    rewrite orb_true_r; exact U.
Qed.

End Exactly.

(** Settling and running the microtasks adds to the trace what the queues
    say, whatever the trace was. *)
Lemma settle_run_tail (a : Js.Awaitable) (s : Js.Settlement) (w w1 : World) :
  microtasks w1 = microtasks w -> awaiting w1 = awaiting w ->
  settled w1 = settled w ->
  exists tail,
    trace (runMicrotasks (settleAs a s w)) = trace w ++ tail /\
    trace (runMicrotasks (settleAs a s w1)) = trace w1 ++ tail.
Proof.
  intros M A S.
  rewrite !runMicrotasks_trace.
  destruct a as [v | p]; simpl.
  - rewrite M; eexists; split; reflexivity.
  - unfold settlePromise, lookupSettled; rewrite S.
    destruct (find _ (settled w)); simpl.
    + rewrite M; eexists; split; reflexivity.
    + rewrite M, A; eexists; split; reflexivity.
Qed.

Lemma settlesAs_settled (a : Js.Awaitable) (s : Js.Settlement) (w w1 : World) :
  settled w1 = settled w -> settlesAs a s w -> settlesAs a s w1.
Proof.
  intros S; destruct a as [v | p]; simpl; [auto | ].
  unfold lookupSettled; rewrite S; auto.
Qed.

Lemma deliveries_dispatch (cb : ContextCallback) (n : Node) (e : SomeEvent) :
  deliveries cb [DispatchEvent n e] = [].
Proof. reflexivity. Qed.

(** What a suspended provider adds once its awaited value has settled,
    next to the same settlement in the world without the request. *)
Lemma suspended_exact (c : Context) (h : ContextHandler) (sp : bool)
    (ev : ContextRequestEvent.t) (n : Node) (w w1 w' : World)
    (a : Js.Awaitable) (s : Js.Settlement) :
  ContextRequestEvent.context ev = c ->
  undisturbed (log (DispatchEvent n (RequestEvent ev)) w) w1 ->
  undisturbed (world (contextListener c (Handler h) sp ev false w1)) w' ->
  h ev = Js.Normal a -> settlesAs a s w ->
  exists tail,
    trace (runMicrotasks (settleAs a s w)) = trace w ++ tail /\
    trace (runMicrotasks (settleAs a s w')) =
    trace w ++ DispatchEvent n (RequestEvent ev) :: tail ++
    effects {| res_context := c;
               res_callback := ContextRequestEvent.callback ev |} s.
Proof.
  intros E [T1 [M1 [A1 S1]]] U Ha R.
  unfold contextListener in U.
  rewrite E, strictEquals_refl, Ha in U; simpl in U.
  set (k := {| res_context := c;
               res_callback := ContextRequestEvent.callback ev |}) in *.
  destruct U as [T' [M' [A' S']]].
  destruct (settle_run_tail a s w w1 M1 A1 S1) as [tail [Tw Tw1]].
  exists tail; split; [exact Tw | ].
  destruct (settle_run_tail a s (await a k w1) w' M' A' S') as [t2 [Ta Tb]].
  rewrite Tb, T', <- Ta.
  rewrite await_then_settle
    by (apply (settlesAs_settled a s w w1); [exact S1 | exact R]).
  rewrite Tw1, T1; simpl.
  rewrite <- !app_assoc; reflexivity.
Qed.

(** X2. The only provider of a context answers a request once. With a
    static value other than [undefined] the dispatch adds one call of the
    callback, with that value. With a handler whose returned value is
    fulfilled with a value other than [undefined], settling it and running
    the microtasks gives one call more than the same settlement gives
    without the request. *)
Theorem answered_exactly_once :
  forall w n c hv sp closure rL origin cb sub v,
    reg_callback rL = ContextListener closure c hv sp ->
    reg_type rL = "context-request" ->
    sole c rL (listeners w) ->
    under (reg_target rL) n ->
    v <> Js.Undefined ->
    let ev := ContextRequestEvent.new c origin cb sub in
    let w' := snd (dispatchRequest n ev w) in
    match hv with
    | Static u =>
        u = v -> deliveries cb (trace w') = deliveries cb (trace w) ++ [v]
    | Handler h =>
        forall a,
          h ev = Js.Normal a -> settlesAs a (Js.Fulfilled v) w ->
          deliveries cb
            (trace (runMicrotasks (settleAs a (Js.Fulfilled v) w'))) =
          deliveries cb
            (trace (runMicrotasks (settleAs a (Js.Fulfilled v) w))) ++ [v]
    end.
Proof.
  intros w n c hv sp closure rL origin cb sub v Cb Ty S U N ev w'.
  destruct (dispatchRequest_sole_exact c rL closure hv sp Cb ev eq_refl n w S
              Ty U eq_refl) as [w1 [U1 U2]].
  fold w' in U2.
  destruct hv as [u | h].
  - intros ->.
    destruct U2 as [T2 _]; destruct U1 as [T1 _].
    rewrite T2; unfold contextListener; simpl.
    rewrite strictEquals_refl; simpl.
    rewrite (deliver_trace _ _ _ _ N), T1; simpl.
    rewrite !deliveries_app, deliveries_delivery; simpl.
    rewrite app_nil_r; reflexivity.
  - intros a Ha R.
    destruct (suspended_exact c h sp ev n w w1 w' a (Js.Fulfilled v) eq_refl
                U1 U2 Ha R) as [tail [Tw Tw']].
    rewrite Tw', Tw.
    rewrite (effects_delivery _ _ N); simpl.
    rewrite !deliveries_app; simpl.
    rewrite !deliveries_app, deliveries_delivery.
    rewrite <- app_assoc; reflexivity.
Qed.

Lemma answered_exactly_once_witness :
  let w := snd (registerContextProvider theme (Static dark) defaultOptions
                  initialWorld) in
  let w' := snd (dispatchRequest consumer
                   (ContextRequestEvent.new theme consumer onTheme None) w) in
  deliveries onTheme (trace w') = deliveries onTheme (trace w) ++ [dark].
Proof.
  intros w w'.
  pose proof (registered_sole theme (Static dark) defaultOptions initialWorld
                wellFormed_initialWorld (Forall_nil _) eq_refl eq_refl) as S.
  pose proof (answered_exactly_once w consumer theme (Static dark) true 0
                (providerRegistration 0 theme (Static dark) defaultOptions)
                consumer onTheme None dark eq_refl eq_refl S) as H.
  specialize (H (or_intror (or_intror (or_intror (or_introl eq_refl))))).
  apply H; [discriminate | reflexivity].
Defined.

(** X3. An exception thrown by the consumer's callback is caught in the
    provider's listener: it is logged with [console.error] under the
    provider's message and is not reported by the dispatcher. For a static
    provider the dispatch adds the callback call and the log entry, nothing
    else; for a handler they are what the settlement of the awaited value
    and the microtasks add to what they give without the request. *)
Theorem callback_errors_are_logged :
  forall w n c hv sp closure rL origin cb sub v e,
    reg_callback rL = ContextListener closure c hv sp ->
    reg_type rL = "context-request" ->
    sole c rL (listeners w) ->
    under (reg_target rL) n ->
    v <> Js.Undefined ->
    cb_throws cb v = Some e ->
    let ev := ContextRequestEvent.new c origin cb sub in
    let w' := snd (dispatchRequest n ev w) in
    match hv with
    | Static u =>
        u = v ->
        trace w' =
        trace w ++ [DispatchEvent n (RequestEvent ev); Callback (cb_id cb) v;
                    ConsoleError (errorMessage c) e]
    | Handler h =>
        forall a,
          h ev = Js.Normal a -> settlesAs a (Js.Fulfilled v) w ->
          exists tail,
            trace (runMicrotasks (settleAs a (Js.Fulfilled v) w)) =
            trace w ++ tail /\
            trace (runMicrotasks (settleAs a (Js.Fulfilled v) w')) =
            trace w ++ DispatchEvent n (RequestEvent ev) :: tail ++
            [Callback (cb_id cb) v; ConsoleError (errorMessage c) e]
    end.
Proof.
  intros w n c hv sp closure rL origin cb sub v e Cb Ty S U N Th ev w'.
  destruct (dispatchRequest_sole_exact c rL closure hv sp Cb ev eq_refl n w S
              Ty U eq_refl) as [w1 [U1 U2]].
  fold w' in U2.
  destruct hv as [u | h].
  - intros ->.
    destruct U2 as [T2 _]; destruct U1 as [T1 _].
    rewrite T2; unfold contextListener; simpl.
    rewrite strictEquals_refl; simpl.
    rewrite (deliver_trace _ _ _ _ N), T1; unfold delivery; simpl.
    rewrite Th, <- app_assoc; reflexivity.
  - intros a Ha R.
    destruct (suspended_exact c h sp ev n w w1 w' a (Js.Fulfilled v) eq_refl
                U1 U2 Ha R) as [tail [Tw Tw']].
    exists tail; split; [exact Tw | ].
    rewrite Tw', (effects_delivery _ _ N); unfold delivery; simpl.
    rewrite Th; reflexivity.
Qed.

(** A consumer whose callback throws on every value. *)
Lemma callback_errors_are_logged_witness :
  let failing := {| cb_id := 3; cb_throws := fun _ => Some (Js.Text "oops") |} in
  let w := snd (registerContextProvider theme (Static dark) defaultOptions
                  initialWorld) in
  let ev := ContextRequestEvent.new theme consumer failing None in
  trace (snd (dispatchRequest consumer ev w)) =
  trace w ++ [DispatchEvent consumer (RequestEvent ev); Callback 3 dark;
              ConsoleError (errorMessage theme) (Js.Text "oops")].
Proof.
  intros failing w ev.
  pose proof (registered_sole theme (Static dark) defaultOptions initialWorld
                wellFormed_initialWorld (Forall_nil _) eq_refl eq_refl) as S.
  pose proof (callback_errors_are_logged w consumer theme (Static dark) true 0
                (providerRegistration 0 theme (Static dark) defaultOptions)
                consumer failing None dark (Js.Text "oops") eq_refl eq_refl S)
    as H.
  specialize (H (or_intror (or_intror (or_intror (or_introl eq_refl))))).
  apply H; [discriminate | reflexivity | reflexivity].
Defined.

(* ------------------------------------------------------------------ *)
(** ** The world a registration leaves *)

Lemma grows_dispatchProvider (n : Node) (e : ContextProviderEvent.t)
    (w : World) :
  grows notAnnouncement (log (DispatchEvent n (ProviderEvent e)) w)
    (snd (dispatchProvider n e w)).
Proof.
  unfold dispatchProvider, dispatch.
  apply grows_invoke;
    [apply callWithProvider_escaped | apply grows_callWithProvider].
Qed.

Lemma shrinks_keeps (ls ls' : list Registration) (x : Registration) :
  shrinks ls ls' -> reg_once x = false -> In x ls -> In x ls'.
Proof.
  intros [f [-> K]] O I; apply filter_In; split; [exact I | apply K; exact O].
Qed.

Lemma filter_id {A : Type} (f : A -> bool) (l : list A) :
  (forall x, In x l -> f x = true) -> filter f l = l.
Proof.
  induction l as [ | a l IH]; simpl; intros H; [reflexivity | ].
  rewrite (H a (or_introl eq_refl)), IH; [reflexivity | ].
  intros x Hx; apply H; right; exact Hx.
Qed.

Lemma shrinks_lasting (ls ls' : list Registration) :
  shrinks ls ls' -> Forall (fun r => reg_once r = false) ls -> ls' = ls.
Proof.
  intros [f [-> K]] F; apply filter_id.
  intros x Hx; rewrite Forall_forall in F; apply K, F, Hx.
Qed.

(** The listener list, the closure counter and the signals after a call
    of [registerContextProvider]. *)
Lemma register_shape (c : Context) (hv : HandlerOrValue)
    (options : ProviderOptions) (w : World) :
  WellFormed w ->
  let rL := providerRegistration (closures w) c hv options in
  let reg := registerContextProvider c hv options w in
  shrinks (if isAborted (signal (addEventListenerOptions options)) w
           then listeners w else listeners w ++ [rL])
    (listeners (snd reg)) /\
  closures (snd reg) = S (closures w) /\
  aborted (snd reg) = aborted w /\
  WellFormed (snd reg) /\
  fst reg = {| listenerTarget := reg_target rL; listener := reg_callback rL |}.
Proof.
  intros WF rL reg.
  unfold reg, registerContextProvider; simpl.
  set (t := match target options with Some t => t | None => document_body end).
  set (sp := match stopPropagation options with
             | Some b => b
             | None => true
             end).
  set (w1 := addEventListener _ _ _ _ _).
  assert (W1 : WellFormed w1).
  { apply wellFormed_addEventListener;
      [ | apply wellFormed_withClosures; exact WF].
    simpl; intros i E; inversion E; lia. }
  assert (C1 : closures w1 = S (closures w) /\ aborted w1 = aborted w).
  { unfold w1, addEventListener.
    destruct (isAborted _ _); [split; reflexivity | ].
    destruct (existsb _ _); split; reflexivity. }
  assert (L1 : listeners w1 =
               if isAborted (signal (addEventListenerOptions options)) w
               then listeners w else listeners w ++ [rL]).
  { destruct (isAborted _ w) eqn:A.
    - unfold w1, addEventListener.
      unfold isAborted in *; simpl; rewrite A; reflexivity.
    - apply (register_listeners c hv options w WF A). }
  destruct (grows_dispatchProvider t (ContextProviderEvent.new c t) w1)
    as [_ [_ [_ [_ [Cl Ab]]]]].
  simpl in Cl, Ab.
  split; [rewrite <- L1; apply dispatchProvider_shrinks; exact (proj1 W1) | ].
  split; [rewrite Cl; exact (proj1 C1) | ].
  split; [rewrite Ab; exact (proj2 C1) | ].
  split; [apply wellFormed_dispatchProvider; exact W1 | reflexivity].
Qed.

(** Every entry left after a registration was there before, or is the
    provider's. *)
Lemma register_entries (c : Context) (hv : HandlerOrValue)
    (options : ProviderOptions) (w : World) (x : Registration) :
  WellFormed w ->
  In x (listeners (snd (registerContextProvider c hv options w))) ->
  In x (listeners w) \/
  (x = providerRegistration (closures w) c hv options /\
   isAborted (signal (addEventListenerOptions options)) w = false).
Proof.
  intros WF I.
  destruct (register_shape c hv options w WF) as [Sh _].
  apply (shrinks_In _ _ _ Sh) in I.
  destruct (isAborted _ w); [left; exact I | ].
  apply in_app_or in I; destruct I as [I | [<- | []]]; auto.
Qed.

Lemma register_keeps (c : Context) (hv : HandlerOrValue)
    (options : ProviderOptions) (w : World) (x : Registration) :
  WellFormed w -> reg_once x = false -> In x (listeners w) ->
  In x (listeners (snd (registerContextProvider c hv options w))).
Proof.
  intros WF O I.
  destruct (register_shape c hv options w WF) as [Sh _].
  apply (shrinks_keeps _ _ _ Sh O).
  destruct (isAborted _ w); [exact I | apply in_or_app; left; exact I].
Qed.

Lemma register_provider_In (c : Context) (hv : HandlerOrValue)
    (options : ProviderOptions) (w : World) :
  WellFormed w ->
  once (addEventListenerOptions options) = false ->
  isAborted (signal (addEventListenerOptions options)) w = false ->
  In (providerRegistration (closures w) c hv options)
     (listeners (snd (registerContextProvider c hv options w))).
Proof.
  intros WF O A.
  destruct (register_shape c hv options w WF) as [Sh _].
  apply (shrinks_keeps _ _ (providerRegistration (closures w) c hv options) Sh O).
  rewrite A; apply in_or_app; right; left; reflexivity.
Qed.

(* ------------------------------------------------------------------ *)
(** ** The cleanup function *)

Lemma runCleanup_listeners (cl : Cleanup) (w : World) :
  listeners (runCleanup cl w) =
  filter (fun r => negb (sameRegistration (listenerTarget cl) "context-request"
                           (listener cl) false r)) (listeners w).
Proof. reflexivity. Qed.

Lemma runCleanup_trace (cl : Cleanup) (w : World) :
  trace (runCleanup cl w) =
  trace w ++ [RemoveEventListener (listenerTarget cl) "context-request"
                (listener cl)].
Proof. reflexivity. Qed.

(** Whether the cleanup's [removeEventListener] call matches the
    provider's entry: only when it was not added with [capture]. *)
Lemma cleanup_matches (closure : nat) (c : Context) (hv : HandlerOrValue)
    (options : ProviderOptions) :
  let rL := providerRegistration closure c hv options in
  sameRegistration (reg_target rL) "context-request" (reg_callback rL) false rL
  = negb (capture (addEventListenerOptions options)).
Proof.
  unfold sameRegistration, providerRegistration; simpl.
  rewrite Node_eqb_refl, Nat.eqb_refl; simpl.
  destruct (capture _); reflexivity.
Qed.

Lemma closure_differs (n : Node) (t : string) (l : Listener) (cap : bool)
    (i : nat) (x : Registration) :
  closureOf l = Some i -> closureOf (reg_callback x) <> Some i ->
  sameRegistration n t l cap x = false.
Proof.
  intros Cl N; unfold sameRegistration.
  destruct l as [j c hv sp | | ]; try discriminate Cl.
  simpl in Cl; inversion Cl; subst j.
  destruct (reg_callback x) as [j c' hv' sp' | | ]; simpl in *;
    try (rewrite andb_false_r; reflexivity).
  assert (E : Nat.eqb j i = false)
    by (apply Nat.eqb_neq; intros ->; apply N; reflexivity).
  rewrite E, andb_false_r; reflexivity.
Qed.

Lemma older_closure (w : World) (x : Registration) :
  WellFormed w -> In x (listeners w) ->
  closureOf (reg_callback x) <> Some (closures w).
Proof.
  intros [_ F] I; rewrite Forall_forall in F; specialize (F x I).
  destruct (closureOf (reg_callback x)); [ | discriminate].
  intros E; inversion E; lia.
Qed.

(** After the cleanup of a provider added without [capture], its closure
    listens nowhere and every entry left was there before the
    registration. *)
Lemma cleanup_removes (c : Context) (hv : HandlerOrValue)
    (options : ProviderOptions) (w : World) :
  WellFormed w ->
  capture (addEventListenerOptions options) = false ->
  let reg := registerContextProvider c hv options w in
  forall x, In x (listeners (runCleanup (fst reg) (snd reg))) ->
            In x (listeners w).
Proof.
  intros WF Cap reg x I.
  destruct (register_shape c hv options w WF) as [_ [_ [_ [_ F]]]].
  fold reg in F.
  rewrite runCleanup_listeners, F in I; simpl in I.
  apply filter_In in I; destruct I as [I G].
  destruct (register_entries c hv options w x WF I) as [J | [-> _]];
    [exact J | ].
  pose proof (cleanup_matches (closures w) c hv options) as M.
  simpl in M, G; rewrite M, Cap in G; discriminate G.
Qed.

(** X4. The function [registerContextProvider] returns undoes the
    registration of a provider that was not added with [capture]: after it
    the provider's closure listens nowhere, no context has a provider it had
    not before the registration, and a request for the provider's context,
    if there was no provider of it before, is neither stopped nor answered.
    When no listener of the page is a [once] listener the list of listeners
    is the one before the registration. *)
Theorem cleanup_undoes_registration :
  forall before c hv options,
    capture (addEventListenerOptions options) = false ->
    let w := run before initialWorld in
    let reg := registerContextProvider c hv options w in
    let w' := runCleanup (fst reg) (snd reg) in
    unheard (closures w) (listeners w') /\
    (forall c', noProviderFor c' (listeners w) ->
                noProviderFor c' (listeners w')) /\
    (Forall (fun r => reg_once r = false) (listeners w) ->
     listeners w' = listeners w) /\
    (noProviderFor c (listeners w) ->
     forall n origin cb sub,
       let ev := ContextRequestEvent.new c origin cb sub in
       fst (dispatchRequest n ev w') = false /\
       deliveries cb (trace (snd (dispatchRequest n ev w'))) =
       deliveries cb (trace w')).
Proof.
  intros before c hv options Cap w reg w'.
  destruct (run_reachable before initialWorld wellFormed_initialWorld eq_refl)
    as [WF _].
  fold w in WF.
  pose proof (cleanup_removes c hv options w WF Cap) as Old.
  fold reg in Old; fold w' in Old.
  assert (NP : forall c', noProviderFor c' (listeners w) ->
                          noProviderFor c' (listeners w')).
  { intros c' H; apply Forall_forall; intros x Hx.
    unfold noProviderFor in H; rewrite Forall_forall in H.
    apply H, Old, Hx. }
  split; [ | split; [exact NP | split]].
  - apply Forall_forall; intros x Hx.
    apply (older_closure w x WF), Old, Hx.
  - intros F.
    destruct (register_shape c hv options w WF) as [Sh [_ [_ [_ Fr]]]].
    fold reg in Sh, Fr.
    set (rL := providerRegistration (closures w) c hv options) in *.
    pose proof (cleanup_matches (closures w) c hv options) as M.
    cbv zeta in M; fold rL in M; rewrite Cap in M.
    set (g := fun r => negb (sameRegistration (reg_target rL) "context-request"
                               (reg_callback rL) false r)).
    assert (Old' : filter g (listeners w) = listeners w).
    { apply filter_id; intros x Hx; unfold g, rL; simpl.
      rewrite fresh_closure; [reflexivity | exact WF | exact Hx]. }
    assert (G : g rL = false) by (unfold g; rewrite M; reflexivity).
    unfold w'; rewrite runCleanup_listeners, Fr.
    cbn [listenerTarget listener]; fold g.
    destruct (isAborted _ w).
    + rewrite (shrinks_lasting _ _ Sh F); exact Old'.
    + destruct Sh as [f [L K]]; rewrite L, filter_app, filter_app.
      rewrite (filter_id f (listeners w))
        by (intros x Hx; rewrite Forall_forall in F; apply K, F, Hx).
      rewrite Old'.
      cbn [filter]; destruct (f rL); cbn [filter]; [rewrite G | ];
        apply app_nil_r.
  - intros H n origin cb sub ev.
    destruct (dispatchRequest_passes n ev w' (NP c H)) as [Fl [T _]].
    split; [exact Fl | ].
    rewrite T; simpl; rewrite deliveries_app; simpl; apply app_nil_r.
Qed.

(** A page with a provider of another context; the theme's provider comes
    and goes. *)
Lemma cleanup_undoes_registration_witness :
  let before :=
    [Register (CtxString "locale") (Static (Js.Text "fr")) defaultOptions] in
  let w := run before initialWorld in
  let reg := registerContextProvider theme (Static dark) defaultOptions w in
  listeners (runCleanup (fst reg) (snd reg)) = listeners w.
Proof.
  intros before w reg.
  destruct (cleanup_undoes_registration before theme (Static dark)
              defaultOptions eq_refl) as [_ [_ [R _]]].
  apply R; repeat constructor.
Defined.

(** X5. Every call of [registerContextProvider] makes a listener of its
    own, also for the same context, value and options; so of two
    registrations the cleanup of one leaves the listener of the other in
    place, whichever came first. *)
Theorem cleanups_are_independent :
  forall before c1 hv1 o1 c2 hv2 o2,
    let w := run before initialWorld in
    let reg1 := registerContextProvider c1 hv1 o1 w in
    let reg2 := registerContextProvider c2 hv2 o2 (snd reg1) in
    listener (fst reg1) <> listener (fst reg2) /\
    (once (addEventListenerOptions o2) = false ->
     isAborted (signal (addEventListenerOptions o2)) w = false ->
     In (providerRegistration (closures (snd reg1)) c2 hv2 o2)
        (listeners (runCleanup (fst reg1) (snd reg2)))) /\
    (once (addEventListenerOptions o1) = false ->
     isAborted (signal (addEventListenerOptions o1)) w = false ->
     In (providerRegistration (closures w) c1 hv1 o1)
        (listeners (runCleanup (fst reg2) (snd reg2)))).
Proof.
  intros before c1 hv1 o1 c2 hv2 o2 w reg1 reg2.
  destruct (run_reachable before initialWorld wellFormed_initialWorld eq_refl)
    as [WF _].
  fold w in WF.
  destruct (register_shape c1 hv1 o1 w WF) as [_ [C1 [A1 [WF1 F1]]]].
  fold reg1 in C1, A1, WF1, F1.
  destruct (register_shape c2 hv2 o2 (snd reg1) WF1) as [_ [_ [_ [_ F2]]]].
  fold reg2 in F2.
  split; [ | split].
  - rewrite F1, F2; cbn [listener reg_callback providerRegistration].
    intros E; apply (f_equal closureOf) in E; cbn [closureOf] in E.
    rewrite C1 in E; inversion E; lia.
  - intros O A.
    rewrite runCleanup_listeners, F1.
    cbn [listenerTarget listener reg_callback providerRegistration].
    apply filter_In; split.
    + apply register_provider_In; [exact WF1 | exact O | ].
      unfold isAborted in *; rewrite A1; exact A.
    + rewrite closure_differs with (i := closures w);
        [reflexivity | reflexivity | ].
      cbn [closureOf reg_callback providerRegistration].
      rewrite C1; intros E; inversion E; lia.
  - intros O A.
    rewrite runCleanup_listeners, F2.
    cbn [listenerTarget listener reg_callback providerRegistration].
    apply filter_In; split.
    + apply register_keeps; [exact WF1 | exact O | ].
      apply register_provider_In; assumption.
    + rewrite closure_differs with (i := closures (snd reg1));
        [reflexivity | reflexivity | ].
      cbn [closureOf reg_callback providerRegistration].
      rewrite C1; intros E; inversion E; lia.
Qed.

(* ------------------------------------------------------------------ *)
(** ** The options handed on to [addEventListener] *)

Lemma register_announcements (c : Context) (hv : HandlerOrValue)
    (options : ProviderOptions) (w : World) :
  let t := match target options with Some t => t | None => document_body end in
  announcements (trace (snd (registerContextProvider c hv options w))) =
  announcements (trace w) ++ [(t, ContextProviderEvent.new c t)].
Proof.
  intros t.
  destruct (register_trace c hv options w) as [rest [T F]].
  fold t in T.
  apply announcements_none in F.
  rewrite T; unfold announcements in *; rewrite flat_map_app; simpl.
  rewrite F; reflexivity.
Qed.

Lemma noProviderFor_sub (c : Context) (ls ls' : list Registration) :
  (forall x, In x ls' -> In x ls) -> noProviderFor c ls -> noProviderFor c ls'.
Proof.
  intros S H; apply Forall_forall; intros x Hx.
  unfold noProviderFor in H; rewrite Forall_forall in H; apply H, S, Hx.
Qed.

Lemma unheard_sub (w : World) (ls' : list Registration) :
  WellFormed w -> (forall x, In x ls' -> In x (listeners w)) ->
  unheard (closures w) ls'.
Proof.
  intros WF S; apply Forall_forall; intros x Hx.
  apply (older_closure w x WF), S, Hx.
Qed.

(** What a request that nobody answers leaves of the callback's calls. *)
Lemma unanswered (n : Node) (c : Context) (origin : Node)
    (cb : ContextCallback) (sub : option bool) (w : World) :
  noProviderFor c (listeners w) ->
  let ev := ContextRequestEvent.new c origin cb sub in
  fst (dispatchRequest n ev w) = false /\
  deliveries cb (trace (snd (dispatchRequest n ev w))) =
  deliveries cb (trace w).
Proof.
  intros NP ev.
  destruct (dispatchRequest_passes n ev w NP) as [Fl [T _]].
  split; [exact Fl | ].
  rewrite T; simpl; rewrite deliveries_app; simpl; apply app_nil_r.
Qed.

(** X7. A provider registered with a signal that has already fired is
    announced like any other, but its listener is never added: the
    listeners after the call were all there before it, and a request for the
    provider's context, if there was no provider of it before, is neither
    stopped nor answered. *)
Theorem aborted_provider_only_announces :
  forall before c hv options,
    let w := run before initialWorld in
    isAborted (signal (addEventListenerOptions options)) w = true ->
    let t :=
      match target options with Some t => t | None => document_body end in
    let reg := registerContextProvider c hv options w in
    announcements (trace (snd reg)) =
    announcements (trace w) ++ [(t, ContextProviderEvent.new c t)] /\
    (forall x, In x (listeners (snd reg)) -> In x (listeners w)) /\
    unheard (closures w) (listeners (snd reg)) /\
    (noProviderFor c (listeners w) ->
     forall n origin cb sub,
       let ev := ContextRequestEvent.new c origin cb sub in
       fst (dispatchRequest n ev (snd reg)) = false /\
       deliveries cb (trace (snd (dispatchRequest n ev (snd reg)))) =
       deliveries cb (trace (snd reg))).
Proof.
  intros before c hv options w A t reg.
  destruct (run_reachable before initialWorld wellFormed_initialWorld eq_refl)
    as [WF _].
  fold w in WF.
  assert (Old : forall x, In x (listeners (snd reg)) -> In x (listeners w)).
  { intros x Hx.
    destruct (register_entries c hv options w x WF Hx) as [I | [_ N]];
      [exact I | congruence]. }
  split; [apply register_announcements | ].
  split; [exact Old | ].
  split; [apply unheard_sub; assumption | ].
  intros NP n origin cb sub.
  apply unanswered, (noProviderFor_sub c (listeners w)); assumption.
Qed.

Lemma aborted_provider_only_announces_witness :
  let options :=
    {| target := None; stopPropagation := None;
       addEventListenerOptions :=
         {| capture := false; once := false; passive := false;
            signal := Some 7 |} |} in
  let w := run [Abort 7] initialWorld in
  let reg := registerContextProvider theme (Static dark) options w in
  announcements (trace (snd reg)) =
  [(document_body, ContextProviderEvent.new theme document_body)] /\
  deliveries onTheme
    (trace (snd (dispatchRequest consumer
                   (ContextRequestEvent.new theme consumer onTheme None)
                   (snd reg)))) = [].
Proof.
  intros options w reg.
  destruct (aborted_provider_only_announces [Abort 7] theme (Static dark)
              options eq_refl) as [An [_ [_ H]]].
  split; [exact An | ].
  destruct (H (Forall_nil _) consumer consumer onTheme None) as [_ D].
  exact D.
Defined.

(** X8. A provider registered with a signal goes when the signal fires:
    after the abort its closure listens nowhere, every listener left was
    there before the registration, the listeners that were added with no
    signal or another one are all still there, and a request for the
    provider's context, if there was no provider of it before, is neither
    stopped nor answered. *)
Theorem abort_removes_provider :
  forall before c hv options k,
    signal (addEventListenerOptions options) = Some k ->
    let w := run before initialWorld in
    let reg := registerContextProvider c hv options w in
    let w' := step (Abort k) (snd reg) in
    unheard (closures w) (listeners w') /\
    (forall x, In x (listeners w') -> In x (listeners w)) /\
    (forall x, In x (listeners (snd reg)) -> reg_signal x <> Some k ->
               In x (listeners w')) /\
    (noProviderFor c (listeners w) ->
     forall n origin cb sub,
       let ev := ContextRequestEvent.new c origin cb sub in
       fst (dispatchRequest n ev w') = false /\
       deliveries cb (trace (snd (dispatchRequest n ev w'))) =
       deliveries cb (trace (snd reg))).
Proof.
  intros before c hv options k Sg w reg w'.
  destruct (run_reachable before initialWorld wellFormed_initialWorld eq_refl)
    as [WF _].
  fold w in WF.
  assert (Old : forall x, In x (listeners w') -> In x (listeners w)).
  { intros x Hx; simpl in Hx.
    apply filter_In in Hx; destruct Hx as [Hx G].
    destruct (register_entries c hv options w x WF Hx) as [I | [E _]];
      [exact I | ].
    rewrite E in G; simpl in G; rewrite Sg, Nat.eqb_refl in G.
    discriminate G. }
  split; [apply unheard_sub; assumption | ].
  split; [exact Old | ].
  split.
  - intros x Hx N; simpl; apply filter_In; split; [exact Hx | ].
    destruct (reg_signal x) as [j | ]; [ | reflexivity].
    apply negb_true_iff, Nat.eqb_neq; congruence.
  - intros NP n origin cb sub ev.
    change (trace (snd reg)) with (trace w').
    apply unanswered, (noProviderFor_sub c (listeners w)); assumption.
Qed.

Lemma abort_removes_provider_witness :
  let options :=
    {| target := None; stopPropagation := None;
       addEventListenerOptions :=
         {| capture := false; once := false; passive := false;
            signal := Some 7 |} |} in
  let reg := registerContextProvider theme (Static dark) options initialWorld in
  unheard 0 (listeners (step (Abort 7) (snd reg))).
Proof.
  intros options reg.
  exact (proj1 (abort_removes_provider [] theme (Static dark) options 7
                  eq_refl)).
Defined.

Lemma invoke_request_shrinks (order : list Registration)
    (ev : ContextRequestEvent.t) (st : bool) (w : World) :
  current order w ->
  shrinks (listeners w) (listeners (snd (invoke callWithRequest order ev st w))).
Proof.
  apply (invoke_shrinks _ callWithRequest).
  - intros l e s w0 _; rewrite callWithRequest_listeners; apply shrinks_refl.
  - apply callWithRequest_escaped.
Qed.

Section Once.

Variable c : Context.
Variable rL : Registration.
Hypothesis rL_once : reg_once rL = true.
Variable ev : ContextRequestEvent.t.
Hypothesis ev_context : ContextRequestEvent.context ev = c.

(** A [once] listener that a dispatch reaches is gone when the dispatch
    returns, whatever the listener did with the event. *)
Lemma invoke_consumes (order : list Registration) (w : World) :
  Forall (others c rL) order -> current order w ->
  In rL (listeners w) -> In rL order ->
  ~ In rL (listeners (snd (invoke callWithRequest order ev false w))).
Proof.
  revert w; induction order as [ | r rest IH]; intros w F C I O;
    [destruct O | ].
  apply Forall_cons_iff in F; destruct F as [Hr Hrest].
  simpl.
  destruct (isRegistered r w) eqn:R; simpl.
  - destruct C as [D C0].
    destruct (C0 r (or_introl eq_refl)) as [Ir | Nx]; [ | congruence].
    rewrite callWithRequest_escaped.
    pose proof (once_shrinks r w D Ir) as S1.
    set (w1 := if reg_once r then _ else w) in *.
    assert (C2 : current rest
                   (world (callWithRequest (reg_callback r) ev false w1))).
    { eapply current_shrinks;
        [ | split; [exact D | intros x Hx; apply C0; right; exact Hx]].
      rewrite callWithRequest_listeners; exact S1. }
    destruct (distinct_In _ _ _ D Ir I) as [E | S].
    + (* the listener itself: removed before it is called *)
      intros J.
      apply (shrinks_In _ _ _ (invoke_request_shrinks rest ev _ _ C2)) in J.
      rewrite callWithRequest_listeners in J.
      unfold w1 in J; rewrite E, rL_once in J; simpl in J.
      apply filter_In in J; destruct J as [_ J].
      fold (sameAs rL rL) in J; rewrite sameAs_refl in J; discriminate J.
    + assert (Ne : r <> rL)
        by (intros Er; rewrite Er, sameAs_refl in S; discriminate).
      destruct Hr as [Er | H]; [congruence | ].
      destruct O as [Er | O]; [congruence | ].
      destruct (harmless_undisturbed c _ ev false w1 H ev_context) as [Fl _].
      rewrite Fl.
      apply IH; auto.
      rewrite callWithRequest_listeners.
      unfold w1; destruct (reg_once r); [ | exact I].
      simpl; apply filter_In; split; [exact I | ].
      fold (sameAs r rL); rewrite S; reflexivity.
  - assert (Ne : r <> rL).
    { intros Er; rewrite Er, (isRegistered_In _ _ I) in R; discriminate. }
    destruct O as [Er | O]; [congruence | ].
    apply IH; auto; eapply current_tail; eauto.
Qed.

End Once.

(** X9. The [once] option reaches [addEventListener] as it is, so the
    host removes a provider registered with it at the first request event
    that arrives at the root of the provider's tree, of whatever context:
    after a request that no other provider stops, the provider's closure
    listens nowhere, and if the request was for another context no callback
    was called for it. *)
Theorem once_provider_is_consumed :
  forall before c hv options c' n origin cb sub,
    once (addEventListenerOptions options) = true ->
    let w := run before initialWorld in
    noProviderFor c' (listeners w) ->
    let t :=
      match target options with Some t => t | None => document_body end in
    getRootNode n = getRootNode t ->
    let reg := registerContextProvider c hv options w in
    let ev := ContextRequestEvent.new c' origin cb sub in
    let w' := snd (dispatchRequest n ev (snd reg)) in
    unheard (closures w) (listeners w') /\
    (c' <> c -> trace w' = trace (snd reg) ++ [DispatchEvent n (RequestEvent ev)]).
Proof.
  intros before c hv options c' n origin cb sub O w NP t R reg ev w'.
  destruct (run_reachable before initialWorld wellFormed_initialWorld eq_refl)
    as [WF _].
  fold w in WF.
  destruct (register_shape c hv options w WF) as [_ [_ [_ [WF1 _]]]].
  fold reg in WF1.
  set (rL := providerRegistration (closures w) c hv options).
  pose proof (dispatchRequest_shrinks n ev (snd reg) (proj1 WF1)) as Sh.
  fold w' in Sh.
  assert (Ent : forall x, In x (listeners (snd reg)) ->
                          In x (listeners w) \/ x = rL).
  { intros x Hx.
    destruct (register_entries c hv options w x WF Hx) as [I | [E _]]; auto. }
  split.
  - assert (Gone : ~ In rL (listeners w')).
    { destruct (isRegistered rL (snd reg)) eqn:IR.
      2:{ intros J; apply (shrinks_In _ _ _ Sh) in J.
          rewrite (isRegistered_In _ _ J) in IR; discriminate IR. }
      assert (I : In rL (listeners (snd reg))).
      { unfold isRegistered in IR; apply existsb_exists in IR.
        destruct IR as [y [Hy Sy]].
        destruct (Ent y Hy) as [J | J]; [ | rewrite <- J; exact Hy].
        unfold rL in Sy; simpl in Sy.
        rewrite fresh_closure in Sy; [discriminate Sy | exact WF | exact J]. }
      unfold w', dispatchRequest, dispatch.
      apply (invoke_consumes c' rL O ev eq_refl).
      - apply Forall_forall; intros x Hx.
        apply in_invocationOrder in Hx; destruct Hx as [Hx _].
        destruct (Ent x Hx) as [J | J]; [right | left; exact J].
        unfold noProviderFor in NP; rewrite Forall_forall in NP.
        apply NP, J.
      - apply current_dispatch; [exact (listeners w) | exact (proj1 WF1)].
      - exact I.
      - apply in_invocationOrder; split; [exact I | ].
        simpl; split; [reflexivity | ].
        rewrite orb_true_r; fold t; rewrite <- R.
        apply getRootNode_on_path. }
    apply Forall_forall; intros x Hx.
    destruct (Ent x (shrinks_In _ _ _ Sh Hx)) as [J | J].
    + apply (older_closure w x WF J).
    + exfalso; apply Gone; rewrite <- J; exact Hx.
  - intros Ne.
    assert (NP1 : noProviderFor c' (listeners (snd reg))).
    { apply Forall_forall; intros x Hx.
      destruct (Ent x Hx) as [J | ->].
      - unfold noProviderFor in NP; rewrite Forall_forall in NP; apply NP, J.
      - simpl; congruence. }
    apply (dispatchRequest_passes n ev (snd reg) NP1).
Qed.

(** A [once] provider of the theme is used up by a request for the
    locale. *)
Lemma once_provider_is_consumed_witness :
  let options :=
    {| target := None; stopPropagation := None;
       addEventListenerOptions :=
         {| capture := false; once := true; passive := false;
            signal := None |} |} in
  let reg := registerContextProvider theme (Static dark) options initialWorld in
  let ev := ContextRequestEvent.new (CtxString "locale") consumer onTheme None in
  unheard 0 (listeners (snd (dispatchRequest consumer ev (snd reg)))).
Proof.
  intros options reg ev.
  exact (proj1 (once_provider_is_consumed [] theme (Static dark) options
                  (CtxString "locale") consumer consumer onTheme None eq_refl
                  (Forall_nil _) eq_refl)).
Defined.

(* ------------------------------------------------------------------ *)
(** ** A registration nobody hears *)

Lemma addEventListener_frame (n : Node) (t : string) (l : Listener)
    (o : AddEventListenerOptions) (w : World) :
  let w' := addEventListener n t l o w in
  trace w' = trace w ++ [AddEventListener n t l o] /\
  microtasks w' = microtasks w /\ awaiting w' = awaiting w /\
  settled w' = settled w /\ pending w' = pending w /\
  closures w' = closures w /\ aborted w' = aborted w /\
  (forall x, In x (listeners w') ->
             In x (listeners w) \/ (reg_type x = t /\ reg_callback x = l)).
Proof.
  unfold addEventListener.
  destruct (isAborted _ _); [repeat split; auto | ].
  destruct (existsb _ _); [repeat split; auto | ].
  repeat split; simpl.
  intros x Hx; apply in_app_or in Hx; destruct Hx as [Hx | [<- | []]]; auto.
Qed.

(** X10. The announcement of a registration calls no one when nobody
    listens for announcements (no resolution buffer is attached): the call
    adds its [addEventListener] and its [dispatchEvent] to the trace and
    nothing else, and it queues nothing. So a request dispatched before the
    provider registered stays unanswered: after the request and the
    registration the callback has not been called. *)
Theorem unheard_announcement_delivers_nothing :
  forall w c hv options,
    Forall (fun r => reg_type r <> "context-provider") (listeners w) ->
    let t :=
      match target options with Some t => t | None => document_body end in
    let reg := registerContextProvider c hv options w in
    trace (snd reg) =
    trace w ++
    [AddEventListener (getRootNode t) "context-request" (listener (fst reg))
       (addEventListenerOptions options);
     DispatchEvent t (ProviderEvent (ContextProviderEvent.new c t))] /\
    microtasks (snd reg) = microtasks w /\ awaiting (snd reg) = awaiting w /\
    pending (snd reg) = pending w /\
    (noProviderFor c (listeners w) -> distinct (listeners w) ->
     forall n cb sub,
       let w' := run [Request n c cb sub; Register c hv options] w in
       deliveries cb (trace w') = deliveries cb (trace w) /\
       microtasks w' = microtasks w /\ awaiting w' = awaiting w).
Proof.
  assert (Main : forall w c hv options,
            Forall (fun r => reg_type r <> "context-provider") (listeners w) ->
            let t :=
              match target options with Some t => t | None => document_body end in
            let reg := registerContextProvider c hv options w in
            trace (snd reg) =
            trace w ++
            [AddEventListener (getRootNode t) "context-request"
               (listener (fst reg)) (addEventListenerOptions options);
             DispatchEvent t (ProviderEvent (ContextProviderEvent.new c t))] /\
            microtasks (snd reg) = microtasks w /\
            awaiting (snd reg) = awaiting w /\
            pending (snd reg) = pending w).
  { intros w c hv options F t reg.
    unfold reg, registerContextProvider; simpl; fold t.
    set (l := ContextListener _ _ _ _).
    destruct (addEventListener_frame (getRootNode t) "context-request" l
                (addEventListenerOptions options)
                (withClosures (S (closures w)) w))
      as [T [M [A [_ [P [_ [_ L]]]]]]].
    set (w1 := addEventListener _ _ _ _ _) in *.
    unfold dispatchProvider, dispatch.
    assert (E : invocationOrder
                  (listeners (log (DispatchEvent t
                                     (ProviderEvent
                                        (ContextProviderEvent.new c t))) w1))
                  (ContextProviderEvent.event (ContextProviderEvent.new c t)) t
                = []).
    { destruct (invocationOrder _ _ _) as [ | x rest] eqn:Q; [reflexivity | ].
      assert (I : In x (x :: rest)) by (left; reflexivity).
      rewrite <- Q in I; apply in_invocationOrder in I.
      destruct I as [I [Ty _]]; simpl in I, Ty.
      destruct (L x I) as [J | [J _]]; [ | rewrite J in Ty; discriminate Ty].
      rewrite Forall_forall in F; destruct (F x J Ty). }
    rewrite E; simpl.
    rewrite T, M, A, P; simpl.
    rewrite <- app_assoc; repeat split. }
  intros w c hv options F t reg.
  destruct (Main w c hv options F) as [T [M [A P]]].
  fold t in T; fold reg in T, M, A, P.
  split; [exact T | split; [exact M | split; [exact A | split; [exact P | ]]]].
  intros NP D n cb sub w'.
  set (ev := ContextRequestEvent.new c n cb sub).
  change w' with (snd (registerContextProvider c hv options
                         (snd (dispatchRequest n ev w)))).
  destruct (dispatchRequest_passes n ev w NP) as [_ [T1 [M1 [A1 _]]]].
  destruct (Main (snd (dispatchRequest n ev w)) c hv options)
    as [T2 [M2 [A2 _]]].
  - apply Forall_forall; intros x Hx.
    apply (shrinks_In _ _ _ (dispatchRequest_shrinks n ev w D)) in Hx.
    rewrite Forall_forall in F; apply F, Hx.
  - rewrite T2, M2, A2, T1, M1, A1; simpl.
    rewrite !deliveries_app; simpl; rewrite !app_nil_r; auto.
Qed.

(** On a page without a resolution buffer the consumer asks first and the
    provider comes later: the callback is never called. *)
Lemma unheard_announcement_delivers_nothing_witness :
  deliveries onTheme
    (trace (run [Request consumer theme onTheme (Some true);
                 Register theme (Static dark) defaultOptions] initialWorld))
  = [].
Proof.
  destruct (unheard_announcement_delivers_nothing initialWorld theme
              (Static dark) defaultOptions (Forall_nil _))
    as [_ [_ [_ [_ H]]]].
  destruct (H (Forall_nil _) I consumer onTheme (Some true)) as [D _].
  exact D.
Defined.

(* ------------------------------------------------------------------ *)
(** ** [registerContextProviders] *)

Lemma registerContextProviders_entries (providers : Providers)
    (options : ProviderOptions) (w : World) :
  registerContextProviders providers options w =
  registerContextProviders (OfMap (entriesOf providers)) options w.
Proof. destruct providers; reflexivity. Qed.

Section Bulk.

Variable options : ProviderOptions.

(** The loop of [registerContextProviders] pushes on [cleanups]: what was
    there stays in front. *)
Lemma registerContextProviders_acc (es : list (Context * HandlerOrValue))
    (cs : list Cleanup) (w : World) :
  fold_left
    (fun acc e =>
       let (cleanup, w) :=
         registerContextProvider (fst e) (snd e) options (snd acc) in
       (fst acc ++ [cleanup], w)) es (cs, w) =
  (cs ++ fst (registerContextProviders (OfMap es) options w),
   snd (registerContextProviders (OfMap es) options w)).
Proof.
  unfold registerContextProviders; cbn [entriesOf].
  set (f := fun (acc : list Cleanup * World) (e : Context * HandlerOrValue) =>
              let (cleanup, w) :=
                registerContextProvider (fst e) (snd e) options (snd acc) in
              (fst acc ++ [cleanup], w)).
  assert (Hf : forall cs w e,
            f (cs, w) e =
            (cs ++ [fst (registerContextProvider (fst e) (snd e) options w)],
             snd (registerContextProvider (fst e) (snd e) options w))).
  { intros cs0 w0 e; unfold f; cbn [fst snd].
    destruct (registerContextProvider (fst e) (snd e) options w0);
      reflexivity. }
  revert cs w; induction es as [ | e es IH]; intros cs w; cbn [fold_left].
  - cbn [fst snd]; rewrite app_nil_r; reflexivity.
  - rewrite !Hf, IH, (IH ([] ++ _)).
    cbn [fst snd app]; rewrite <- app_assoc; reflexivity.
Qed.

(** One turn of the loop. *)
Lemma registerContextProviders_cons (e : Context * HandlerOrValue)
    (es : list (Context * HandlerOrValue)) (w : World) :
  registerContextProviders (OfMap (e :: es)) options w =
  (fst (registerContextProvider (fst e) (snd e) options w) ::
   fst (registerContextProviders (OfMap es) options
          (snd (registerContextProvider (fst e) (snd e) options w))),
   snd (registerContextProviders (OfMap es) options
          (snd (registerContextProvider (fst e) (snd e) options w)))).
Proof.
  unfold registerContextProviders at 1; cbn [entriesOf fold_left fst snd].
  destruct (registerContextProvider (fst e) (snd e) options w) as [cl w1].
  cbn [fst snd app]; rewrite registerContextProviders_acc; reflexivity.
Qed.

Lemma register_closures (c : Context) (hv : HandlerOrValue) (w : World) :
  closures (snd (registerContextProvider c hv options w)) = S (closures w) /\
  fst (registerContextProvider c hv options w) =
  {| listenerTarget := reg_target (providerRegistration (closures w) c hv options);
     listener := reg_callback (providerRegistration (closures w) c hv options) |}.
Proof.
  split; [ | reflexivity].
  unfold registerContextProvider; simpl.
  rewrite closures_dispatchProvider.
  apply (addEventListener_frame _ _ _ _ (withClosures (S (closures w)) w)).
Qed.

Lemma bulk_announcements (es : list (Context * HandlerOrValue)) (w : World) :
  let t := match target options with Some t => t | None => document_body end in
  announcements (trace (snd (registerContextProviders (OfMap es) options w))) =
  announcements (trace w) ++
  map (fun e => (t, ContextProviderEvent.new (fst e) t)) es.
Proof.
  intros t; revert w; induction es as [ | e es IH]; intros w.
  - cbn; rewrite app_nil_r; reflexivity.
  - rewrite registerContextProviders_cons; cbn [fst snd].
    rewrite IH, register_announcements; fold t.
    cbn [map]; rewrite <- app_assoc; reflexivity.
Qed.

Lemma bulk_closures (es : list (Context * HandlerOrValue)) (w : World) :
  closures (snd (registerContextProviders (OfMap es) options w)) =
  closures w + List.length es.
Proof.
  revert w; induction es as [ | e es IH]; intros w.
  - cbn; lia.
  - rewrite registerContextProviders_cons; cbn [fst snd].
    rewrite IH, (proj1 (register_closures _ _ _)); cbn [List.length]; lia.
Qed.

Lemma bulk_cleanups (es : list (Context * HandlerOrValue)) (w : World)
    (i : nat) (e : Context * HandlerOrValue) :
  nth_error es i = Some e ->
  nth_error (fst (registerContextProviders (OfMap es) options w)) i =
  Some {| listenerTarget :=
            reg_target (providerRegistration (closures w + i) (fst e) (snd e)
                          options);
          listener :=
            reg_callback (providerRegistration (closures w + i) (fst e) (snd e)
                            options) |}.
Proof.
  revert w i; induction es as [ | e0 es IH]; intros w i;
    [destruct i; discriminate | ].
  rewrite registerContextProviders_cons; cbn [fst snd].
  destruct i as [ | j]; cbn [nth_error].
  - intros E; inversion E; subst e0.
    rewrite Nat.add_0_r; rewrite (proj2 (register_closures _ _ _)).
    reflexivity.
  - intros E; rewrite (IH _ j E), (proj1 (register_closures _ _ _)).
    replace (S (closures w) + j) with (closures w + S j) by lia.
    reflexivity.
Qed.

Lemma bulk_length (es : list (Context * HandlerOrValue)) (w : World) :
  List.length (fst (registerContextProviders (OfMap es) options w)) =
  List.length es.
Proof.
  revert w; induction es as [ | e es IH]; intros w; [reflexivity | ].
  rewrite registerContextProviders_cons; cbn [fst snd List.length].
  rewrite IH; reflexivity.
Qed.

Lemma bulk_wellFormed (es : list (Context * HandlerOrValue)) (w : World) :
  WellFormed w ->
  WellFormed (snd (registerContextProviders (OfMap es) options w)) /\
  aborted (snd (registerContextProviders (OfMap es) options w)) = aborted w.
Proof.
  revert w; induction es as [ | e es IH]; intros w WF; [split; auto | ].
  rewrite registerContextProviders_cons; cbn [fst snd].
  destruct (register_shape (fst e) (snd e) options w WF)
    as [_ [_ [A [WF1 _]]]].
  destruct (IH _ WF1) as [W2 A2]; split; [exact W2 | congruence].
Qed.

(** Every listener left after the loop was there before it, or is the
    listener of one of the entries. *)
Lemma bulk_entries (es : list (Context * HandlerOrValue)) (w : World)
    (x : Registration) :
  WellFormed w ->
  In x (listeners (snd (registerContextProviders (OfMap es) options w))) ->
  In x (listeners w) \/
  exists i e, nth_error es i = Some e /\
              x = providerRegistration (closures w + i) (fst e) (snd e) options.
Proof.
  revert w; induction es as [ | e0 es IH]; intros w WF; [left; assumption | ].
  rewrite registerContextProviders_cons; cbn [fst snd]; intros I.
  destruct (register_shape (fst e0) (snd e0) options w WF)
    as [_ [C [_ [WF1 _]]]].
  destruct (IH _ WF1 I) as [J | [i [e [N E]]]].
  - destruct (register_entries _ _ _ _ _ WF J) as [K | [K _]];
      [left; exact K | right].
    exists 0, e0; split; [reflexivity | ].
    rewrite Nat.add_0_r; exact K.
  - right; exists (S i), e; split; [exact N | ].
    rewrite E, C; f_equal; lia.
Qed.

End Bulk.

(** A provider that is alone for its context stays so when a provider of
    another context registers. *)
Lemma sole_register_other (c : Context) (rL : Registration) (c' : Context)
    (hv' : HandlerOrValue) (options : ProviderOptions) (w : World) :
  WellFormed w -> sole c rL (listeners w) -> reg_once rL = false ->
  c' <> c ->
  sole c rL (listeners (snd (registerContextProvider c' hv' options w))).
Proof.
  intros WF S O Ne.
  destruct (register_shape c' hv' options w WF) as [Sh _].
  apply (shrinks_sole c rL _ _ Sh O).
  destruct (isAborted _ w) eqn:A; [exact S | ].
  destruct (register_listeners c' hv' options w WF A) as [L [D _]].
  cbv zeta in L, D; rewrite L in D.
  destruct S as [I [_ F]].
  split; [apply in_or_app; left; exact I | split; [exact D | ]].
  apply Forall_app; split; [exact F | ].
  constructor; [right; exact Ne | constructor].
Qed.

Section BulkAnswers.

Variable options : ProviderOptions.
Hypothesis options_once : once (addEventListenerOptions options) = false.

Lemma bulk_sole_kept (c : Context) (rL : Registration)
    (es : list (Context * HandlerOrValue)) (w : World) :
  WellFormed w -> sole c rL (listeners w) -> reg_once rL = false ->
  ~ In c (map fst es) ->
  sole c rL (listeners (snd (registerContextProviders (OfMap es) options w))).
Proof.
  revert w; induction es as [ | e es IH]; intros w WF S O N; [exact S | ].
  rewrite registerContextProviders_cons; cbn [fst snd].
  destruct (register_shape (fst e) (snd e) options w WF)
    as [_ [_ [_ [WF1 _]]]].
  apply IH; [exact WF1 | | exact O | ].
  - apply sole_register_other; [exact WF | exact S | exact O | ].
    intros E; apply N; left; exact E.
  - intros I; apply N; right; exact I.
Qed.

(** After the loop every entry's listener is the only one for its
    context, when the contexts are different from one another and none had
    a provider. *)
Lemma bulk_sole (es : list (Context * HandlerOrValue)) (w : World)
    (i : nat) (e : Context * HandlerOrValue) :
  WellFormed w ->
  isAborted (signal (addEventListenerOptions options)) w = false ->
  NoDup (map fst es) ->
  Forall (fun e => noProviderFor (fst e) (listeners w)) es ->
  nth_error es i = Some e ->
  sole (fst e) (providerRegistration (closures w + i) (fst e) (snd e) options)
    (listeners (snd (registerContextProviders (OfMap es) options w))).
Proof.
  revert w i; induction es as [ | e0 es IH]; intros w i WF A N F E;
    [destruct i; discriminate | ].
  rewrite registerContextProviders_cons; cbn [fst snd].
  destruct (register_shape (fst e0) (snd e0) options w WF)
    as [_ [C [Ab [WF1 _]]]].
  apply Forall_cons_iff in F; destruct F as [F0 F].
  cbn [map] in N; apply NoDup_cons_iff in N; destruct N as [N0 N].
  destruct i as [ | j]; cbn [nth_error] in E.
  - inversion E; subst e0; rewrite Nat.add_0_r.
    apply bulk_sole_kept; [exact WF1 | | exact options_once | exact N0].
    apply registered_sole; assumption.
  - replace (closures w + S j) with
      (closures (snd (registerContextProvider (fst e0) (snd e0) options w)) + j)
      by (rewrite C; lia).
    apply IH; [exact WF1 | | exact N | | exact E].
    + unfold isAborted in *; rewrite Ab; exact A.
    + apply Forall_forall; intros x Hx.
      apply Forall_forall; intros r Hr.
      destruct (register_entries _ _ _ _ _ WF Hr) as [J | [J _]].
      * rewrite Forall_forall in F; specialize (F x Hx).
        unfold noProviderFor in F; rewrite Forall_forall in F; apply F, J.
      * rewrite J; simpl; intros Eq; apply N0.
        rewrite Eq; apply in_map; exact Hx.
Qed.

End BulkAnswers.

(** All the cleanups at once: a listener survives when none of them
    matches it. *)
Lemma runCleanups_listeners (cs : list Cleanup) (w : World) :
  listeners (runCleanups cs w) =
  filter (fun x => forallb (fun cl => negb (sameRegistration (listenerTarget cl)
                                              "context-request" (listener cl)
                                              false x)) cs)
    (listeners w).
Proof.
  unfold runCleanups; revert w; induction cs as [ | cl cs IH]; intros w;
    cbn [fold_left forallb].
  - rewrite filter_all; reflexivity.
  - rewrite IH, runCleanup_listeners, filter_filter; reflexivity.
Qed.

Lemma runCleanups_trace (cs : list Cleanup) (w : World) :
  trace (runCleanups cs w) =
  trace w ++
  map (fun cl => RemoveEventListener (listenerTarget cl) "context-request"
                   (listener cl)) cs.
Proof.
  unfold runCleanups; revert w; induction cs as [ | cl cs IH]; intros w;
    cbn [fold_left map].
  - rewrite app_nil_r; reflexivity.
  - rewrite IH, runCleanup_trace, <- app_assoc; reflexivity.
Qed.

Lemma filter_none {A : Type} (f : A -> bool) (l : list A) :
  (forall x, In x l -> f x = false) -> filter f l = [].
Proof.
  induction l as [ | a l IH]; simpl; intros H; [reflexivity | ].
  rewrite (H a (or_introl eq_refl)); apply IH.
  intros x Hx; apply H; right; exact Hx.
Qed.

Section BulkCleanup.

Variable options : ProviderOptions.
Hypothesis options_capture : capture (addEventListenerOptions options) = false.

(** The cleanups the loop returned match every listener it added. *)
Lemma bulk_matched (es : list (Context * HandlerOrValue)) (w : World)
    (i : nat) (e : Context * HandlerOrValue) :
  nth_error es i = Some e ->
  forallb (fun cl => negb (sameRegistration (listenerTarget cl)
                             "context-request" (listener cl) false
                             (providerRegistration (closures w + i) (fst e)
                                (snd e) options)))
    (fst (registerContextProviders (OfMap es) options w)) = false.
Proof.
  intros E.
  destruct (forallb _ _) eqn:Q; [ | reflexivity].
  rewrite forallb_forall in Q.
  specialize (Q _ (nth_error_In _ _ (bulk_cleanups options es w i e E))).
  cbn [listenerTarget listener] in Q.
  pose proof (cleanup_matches (closures w + i) (fst e) (snd e) options) as M.
  cbv zeta in M; rewrite options_capture in M.
  rewrite M in Q; discriminate Q.
Qed.

(** They match none of the listeners that were there before. *)
Lemma bulk_unmatched (es : list (Context * HandlerOrValue)) (w : World)
    (x : Registration) :
  WellFormed w -> In x (listeners w) ->
  forallb (fun cl => negb (sameRegistration (listenerTarget cl)
                             "context-request" (listener cl) false x))
    (fst (registerContextProviders (OfMap es) options w)) = true.
Proof.
  intros [_ F] I; rewrite Forall_forall in F; specialize (F x I).
  apply forallb_forall; intros cl Hcl.
  apply In_nth_error in Hcl; destruct Hcl as [i Hi].
  assert (Li : i < List.length es).
  { rewrite <- (bulk_length options es w).
    apply nth_error_Some; congruence. }
  destruct (nth_error es i) as [e | ] eqn:E;
    [ | apply nth_error_None in E; lia].
  rewrite (bulk_cleanups options es w i e E) in Hi.
  inversion Hi; subst cl; cbn [listenerTarget listener].
  rewrite closure_differs with (i := closures w + i);
    [reflexivity | reflexivity | ].
  destruct (closureOf (reg_callback x)); [ | discriminate].
  intros Eq; inversion Eq; lia.
Qed.

Lemma bulk_listeners (es : list (Context * HandlerOrValue)) (w : World)
    (base news : list Registration) :
  WellFormed w -> listeners w = base ++ news ->
  Forall (fun r => reg_once r = false) base ->
  exists news',
    listeners (snd (registerContextProviders (OfMap es) options w)) =
    base ++ news' /\
    forall x, In x news' ->
      In x news \/
      exists i e, nth_error es i = Some e /\
                  x = providerRegistration (closures w + i) (fst e) (snd e)
                        options.
Proof.
  revert w news; induction es as [ | e0 es IH]; intros w news WF L F.
  - exists news; split; [exact L | auto].
  - rewrite registerContextProviders_cons; cbn [fst snd].
    destruct (register_shape (fst e0) (snd e0) options w WF)
      as [[f [Lf K]] [C [_ [WF1 _]]]].
    set (rL := providerRegistration (closures w) (fst e0) (snd e0) options)
      in *.
    set (more := if isAborted (signal (addEventListenerOptions options)) w
                 then news else news ++ [rL]).
    assert (L1 : listeners (snd (registerContextProvider (fst e0) (snd e0)
                                   options w)) = base ++ filter f more).
    { rewrite Lf; unfold more.
      destruct (isAborted _ w); rewrite L.
      - rewrite filter_app, (filter_id f base); [reflexivity | ].
        intros x Hx; rewrite Forall_forall in F; apply K, F, Hx.
      - rewrite <- app_assoc, filter_app, (filter_id f base);
          [reflexivity | ].
        intros x Hx; rewrite Forall_forall in F; apply K, F, Hx. }
    destruct (IH _ (filter f more) WF1 L1 F) as [news' [L2 N2]].
    exists news'; split; [exact L2 | ].
    intros x Hx; destruct (N2 x Hx) as [J | [i [e [N E]]]].
    + apply filter_In in J; destruct J as [J _].
      unfold more in J; destruct (isAborted _ w); [left; exact J | ].
      apply in_app_or in J; destruct J as [J | [<- | []]]; [left; exact J | ].
      right; exists 0, e0; split; [reflexivity | ].
      unfold rL; rewrite Nat.add_0_r; reflexivity.
    + right; exists (S i), e; split; [exact N | ].
      rewrite E, C; f_equal; lia.
Qed.

End BulkCleanup.

(** X11. [registerContextProviders] registers the entries one after the
    other, in the order of the map or record: it dispatches one
    announcement per entry, for the entry's context, all at the same target;
    it returns one cleanup per entry, the [i]-th for a listener made for the
    [i]-th entry; and with no entry it does nothing at all. *)
Theorem bulk_registration_announces_each :
  forall providers options w,
    let t :=
      match target options with Some t => t | None => document_body end in
    let sp :=
      match stopPropagation options with Some b => b | None => true end in
    let regs := registerContextProviders providers options w in
    announcements (trace (snd regs)) =
    announcements (trace w) ++
    map (fun e => (t, ContextProviderEvent.new (fst e) t))
      (entriesOf providers) /\
    List.length (fst regs) = List.length (entriesOf providers) /\
    (forall i e,
       nth_error (entriesOf providers) i = Some e ->
       nth_error (fst regs) i =
       Some {| listenerTarget := getRootNode t;
               listener := ContextListener (closures w + i) (fst e) (snd e)
                             sp |}) /\
    (entriesOf providers = [] -> regs = ([], w)).
Proof.
  intros providers options w t sp regs.
  unfold regs; rewrite registerContextProviders_entries.
  split; [apply bulk_announcements | ].
  split; [apply bulk_length | ].
  split; [intros i e E; apply (bulk_cleanups options _ w i e E) | ].
  intros ->; reflexivity.
Qed.

(** X13. The function [registerContextProviders] returns runs the
    cleanups in the order of the registrations, one [removeEventListener]
    call each. When the providers were not added with [capture], every
    listener left after it was there before the registrations, and when no
    listener of the page is a [once] listener the list of listeners is the
    one before them. *)
Theorem bulk_cleanup_undoes_registrations :
  forall before providers options,
    capture (addEventListenerOptions options) = false ->
    let w := run before initialWorld in
    let regs := registerContextProviders providers options w in
    let w' := runCleanups (fst regs) (snd regs) in
    trace w' =
    trace (snd regs) ++
    map (fun cl => RemoveEventListener (listenerTarget cl) "context-request"
                     (listener cl)) (fst regs) /\
    (forall x, In x (listeners w') -> In x (listeners w)) /\
    (Forall (fun r => reg_once r = false) (listeners w) ->
     listeners w' = listeners w).
Proof.
  intros before providers options Cap w regs w'.
  destruct (run_reachable before initialWorld wellFormed_initialWorld eq_refl)
    as [WF _].
  fold w in WF.
  split; [apply runCleanups_trace | ].
  unfold w', regs; rewrite registerContextProviders_entries.
  rewrite runCleanups_listeners.
  set (es := entriesOf providers).
  split.
  - intros x Hx; apply filter_In in Hx; destruct Hx as [Hx G].
    destruct (bulk_entries options es w x WF Hx) as [J | [i [e [N E]]]];
      [exact J | ].
    rewrite E, (bulk_matched options Cap es w i e N) in G; discriminate G.
  - intros F.
    destruct (bulk_listeners options es w (listeners w) [] WF
                (eq_sym (app_nil_r _)) F) as [news [L N]].
    rewrite L, filter_app.
    rewrite filter_id by (intros x Hx; apply bulk_unmatched; assumption).
    rewrite filter_none; [apply app_nil_r | ].
    intros x Hx; destruct (N x Hx) as [[] | [i [e [Ne E]]]].
    rewrite E; apply bulk_matched; assumption.
Qed.

Lemma bulk_cleanup_undoes_registrations_witness :
  let providers :=
    OfRecord [("theme", Static dark); ("locale", Static (Js.Text "fr"))] in
  let regs := registerContextProviders providers defaultOptions initialWorld in
  listeners (runCleanups (fst regs) (snd regs)) = [].
Proof.
  intros providers regs.
  destruct (bulk_cleanup_undoes_registrations [] providers defaultOptions
              eq_refl) as [_ [_ H]].
  apply H; constructor.
Defined.

(** X14. The keys of a record are strings, so the providers registered
    from a record provide string contexts only: a symbol context that had no
    provider has none afterwards, whatever its description, and a request
    for it is neither stopped nor answered. *)
Theorem record_provides_no_symbol :
  forall before entries options i s,
    let w := run before initialWorld in
    noProviderFor (CtxSymbol i s) (listeners w) ->
    let w' := snd (registerContextProviders (OfRecord entries) options w) in
    noProviderFor (CtxSymbol i s) (listeners w') /\
    forall n origin cb sub,
      let ev := ContextRequestEvent.new (CtxSymbol i s) origin cb sub in
      fst (dispatchRequest n ev w') = false /\
      deliveries cb (trace (snd (dispatchRequest n ev w'))) =
      deliveries cb (trace w').
Proof.
  intros before entries options i s w NP w'.
  destruct (run_reachable before initialWorld wellFormed_initialWorld eq_refl)
    as [WF _].
  fold w in WF.
  assert (NP' : noProviderFor (CtxSymbol i s) (listeners w')).
  { apply Forall_forall; intros x Hx.
    unfold w' in Hx; rewrite registerContextProviders_entries in Hx.
    destruct (bulk_entries options _ w x WF Hx) as [J | [j [e [N E]]]].
    - unfold noProviderFor in NP; rewrite Forall_forall in NP; apply NP, J.
    - apply nth_error_In in N; cbn [entriesOf] in N.
      apply in_map_iff in N; destruct N as [[key hv] [<- _]].
      rewrite E; simpl; discriminate. }
  split; [exact NP' | ].
  intros n origin cb sub; apply unanswered; exact NP'.
Qed.

(** The record has the key theme; a consumer asks for the symbol of that
    description. *)
Lemma record_provides_no_symbol_witness :
  let w' := snd (registerContextProviders (OfRecord [("theme", Static dark)])
                   defaultOptions initialWorld) in
  deliveries onTheme
    (trace (snd (dispatchRequest consumer
                   (ContextRequestEvent.new (CtxSymbol 0 "theme") consumer
                      onTheme None) w'))) =
  deliveries onTheme (trace w').
Proof.
  intros w'.
  destruct (record_provides_no_symbol [] [("theme", Static dark)]
              defaultOptions 0 "theme" (Forall_nil _)) as [_ H].
  apply (H consumer consumer onTheme None).
Defined.

(* ------------------------------------------------------------------ *)
(** ** Two providers of one context *)


Section UpTo.

Variable c : Context.
Variable rL : Registration.
Variable closure : nat.
Variable hv : HandlerOrValue.
Variable sp : bool.
Hypothesis rL_callback : reg_callback rL = ContextListener closure c hv sp.
Variable ev : ContextRequestEvent.t.
Hypothesis ev_context : ContextRequestEvent.context ev = c.


End UpTo.











(* ------------------------------------------------------------------ *)
(** * What a dispatch adds

    The statements that follow say what a request adds to what was there
    before it: to the trace when the value is static, to what the
    fulfilment of the handler's value and the microtasks give otherwise. *)

(* ------------------------------------------------------------------ *)
(** ** Worlds that only grow *)

Lemma extends_refl (w : World) : extends w w.
Proof.
  repeat split; try (exists []; rewrite app_nil_r; reflexivity).
Qed.







(* ------------------------------------------------------------------ *)
(** ** Counting the calls of a callback *)







(* ------------------------------------------------------------------ *)
(** ** Listeners that let a request through *)



Section Reach.

Variable c : Context.
Variable rL : Registration.
Variable closure : nat.
Variable hv : HandlerOrValue.
Variable sp : bool.
Hypothesis rL_callback : reg_callback rL = ContextListener closure c hv sp.
Variable ev : ContextRequestEvent.t.
Hypothesis ev_context : ContextRequestEvent.context ev = c.




End Reach.



(* ------------------------------------------------------------------ *)
(** ** A provider that registers while a request is pending *)

Section LateCalled.

Variable c : Context.
Variable rL : Registration.
Variable closure : nat.
Variable hv : HandlerOrValue.
Variable sp : bool.
Hypothesis rL_callback : reg_callback rL = ContextListener closure c hv sp.
Hypothesis rL_type : reg_type rL = "context-request".

Variable announcing : Node.
Hypothesis rL_above : In (reg_target rL) (eventPath true announcing).

Variable rec : RequestRecord.
Hypothesis rec_matches : rec_context rec = c.


Variable evp : ContextProviderEvent.t.
Hypothesis evp_context : ContextProviderEvent.context evp = c.
Hypothesis evp_target : ContextProviderEvent.contextTarget evp = announcing.




End LateCalled.


(* ------------------------------------------------------------------ *)
(** * Registration, announcement and answer *)

(* ------------------------------------------------------------------ *)
(** ** The announcement of a registration *)

(** What [addEventListener] leaves of the listener list when the closure
    is a new one. *)
Lemma register_installs (c : Context) (hv : HandlerOrValue)
    (options : ProviderOptions) (w : World) :
  WellFormed w ->
  let t := match target options with Some t => t | None => document_body end in
  let sp := match stopPropagation options with Some b => b | None => true end in
  let w1 := addEventListener (getRootNode t) "context-request"
              (ContextListener (closures w) c hv sp)
              (addEventListenerOptions options)
              (withClosures (S (closures w)) w) in
  listeners w1 =
  (if isAborted (signal (addEventListenerOptions options)) w
   then listeners w
   else listeners w ++ [providerRegistration (closures w) c hv options]) /\
  distinct (listeners w1).
Proof.
  intros WF t sp w1.
  destruct (isAborted (signal (addEventListenerOptions options)) w) eqn:A.
  - assert (L : listeners w1 = listeners w).
    { unfold w1, addEventListener; simpl.
      unfold isAborted in *; simpl; rewrite A; reflexivity. }
    rewrite L; split; [reflexivity | exact (proj1 WF)].
  - destruct (register_listeners c hv options w WF A) as [L [D _]].
    split; [exact L | exact D].
Qed.

(** C5, as the code has it. On any page, a call of
    [registerContextProvider] first calls [addEventListener] for its request
    listener on the root of the target's tree, which adds the listener to
    the root's list unless [options.signal] has already fired; from the
    world this leaves, it dispatches a ContextProviderEvent of the same
    context at the target node ([options.target], by default
    [document.body]), with that node as contextTarget, and what the call
    returns is what this dispatch returns. The dispatch visits every
    listener for announcements registered on the target's event path; it is
    the only announcement the call dispatches. *)
Theorem registration_announces_once :
  forall before c hv options,
    let t :=
      match target options with Some t => t | None => document_body end in
    let w := run before initialWorld in
    let reg := registerContextProvider c hv options w in
    let rL := providerRegistration (closures w) c hv options in
    let announcement := ContextProviderEvent.new c t in
    exists w1,
      trace w1 =
      trace w ++
      [AddEventListener (getRootNode t) "context-request" (listener (fst reg))
         (addEventListenerOptions options)] /\
      listeners w1 =
      (if isAborted (signal (addEventListenerOptions options)) w
       then listeners w else listeners w ++ [rL]) /\
      reg_callback rL = listener (fst reg) /\
      reg_target rL = getRootNode t /\
      snd reg = dispatchEvent t (ProviderEvent announcement) w1 /\
      (forall x,
         In x (listeners w1) -> reg_type x = "context-provider" ->
         under (reg_target x) t ->
         In x (invocationOrder (listeners w1)
                 (ContextProviderEvent.event announcement) t)) /\
      (exists rest,
         trace (snd reg) =
         trace w1 ++ DispatchEvent t (ProviderEvent announcement) :: rest /\
         announcements rest = []) /\
      announcements (trace (snd reg)) =
      announcements (trace w) ++ [(t, announcement)] /\
      ContextProviderEvent.context announcement = c /\
      ContextProviderEvent.contextTarget announcement = t.
Proof.
  intros before c hv options t w reg rL announcement.
  destruct (run_reachable before initialWorld wellFormed_initialWorld eq_refl)
    as [WF _].
  fold w in WF.
  destruct (register_installs c hv options w WF) as [L _].
  destruct (register_trace c hv options w) as [rest [T F]].
  fold t in T, L; fold reg in T.
  set (sp := match stopPropagation options with
             | Some b => b
             | None => true
             end) in *.
  set (w1 := addEventListener (getRootNode t) "context-request"
               (ContextListener (closures w) c hv sp)
               (addEventListenerOptions options)
               (withClosures (S (closures w)) w)) in *.
  assert (T1 : trace w1 =
               trace w ++
               [AddEventListener (getRootNode t) "context-request"
                  (listener (fst reg)) (addEventListenerOptions options)])
    by exact (proj1 (addEventListener_frame (getRootNode t) "context-request"
                       (ContextListener (closures w) c hv sp)
                       (addEventListenerOptions options)
                       (withClosures (S (closures w)) w))).
  exists w1.
  split; [exact T1 | ].
  split; [exact L | ].
  split; [reflexivity | ].
  split; [reflexivity | ].
  split; [reflexivity | ].
  split.
  { intros x Hx Ty U; apply in_invocationOrder.
    split; [exact Hx | split; [exact Ty | ]].
    simpl; rewrite orb_true_r; exact U. }
  split.
  { exists rest; split; [ | apply announcements_none; exact F].
    rewrite T, T1, <- app_assoc; reflexivity. }
  split; [apply register_announcements | split; reflexivity].
Qed.

(** C5 as stated fails where it says the listener is installed. With a
    signal that has fired, the call still calls [addEventListener] and
    dispatches its announcement, but no listener is installed, neither
    when the announcement is dispatched nor afterwards: a request for the
    context dispatched after the call is not stopped and nothing is
    delivered. *)
Lemma announced_without_listener :
  let options :=
    {| target := None; stopPropagation := None;
       addEventListenerOptions :=
         {| capture := false; once := false; passive := false;
            signal := Some 7 |} |} in
  let w := run [Abort 7] initialWorld in
  let reg := registerContextProvider theme (Static dark) options w in
  let request := ContextRequestEvent.new theme consumer onTheme None in
  trace (snd reg) =
    [AddEventListener Document "context-request" (listener (fst reg))
       (addEventListenerOptions options);
     DispatchEvent document_body
       (ProviderEvent (ContextProviderEvent.new theme document_body))] /\
  listeners (snd reg) = [] /\
  fst (dispatchRequest consumer request (snd reg)) = false /\
  deliveries onTheme (trace (snd (dispatchRequest consumer request (snd reg))))
  = [].
Proof. vm_compute; repeat split; reflexivity. Qed.

(* ------------------------------------------------------------------ *)
(** ** When the callback is called *)







(* ------------------------------------------------------------------ *)
(** ** Where the provider listens *)





(* ------------------------------------------------------------------ *)
(** ** Late resolution, from the registration on *)



(** The same run, as a list of actions, the provider registered with
    [once]. *)
Example late_resolution_run :
  deliveries onTheme
    (trace
       (run [Attach document_body;
             Request consumer theme onTheme (Some true);
             Register (CtxString "locale") (Static (Js.Text "fr"))
               defaultOptions;
             Detach documentElement;
             Microtasks;
             Register theme (Handler (fun _ => Js.Normal (Js.Promise 0)))
               {| target := None; stopPropagation := None;
                  addEventListenerOptions :=
                    {| capture := false; once := true; passive := false;
                       signal := None |} |};
             Settle 0 (Js.Fulfilled dark);
             Microtasks] initialWorld)) = [dark].
Proof. vm_compute; reflexivity. Qed.


(* ------------------------------------------------------------------ *)
(** * Further properties: the only provider of a context *)

(** A request dispatched below the node where the only provider of its
    context listens: the stop flag comes out as the provider's
    [stopPropagation], and the request is answered once. *)
Lemma sole_answers (w : World) (n : Node) (c : Context) (hv : HandlerOrValue)
    (sp : bool) (closure : nat) (rL : Registration) (origin : Node)
    (cb : ContextCallback) (sub : option bool) (v : Js.Value) :
  reg_callback rL = ContextListener closure c hv sp ->
  reg_type rL = "context-request" ->
  sole c rL (listeners w) ->
  under (reg_target rL) n ->
  v <> Js.Undefined ->
  let ev := ContextRequestEvent.new c origin cb sub in
  fst (dispatchRequest n ev w) = sp /\
  answersOnce hv ev v w (snd (dispatchRequest n ev w)).
Proof.
  intros Cb Ty S U N ev.
  split.
  { apply (dispatchRequest_answers c rL closure hv sp Cb ev eq_refl n w S Ty U
             eq_refl). }
  destruct (dispatchRequest_sole_exact c rL closure hv sp Cb ev eq_refl n w S
              Ty U eq_refl) as [w1 [U1 U2]].
  set (w' := snd (dispatchRequest n ev w)) in *.
  destruct hv as [u | h]; simpl.
  - intros ->.
    destruct U2 as [T2 _]; destruct U1 as [T1 _].
    rewrite T2; unfold contextListener; simpl.
    rewrite strictEquals_refl; simpl.
    rewrite (deliver_trace _ _ _ _ N), T1; simpl.
    rewrite !deliveries_app, deliveries_delivery; simpl.
    rewrite app_nil_r; reflexivity.
  - intros a Ha R.
    destruct (suspended_exact c h sp ev n w w1 w' a (Js.Fulfilled v) eq_refl
                U1 U2 Ha R) as [tail [Tw Tw']].
    rewrite Tw', Tw.
    rewrite (effects_delivery _ _ N); simpl.
    rewrite !deliveries_app; simpl.
    rewrite !deliveries_app, deliveries_delivery.
    rewrite <- app_assoc; reflexivity.
Qed.

(* ------------------------------------------------------------------ *)
(** ** The cleanup and the [capture] option *)

(** X6. The cleanup calls [removeEventListener] without the [capture]
    flag, so it does not remove a provider that was registered with
    [capture: true] (no [once], signal not fired): after the cleanup the
    listener is still an entry of the root's list. If moreover no provider
    of the context was registered before the call, a request for the
    context dispatched after the cleanup at a node of the target's tree is
    still answered, once: the stop flag is as [stopPropagation] says; a
    static value other than [undefined] gives one more call of the
    callback, with that value, when the dispatch returns; a handler whose
    value is fulfilled with a value other than [undefined] gives, after the
    fulfilment and the microtasks, one call more than they give without the
    request. *)
Theorem cleanup_misses_capturing_listener :
  forall before c hv options,
    capture (addEventListenerOptions options) = true ->
    once (addEventListenerOptions options) = false ->
    let w := run before initialWorld in
    isAborted (signal (addEventListenerOptions options)) w = false ->
    let t :=
      match target options with Some t => t | None => document_body end in
    let reg := registerContextProvider c hv options w in
    let w' := runCleanup (fst reg) (snd reg) in
    In (providerRegistration (closures w) c hv options) (listeners w') /\
    (noProviderFor c (listeners w) ->
     forall n origin cb sub v,
       getRootNode n = getRootNode t -> v <> Js.Undefined ->
       let ev := ContextRequestEvent.new c origin cb sub in
       fst (dispatchRequest n ev w') =
       match stopPropagation options with Some b => b | None => true end /\
       answersOnce hv ev v w' (snd (dispatchRequest n ev w'))).
Proof.
  intros before c hv options Cap O w A t reg w'.
  destruct (run_reachable before initialWorld wellFormed_initialWorld eq_refl)
    as [WF _].
  fold w in WF.
  destruct (register_shape c hv options w WF) as [_ [_ [_ [_ Fr]]]].
  fold reg in Fr.
  pose proof (cleanup_matches (closures w) c hv options) as M.
  simpl in M; rewrite Cap in M; simpl in M.
  assert (L : listeners w' =
              filter (fun r => negb (sameRegistration (getRootNode t)
                                       "context-request"
                                       (reg_callback
                                          (providerRegistration (closures w) c
                                             hv options)) false r))
                (listeners (snd reg)))
    by (unfold w'; rewrite runCleanup_listeners, Fr; reflexivity).
  split.
  - rewrite L; apply filter_In; split.
    + apply register_provider_In; assumption.
    + simpl; fold t in M; rewrite M; reflexivity.
  - intros NP n origin cb sub v R N ev.
    apply (sole_answers w' n c hv _ (closures w)
             (providerRegistration (closures w) c hv options) origin cb sub v
             eq_refl eq_refl).
    + rewrite L; apply sole_filter.
      * simpl; fold t in M; rewrite M; reflexivity.
      * apply registered_sole; assumption.
    + simpl; fold t; rewrite <- R; apply getRootNode_on_path.
    + exact N.
Qed.

Lemma cleanup_misses_capturing_listener_witness :
  let options :=
    {| target := None; stopPropagation := None;
       addEventListenerOptions :=
         {| capture := true; once := false; passive := false;
            signal := None |} |} in
  let reg := registerContextProvider theme (Static dark) options initialWorld in
  let w' := runCleanup (fst reg) (snd reg) in
  let ev := ContextRequestEvent.new theme consumer onTheme None in
  deliveries onTheme (trace (snd (dispatchRequest consumer ev w'))) =
  deliveries onTheme (trace w') ++ [dark].
Proof.
  intros options reg w' ev.
  pose proof (cleanup_misses_capturing_listener [] theme (Static dark) options
                eq_refl eq_refl eq_refl) as H.
  destruct H as [_ H].
  assert (N : dark <> Js.Undefined) by discriminate.
  exact (proj2 (H (Forall_nil _) consumer consumer onTheme None dark eq_refl N)
           eq_refl).
Defined.

(* ------------------------------------------------------------------ *)
(** ** The providers of a bulk registration *)

(** X12. After [registerContextProviders], when the contexts of the
    entries differ from one another, none of them had a provider before,
    [once] was not asked for and the signal had not fired, a request for the
    context of an entry dispatched at a node of the target's tree is
    answered once, by that entry's provider: the stop flag is as
    [stopPropagation] says; a static value other than [undefined] gives one
    more call of the callback, with that value, when the dispatch returns; a
    handler whose value is fulfilled with a value other than [undefined]
    gives, after the fulfilment and the microtasks, one call more than they
    give without the request. *)
Theorem bulk_providers_answer :
  forall before providers options,
    once (addEventListenerOptions options) = false ->
    let w := run before initialWorld in
    isAborted (signal (addEventListenerOptions options)) w = false ->
    NoDup (map fst (entriesOf providers)) ->
    Forall (fun e => noProviderFor (fst e) (listeners w))
      (entriesOf providers) ->
    let t :=
      match target options with Some t => t | None => document_body end in
    let w' := snd (registerContextProviders providers options w) in
    forall c hv,
      In (c, hv) (entriesOf providers) ->
      forall n origin cb sub v,
        getRootNode n = getRootNode t -> v <> Js.Undefined ->
        let ev := ContextRequestEvent.new c origin cb sub in
        fst (dispatchRequest n ev w') =
        match stopPropagation options with Some b => b | None => true end /\
        answersOnce hv ev v w' (snd (dispatchRequest n ev w')).
Proof.
  intros before providers options O w A N F t w' c hv I n origin cb sub v R Nv
         ev.
  destruct (run_reachable before initialWorld wellFormed_initialWorld eq_refl)
    as [WF _].
  fold w in WF.
  apply In_nth_error in I; destruct I as [i E].
  pose proof (bulk_sole options O (entriesOf providers) w i (c, hv) WF A N F E)
    as S.
  cbn [fst snd] in S.
  unfold w'; rewrite registerContextProviders_entries.
  apply (sole_answers _ n c hv _ (closures w + i)
           (providerRegistration (closures w + i) c hv options) origin cb sub v
           eq_refl eq_refl S).
  - simpl; fold t; rewrite <- R; apply getRootNode_on_path.
  - exact Nv.
Qed.

(** The record of the documentation: a theme and a locale, both
    static. *)
Lemma bulk_providers_answer_witness :
  let providers :=
    OfRecord [("theme", Static dark); ("locale", Static (Js.Text "fr"))] in
  let w' := snd (registerContextProviders providers defaultOptions
                   initialWorld) in
  let ev := ContextRequestEvent.new (CtxString "locale") consumer onTheme None in
  deliveries onTheme (trace (snd (dispatchRequest consumer ev w'))) =
  deliveries onTheme (trace w') ++ [Js.Text "fr"].
Proof.
  intros providers w' ev.
  assert (N : NoDup (map fst (entriesOf providers))).
  { repeat constructor; simpl; intros H; repeat destruct H as [H | H];
      try discriminate H; exact H. }
  pose proof (bulk_providers_answer [] providers defaultOptions eq_refl
                eq_refl N) as H.
  specialize (H (Forall_cons _ (Forall_nil _)
                   (Forall_cons _ (Forall_nil _) (Forall_nil _)))).
  assert (Nv : Js.Text "fr" <> Js.Undefined) by discriminate.
  exact (proj2 (H (CtxString "locale") (Static (Js.Text "fr"))
                  (or_intror (or_introl eq_refl)) consumer consumer onTheme
                  None (Js.Text "fr") eq_refl Nv) eq_refl).
Defined.

(* ------------------------------------------------------------------ *)
(** ** Requests from nested shadow trees *)

(** X17. The provider's listener is on the root of its target's tree, and
    the request is composed: a request dispatched at a node whose event path
    passes through that root (a node of the target's tree, or of a shadow
    tree nested in it) reaches the provider. When no provider of the context
    was registered before, [once] was not asked for and the signal had not
    fired, it is answered once: the stop flag is as [stopPropagation] says;
    a static value other than [undefined] gives one more call of the
    callback, with that value, when the dispatch returns; a handler whose
    value is fulfilled with a value other than [undefined] gives, after the
    fulfilment and the microtasks, one call more than they give without the
    request. *)
Theorem provider_heard_from_nested_trees :
  forall before c hv options n origin cb sub v,
    let w := run before initialWorld in
    noProviderFor c (listeners w) ->
    once (addEventListenerOptions options) = false ->
    isAborted (signal (addEventListenerOptions options)) w = false ->
    let t :=
      match target options with Some t => t | None => document_body end in
    under (getRootNode t) n ->
    v <> Js.Undefined ->
    let reg := registerContextProvider c hv options w in
    let ev := ContextRequestEvent.new c origin cb sub in
    fst (dispatchRequest n ev (snd reg)) =
    match stopPropagation options with Some b => b | None => true end /\
    answersOnce hv ev v (snd reg) (snd (dispatchRequest n ev (snd reg))).
Proof.
  intros before c hv options n origin cb sub v w NP O A t U N reg ev.
  destruct (run_reachable before initialWorld wellFormed_initialWorld eq_refl)
    as [WF _].
  fold w in WF.
  apply (sole_answers (snd reg) n c hv _ (closures w)
           (providerRegistration (closures w) c hv options) origin cb sub v
           eq_refl eq_refl).
  - apply registered_sole; assumption.
  - exact U.
  - exact N.
Qed.

(** A provider registered on the page's body hears an element inside the
    shadow tree of one of the body's elements. *)
Lemma provider_heard_from_nested_trees_witness :
  let inner := Child (ShadowRoot consumer) 0 in
  let reg := registerContextProvider theme (Static dark) defaultOptions
               initialWorld in
  let ev := ContextRequestEvent.new theme inner onTheme None in
  getRootNode inner <> getRootNode document_body /\
  deliveries onTheme (trace (snd (dispatchRequest inner ev (snd reg)))) =
  deliveries onTheme (trace (snd reg)) ++ [dark].
Proof.
  intros inner reg ev.
  split; [discriminate | ].
  assert (U : under (getRootNode document_body) inner).
  { unfold under; simpl; tauto. }
  assert (N : dark <> Js.Undefined) by discriminate.
  exact (proj2 (provider_heard_from_nested_trees [] theme (Static dark)
                  defaultOptions inner inner onTheme None dark (Forall_nil _)
                  eq_refl eq_refl U N) eq_refl).
Defined.

(* ------------------------------------------------------------------ *)
(** ** [createContextProvider] *)

(** X18. The factory [createContextProvider(context)] keeps the context
    it was made with, and its [provide] registers a provider of that
    context: the call announces the context at the target. When no provider
    of the context was registered before, [once] was not asked for and the
    signal had not fired, a request for the factory's context dispatched at
    a node whose event path passes through the root of the target's tree is
    answered once, by the value or handler given to [provide]: the stop flag
    is as [stopPropagation] says; a static value other than [undefined]
    gives one more call of the callback, with that value, when the dispatch
    returns; a handler whose value is fulfilled with a value other than
    [undefined] gives, after the fulfilment and the microtasks, one call
    more than they give without the request. *)
Theorem factory_provides_its_context :
  forall before c hv options n origin cb sub v,
    let w := run before initialWorld in
    noProviderFor c (listeners w) ->
    once (addEventListenerOptions options) = false ->
    isAborted (signal (addEventListenerOptions options)) w = false ->
    let t :=
      match target options with Some t => t | None => document_body end in
    under (getRootNode t) n ->
    v <> Js.Undefined ->
    let factory := createContextProvider c in
    let reg := provide factory hv options w in
    let ev := ContextRequestEvent.new (factory_context factory) origin cb sub in
    factory_context factory = c /\
    announcements (trace (snd reg)) =
    announcements (trace w) ++ [(t, ContextProviderEvent.new c t)] /\
    fst (dispatchRequest n ev (snd reg)) =
    match stopPropagation options with Some b => b | None => true end /\
    answersOnce hv ev v (snd reg) (snd (dispatchRequest n ev (snd reg))).
Proof.
  intros before c hv options n origin cb sub v w NP O A t U N factory reg ev.
  destruct (run_reachable before initialWorld wellFormed_initialWorld eq_refl)
    as [WF _].
  fold w in WF.
  split; [reflexivity | ].
  split; [apply register_announcements | ].
  apply (sole_answers (snd reg) n c hv _ (closures w)
           (providerRegistration (closures w) c hv options) origin cb sub v
           eq_refl eq_refl).
  - apply registered_sole; assumption.
  - exact U.
  - exact N.
Qed.

Lemma factory_provides_its_context_witness :
  let ThemeContext := createContextProvider theme in
  let reg := provide ThemeContext (Static dark) defaultOptions initialWorld in
  let ev := ContextRequestEvent.new (factory_context ThemeContext) consumer
              onTheme None in
  deliveries onTheme (trace (snd (dispatchRequest consumer ev (snd reg)))) =
  deliveries onTheme (trace (snd reg)) ++ [dark].
Proof.
  intros ThemeContext reg ev.
  assert (U : under (getRootNode document_body) consumer)
    by (right; right; right; left; reflexivity).
  assert (N : dark <> Js.Undefined) by discriminate.
  exact (proj2 (proj2 (proj2
           (factory_provides_its_context [] theme (Static dark) defaultOptions
              consumer consumer onTheme None dark (Forall_nil _) eq_refl
              eq_refl U N))) eq_refl).
Defined.
